(** * A UTXO ledger over a relational store: apply, validate, roll back

    Shallow embedding of the block indexer: [DatabaseManager]
    (database.ts), [ValidationService] (validation.ts) and the three
    routes of [RouteHandler] (routes.ts).

    Modelling conventions.
    - A table is the list of its rows in insertion order.  [SELECT ... WHERE]
      is [filter], [UPDATE ... WHERE] is [map] over the matching rows,
      [DELETE ... WHERE] is [filter] on the complement and [INSERT] appends
      after the primary-key and unique checks of the schema.  A [SELECT]
      without [ORDER BY] returns the rows in table order.
    - The columns [id SERIAL], [created_at] and [updated_at] carry no ledger
      information and are left out of the rows.
    - JavaScript numbers holding heights, indexes and values are integers
      ([Z]); the result of [parseInt] is an integer or [NaN] ([option Z]).
      An [INTEGER] column holds 32 bits: the store refuses a statement that
      binds a parameter outside that range to an [INTEGER] column, or whose
      arithmetic on such a column leaves it ([in_int4]).
    - [BEGIN ... COMMIT / ROLLBACK] is a snapshot: a failed unit leaves the
      store it started from.
    - The two storage units are given as the store runs them
      ([processBlock], [rollbackToHeight]): a statement may be refused, and
      the unit then throws.  To reason about what a committed unit leaves,
      their loops are also given without the refusals: [processInput],
      [processOutputs], [processTransaction_unbounded] and the functions
      named [_session].
    - [createHash('sha256')] belongs to the runtime; the validation service
      is developed in a section over the digest function. *)

From Stdlib Require Import ZArith List String Ascii Bool Lia.
From Stdlib Require Import Permutation Sorted DecimalString.
Import ListNotations.

Local Open Scope string_scope.
Local Open Scope list_scope.
Local Open Scope Z_scope.

(* ================================================================= *)
(** ** Payload types (types.ts) *)

Record Output := mkOutput {
  out_address : string;
  out_value : Z
}.

Record Input := mkInput {
  in_txId : string;
  in_index : Z
}.

Record Transaction := mkTransaction {
  tx_id : string;
  tx_inputs : list Input;
  tx_outputs : list Output
}.

Record Block := mkBlock {
  block_id : string;
  block_height : Z;
  block_transactions : list Transaction
}.

Record BlockValidationResult := mkResult {
  isValid : bool;
  error : option string;
  message : option string
}.

(* ================================================================= *)
(** ** The persisted store (createTables) *)

Record BlockRow := mkBlockRow {
  blk_id : string;
  blk_height : Z
}.

Record TransactionRow := mkTransactionRow {
  txr_id : string;
  txr_block_id : string
}.

Record InputRow := mkInputRow {
  inr_transaction_id : string;
  inr_input_tx_id : string;
  inr_input_index : Z
}.

Record OutputRow := mkOutputRow {
  otr_transaction_id : string;
  otr_address : string;
  otr_value : Z;
  otr_output_index : Z;
  otr_is_spent : bool
}.

Record BalanceRow := mkBalanceRow {
  bal_address : string;
  bal_balance : Z
}.

Record Db := mkDb {
  blocks : list BlockRow;
  transactions : list TransactionRow;
  transaction_inputs : list InputRow;
  transaction_outputs : list OutputRow;
  address_balances : list BalanceRow
}.

Definition empty_db : Db := mkDb [] [] [] [] [].

(** Errors raised by the store: the constraint that an [INSERT] violates, or
    a value outside the range of an [INTEGER] column, with the message of
    the error. *)
Inductive DbError :=
| UniqueViolation (constraint : string)
| NumericValueOutOfRange (message : string).

Inductive result (A : Type) :=
| Ok (a : A)
| Err (e : DbError).
Arguments Ok {A} a.
Arguments Err {A} e.

Definition bind {A B} (r : result A) (k : A -> result B) : result B :=
  match r with
  | Ok a => k a
  | Err e => Err e
  end.

Notation "x <- r ;; k" := (bind r (fun x => k))
  (at level 61, r at next level, right associativity).

(** A [for ... of] loop whose body may throw. *)
Fixpoint for_each {A S} (body : S -> A -> result S) (xs : list A) (s : S)
  : result S :=
  match xs with
  | [] => Ok s
  | x :: xs' => s' <- body s x ;; for_each body xs' s'
  end.

(* ----------------------------------------------------------------- *)
(** *** The range of [INTEGER] *)

Definition in_int4 (z : Z) : bool :=
  (-2147483648 <=? z) && (z <=? 2147483647).

Definition string_of_Z (z : Z) : string :=
  NilZero.string_of_int (Z.to_int z).

Definition double_quote : string := String (ascii_of_nat 34) "".

(** The message for a parameter that does not fit its [INTEGER] column. *)
Definition out_of_range_message (z : Z) : string :=
  "value " ++ double_quote ++ string_of_Z z ++ double_quote
  ++ " is out of range for type integer".

(** Binding [z] to a parameter of type [INTEGER]. *)
Definition int4 (z : Z) : result Z :=
  if in_int4 z then Ok z
  else Err (NumericValueOutOfRange (out_of_range_message z)).

(** The error is one of range, not of a key. *)
Definition range_error (e : DbError) : Prop :=
  match e with
  | NumericValueOutOfRange _ => True
  | UniqueViolation _ => False
  end.

(* ----------------------------------------------------------------- *)
(** *** Row predicates of the [WHERE] clauses *)

Definition output_at (txId : string) (index : Z) (r : OutputRow) : bool :=
  String.eqb (otr_transaction_id r) txId && Z.eqb (otr_output_index r) index.

Definition output_of (txId : string) (r : OutputRow) : bool :=
  String.eqb (otr_transaction_id r) txId.

Definition input_of (txId : string) (r : InputRow) : bool :=
  String.eqb (inr_transaction_id r) txId.

Definition balance_of (address : string) (r : BalanceRow) : bool :=
  String.eqb (bal_address r) address.

(** [SELECT ... FROM transaction_outputs
     WHERE transaction_id = $1 AND output_index = $2] *)
Definition select_output (db : Db) (txId : string) (index : Z)
  : list OutputRow :=
  filter (output_at txId index) (transaction_outputs db).

(* ----------------------------------------------------------------- *)
(** *** Statements of the apply path *)

(** [INSERT INTO blocks (id, height) VALUES ($1, $2)]:
    [id] is the primary key and [height] is [UNIQUE]. *)
Definition insert_block (db : Db) (id : string) (height : Z) : result Db :=
  if existsb (fun r => String.eqb (blk_id r) id) (blocks db)
  then Err (UniqueViolation "blocks_pkey")
  else if existsb (fun r => Z.eqb (blk_height r) height) (blocks db)
  then Err (UniqueViolation "blocks_height_key")
  else Ok (mkDb (blocks db ++ [mkBlockRow id height])
                (transactions db) (transaction_inputs db)
                (transaction_outputs db) (address_balances db)).

(** [INSERT INTO transactions (id, block_id) VALUES ($1, $2)] *)
Definition insert_transaction (db : Db) (id blockId : string) : result Db :=
  if existsb (fun r => String.eqb (txr_id r) id) (transactions db)
  then Err (UniqueViolation "transactions_pkey")
  else Ok (mkDb (blocks db)
                (transactions db ++ [mkTransactionRow id blockId])
                (transaction_inputs db)
                (transaction_outputs db) (address_balances db)).

(** [INSERT INTO transaction_inputs (transaction_id, input_tx_id, input_index)] *)
Definition insert_input (db : Db) (txId inputTxId : string) (index : Z) : Db :=
  mkDb (blocks db) (transactions db)
       (transaction_inputs db ++ [mkInputRow txId inputTxId index])
       (transaction_outputs db) (address_balances db).

(** [INSERT INTO transaction_outputs (transaction_id, address, value,
     output_index)]; [is_spent] takes its default, [FALSE]. *)
Definition insert_output (db : Db) (txId address : string) (value index : Z)
  : Db :=
  mkDb (blocks db) (transactions db) (transaction_inputs db)
       (transaction_outputs db ++ [mkOutputRow txId address value index false])
       (address_balances db).

(** [UPDATE transaction_outputs SET is_spent = $3
     WHERE transaction_id = $1 AND output_index = $2] *)
Definition set_spent (flag : bool) (txId : string) (index : Z) (r : OutputRow)
  : OutputRow :=
  if output_at txId index r
  then mkOutputRow (otr_transaction_id r) (otr_address r) (otr_value r)
                   (otr_output_index r) flag
  else r.

Definition update_is_spent (db : Db) (txId : string) (index : Z) (flag : bool)
  : Db :=
  mkDb (blocks db) (transactions db) (transaction_inputs db)
       (map (set_spent flag txId index) (transaction_outputs db))
       (address_balances db).

(** [UPDATE address_balances SET balance = balance + delta WHERE address = $1] *)
Definition add_balance (address : string) (delta : Z) (r : BalanceRow)
  : BalanceRow :=
  if balance_of address r
  then mkBalanceRow (bal_address r) (bal_balance r + delta)
  else r.

Definition update_balance (db : Db) (address : string) (delta : Z) : Db :=
  mkDb (blocks db) (transactions db) (transaction_inputs db)
       (transaction_outputs db)
       (map (add_balance address delta) (address_balances db)).

Definition insert_balance (db : Db) (address : string) (balance : Z) : Db :=
  mkDb (blocks db) (transactions db) (transaction_inputs db)
       (transaction_outputs db)
       (address_balances db ++ [mkBalanceRow address balance]).

(** [INSERT INTO address_balances (address, balance) VALUES ($1, $2)
     ON CONFLICT (address) DO UPDATE
     SET balance = address_balances.balance - $2]
    with the bound parameters [$1 = address], [$2 = p2]. *)
Definition upsert_balance_minus (db : Db) (address : string) (p2 : Z) : Db :=
  if existsb (balance_of address) (address_balances db)
  then update_balance db address (- p2)
  else insert_balance db address p2.

(** The same statement with [SET balance = address_balances.balance + $2]. *)
Definition upsert_balance_plus (db : Db) (address : string) (p2 : Z) : Db :=
  if existsb (balance_of address) (address_balances db)
  then update_balance db address p2
  else insert_balance db address p2.

(** The functions above give the rows a statement on [address_balances]
    leaves when the store accepts it.  The store refuses it, with
    [integer out of range], when the new balance of a row it touches is not
    an [INTEGER]. *)
Definition update_balance_checked (db : Db) (address : string) (delta : Z)
  : result Db :=
  if forallb (fun r => negb (balance_of address r)
                       || in_int4 (bal_balance r + delta))
             (address_balances db)
  then Ok (update_balance db address delta)
  else Err (NumericValueOutOfRange "integer out of range").

(** The two upserts as the store runs them: [$2] is bound to the [INTEGER]
    column [balance]. *)
Definition upsert_balance_minus_checked (db : Db) (address : string) (p2 : Z)
  : result Db :=
  _ <- int4 p2 ;;
  if existsb (balance_of address) (address_balances db)
  then update_balance_checked db address (- p2)
  else Ok (insert_balance db address p2).

Definition upsert_balance_plus_checked (db : Db) (address : string) (p2 : Z)
  : result Db :=
  _ <- int4 p2 ;;
  if existsb (balance_of address) (address_balances db)
  then update_balance_checked db address p2
  else Ok (insert_balance db address p2).

(* ================================================================= *)
(** ** DatabaseManager: reads *)

(** [getInputValue]: the value of the first matching output row, or the
    message of the error thrown: that of the store when [index] does not fit
    the [INTEGER] parameter of the query, [Input not found: txId:index] when
    no row matches. *)
Definition getInputValue (db : Db) (txId : string) (index : Z)
  : string + Z :=
  if in_int4 index then
    match select_output db txId index with
    | [] => inl ("Input not found: " ++ txId ++ ":" ++ string_of_Z index)%string
    | r :: _ => inr (otr_value r)
    end
  else inl (out_of_range_message index).

(** [getAddressBalance]: the stored balance, or 0 when there is no row. *)
Definition getAddressBalance (db : Db) (address : string) : Z :=
  match filter (balance_of address) (address_balances db) with
  | [] => 0
  | r :: _ => bal_balance r
  end.

(** [loadCurrentHeight]: [SELECT COALESCE(MAX(height), 0) FROM blocks]. *)
Definition max_height (db : Db) : Z :=
  match blocks db with
  | [] => 0
  | r :: rs => fold_left Z.max (map blk_height rs) (blk_height r)
  end.

(* ================================================================= *)
(** ** DatabaseManager: applying a block *)

(** One iteration of the input loop of [processTransaction]: the rows it
    leaves when the store accepts its statements ([inputStep] below adds
    the refusals). *)
Definition processInput (txId : string) (db : Db) (input : Input) : Db :=
  let db1 := insert_input db txId (in_txId input) (in_index input) in
  let db2 := update_is_spent db1 (in_txId input) (in_index input) true in
  match select_output db2 (in_txId input) (in_index input) with
  | [] => db2
  | r :: _ => upsert_balance_minus db2 (otr_address r) (- otr_value r)
  end.

(** The output loop of [processTransaction], [i] counting from its argument:
    the rows it leaves when the store accepts its statements ([outputSteps]
    below adds the refusals). *)
Fixpoint processOutputs (txId : string) (db : Db) (i : Z) (outs : list Output)
  : Db :=
  match outs with
  | [] => db
  | output :: rest =>
      let db1 := insert_output db txId (out_address output)
                               (out_value output) i in
      let db2 := upsert_balance_plus db1 (out_address output)
                                     (out_value output) in
      processOutputs txId db2 (i + 1) rest
  end.

(** The iteration as the store runs it.  The index is bound to the column
    [input_index] by the [INSERT]; the upsert binds [-value] and subtracts
    it from the balance. *)
Definition inputStep (txId : string) (db : Db) (input : Input) : result Db :=
  _ <- int4 (in_index input) ;;
  let db1 := insert_input db txId (in_txId input) (in_index input) in
  let db2 := update_is_spent db1 (in_txId input) (in_index input) true in
  match select_output db2 (in_txId input) (in_index input) with
  | [] => Ok db2
  | r :: _ => upsert_balance_minus_checked db2 (otr_address r) (- otr_value r)
  end.

(** The output loop as the store runs it: the [INSERT] binds the value and
    the loop counter to [INTEGER] columns, the upsert adds the value to the
    balance. *)
Fixpoint outputSteps (txId : string) (db : Db) (i : Z) (outs : list Output)
  : result Db :=
  match outs with
  | [] => Ok db
  | output :: rest =>
      _ <- int4 (out_value output) ;;
      _ <- int4 i ;;
      let db1 := insert_output db txId (out_address output)
                               (out_value output) i in
      db2 <- upsert_balance_plus_checked db1 (out_address output)
                                         (out_value output) ;;
      outputSteps txId db2 (i + 1) rest
  end.

Definition processTransaction (blockId : string) (db : Db) (tx : Transaction)
  : result Db :=
  db1 <- insert_transaction db (tx_id tx) blockId ;;
  db2 <- for_each (inputStep (tx_id tx)) (tx_inputs tx) db1 ;;
  outputSteps (tx_id tx) db2 0 (tx_outputs tx).

(** What [processTransaction] does when no value leaves the range of
    [INTEGER]: only the primary key can fail. *)
Definition processTransaction_unbounded (blockId : string) (db : Db)
  (tx : Transaction) : result Db :=
  db1 <- insert_transaction db (tx_id tx) blockId ;;
  let db2 := fold_left (processInput (tx_id tx)) (tx_inputs tx) db1 in
  Ok (processOutputs (tx_id tx) db2 0 (tx_outputs tx)).

(** The statements between [BEGIN] and [COMMIT]; the height is bound to the
    [INTEGER] column [height]. *)
Definition processBlock_unit (db : Db) (block : Block) : result Db :=
  _ <- int4 (block_height block) ;;
  db1 <- insert_block db (block_id block) (block_height block) ;;
  for_each (processTransaction (block_id block)) (block_transactions block) db1.

(** [processBlock]: the store after the call, and the error it throws, if
    any.  On an error the unit is rolled back to the store at [BEGIN]. *)
Definition processBlock (db : Db) (block : Block) : Db * option DbError :=
  match processBlock_unit db block with
  | Ok db' => (db', None)
  | Err e => (db, Some e)
  end.

(* ================================================================= *)
(** ** DatabaseManager: rolling back *)

(** The write statements issued by the rollback path. *)
Inductive Stmt :=
| DebitBalance (address : string) (value : Z)
    (* UPDATE address_balances SET balance = balance - $2 WHERE address = $1 *)
| MarkUnspent (txId : string) (index : Z)
    (* UPDATE transaction_outputs SET is_spent = FALSE WHERE ... *)
| CreditBalance (address : string) (value : Z)
    (* UPDATE address_balances SET balance = balance + $2 WHERE address = $1 *)
| DeleteInputs (txId : string)
    (* DELETE FROM transaction_inputs WHERE transaction_id = $1 *)
| DeleteOutputs (txId : string)
    (* DELETE FROM transaction_outputs WHERE transaction_id = $1 *)
| DeleteTransaction (txId : string)
    (* DELETE FROM transactions WHERE id = $1 *)
| DeleteBlock (id : string).
    (* DELETE FROM blocks WHERE id = $1 *)

Definition exec (s : Stmt) (db : Db) : Db :=
  match s with
  | DebitBalance address value => update_balance db address (- value)
  | MarkUnspent txId index => update_is_spent db txId index false
  | CreditBalance address value => update_balance db address value
  | DeleteInputs txId =>
      mkDb (blocks db) (transactions db)
           (filter (fun r => negb (input_of txId r)) (transaction_inputs db))
           (transaction_outputs db) (address_balances db)
  | DeleteOutputs txId =>
      mkDb (blocks db) (transactions db) (transaction_inputs db)
           (filter (fun r => negb (output_of txId r)) (transaction_outputs db))
           (address_balances db)
  | DeleteTransaction txId =>
      mkDb (blocks db)
           (filter (fun r => negb (String.eqb (txr_id r) txId))
                   (transactions db))
           (transaction_inputs db) (transaction_outputs db)
           (address_balances db)
  | DeleteBlock id =>
      mkDb (filter (fun r => negb (String.eqb (blk_id r) id)) (blocks db))
           (transactions db) (transaction_inputs db) (transaction_outputs db)
           (address_balances db)
  end.

(** A statement as the store runs it.  The parameters of the rollback path
    are read from [INTEGER] columns; the two balance updates are refused
    when the new balance is not an [INTEGER]. *)
Definition exec_checked (s : Stmt) (db : Db) : result Db :=
  match s with
  | DebitBalance address value => update_balance_checked db address (- value)
  | CreditBalance address value => update_balance_checked db address value
  | _ => Ok (exec s db)
  end.

(** The client session of a rollback: the store as the session sees it and
    the statements issued so far, oldest first. *)
Definition Session : Type := Db * list Stmt.

Definition issue (s : Stmt) (c : Session) : result Session :=
  db' <- exec_checked s (fst c) ;;
  Ok (db', snd c ++ [s]).

(** First loop of [rollbackTransaction]: one debit per output row. *)
Definition undoOutput (c : Session) (output : OutputRow) : result Session :=
  issue (DebitBalance (otr_address output) (otr_value output)) c.

(** Second loop: re-locate the spent output; when it is there, clear its
    flag and credit its value. *)
Definition undoInput (c : Session) (input : InputRow) : result Session :=
  match select_output (fst c) (inr_input_tx_id input) (inr_input_index input)
  with
  | [] => Ok c
  | r :: _ =>
      c1 <- issue (MarkUnspent (inr_input_tx_id input) (inr_input_index input))
                  c ;;
      issue (CreditBalance (otr_address r) (otr_value r)) c1
  end.

Definition rollbackTransaction (c : Session) (txId : string) : result Session :=
  let outputsResult := filter (output_of txId) (transaction_outputs (fst c)) in
  c1 <- for_each undoOutput outputsResult c ;;
  let inputsResult := filter (input_of txId) (transaction_inputs (fst c1)) in
  c2 <- for_each undoInput inputsResult c1 ;;
  c3 <- issue (DeleteInputs txId) c2 ;;
  c4 <- issue (DeleteOutputs txId) c3 ;;
  issue (DeleteTransaction txId) c4.

(** [SELECT id FROM transactions WHERE block_id = $1] *)
Definition select_transaction_ids (db : Db) (blockId : string) : list string :=
  map txr_id
      (filter (fun r => String.eqb (txr_block_id r) blockId) (transactions db)).

Definition rollbackBlock (c : Session) (block : BlockRow) : result Session :=
  let transactionsResult := select_transaction_ids (fst c) (blk_id block) in
  c1 <- for_each rollbackTransaction transactionsResult c ;;
  issue (DeleteBlock (blk_id block)) c1.

(** [ORDER BY height DESC], as a stable insertion sort. *)
Fixpoint insert_desc (b : BlockRow) (l : list BlockRow) : list BlockRow :=
  match l with
  | [] => [b]
  | x :: l' =>
      if blk_height x <? blk_height b then b :: l
      else x :: insert_desc b l'
  end.

Definition order_by_height_desc (l : list BlockRow) : list BlockRow :=
  fold_right insert_desc [] l.

(** [SELECT id, height FROM blocks WHERE height > $1 ORDER BY height DESC] *)
Definition select_blocks_above (db : Db) (targetHeight : Z) : list BlockRow :=
  order_by_height_desc
    (filter (fun r => targetHeight <? blk_height r) (blocks db)).

(** The statements between [BEGIN] and [COMMIT], with the statements the
    session issued; the target is bound to the [INTEGER] parameter of the
    [SELECT]. *)
Definition rollbackToHeight_unit (db : Db) (targetHeight : Z)
  : result Session :=
  _ <- int4 targetHeight ;;
  for_each rollbackBlock (select_blocks_above db targetHeight) (db, []).

(** [rollbackToHeight]: the store after the call, and the error it throws,
    if any.  On an error the unit is rolled back to the store at [BEGIN]. *)
Definition rollbackToHeight (db : Db) (targetHeight : Z) : Db * option DbError :=
  match rollbackToHeight_unit db targetHeight with
  | Ok c => (fst c, None)
  | Err e => (db, Some e)
  end.

(* ----------------------------------------------------------------- *)
(** *** The session when the store accepts every statement *)

Definition issue_session (s : Stmt) (c : Session) : Session :=
  (exec s (fst c), snd c ++ [s]).

Definition undoOutput_session (c : Session) (output : OutputRow) : Session :=
  issue_session (DebitBalance (otr_address output) (otr_value output)) c.

Definition undoInput_session (c : Session) (input : InputRow) : Session :=
  match select_output (fst c) (inr_input_tx_id input) (inr_input_index input)
  with
  | [] => c
  | r :: _ =>
      issue_session (CreditBalance (otr_address r) (otr_value r))
        (issue_session
           (MarkUnspent (inr_input_tx_id input) (inr_input_index input)) c)
  end.

Definition rollbackTransaction_session (c : Session) (txId : string)
  : Session :=
  let outputsResult := filter (output_of txId) (transaction_outputs (fst c)) in
  let c1 := fold_left undoOutput_session outputsResult c in
  let inputsResult := filter (input_of txId) (transaction_inputs (fst c1)) in
  let c2 := fold_left undoInput_session inputsResult c1 in
  issue_session (DeleteTransaction txId)
    (issue_session (DeleteOutputs txId)
      (issue_session (DeleteInputs txId) c2)).

Definition rollbackBlock_session (c : Session) (block : BlockRow) : Session :=
  let transactionsResult := select_transaction_ids (fst c) (blk_id block) in
  let c1 := fold_left rollbackTransaction_session transactionsResult c in
  issue_session (DeleteBlock (blk_id block)) c1.

(** The session of [rollbackToHeight], with the statements it issued. *)
Definition rollbackToHeight_session (db : Db) (targetHeight : Z) : Session :=
  fold_left rollbackBlock_session (select_blocks_above db targetHeight) (db, []).

(** A list of statements run one after the other, up to the first one the
    store refuses: on a store, and in a session. *)
Definition execute (stmts : list Stmt) (db : Db) : result Db :=
  for_each (fun db s => exec_checked s db) stmts db.

Definition run (stmts : list Stmt) (c : Session) : result Session :=
  for_each (fun c s => issue s c) stmts c.

(* ================================================================= *)
(** ** ValidationService and the routes *)

(** The process state: the store, and the in-memory height of
    [DatabaseManager]. *)
Record Service := mkService {
  svc_db : Db;
  currentHeight : Z
}.

Definition getCurrentHeight (svc : Service) : Z := currentHeight svc.

Definition setCurrentHeight (svc : Service) (height : Z) : Service :=
  mkService (svc_db svc) height.

(** [initialize], on the tables that exist already. *)
Definition initialize (db : Db) : Service := mkService db (max_height db).

Definition valid : BlockValidationResult := mkResult true None None.

Definition invalid (err msg : string) : BlockValidationResult :=
  mkResult false (Some err) (Some msg).

Definition validateHeight (blockHeight currentHeight : Z)
  : BlockValidationResult :=
  if negb (blockHeight =? currentHeight + 1)
  then invalid "Invalid height"
         ("Expected height " ++ string_of_Z (currentHeight + 1)
          ++ ", got " ++ string_of_Z blockHeight)%string
  else valid.

(** The inner loop of [validateInputOutputBalance]: the running [inputSum],
    or the message of the error thrown by [getInputValue]. *)
Fixpoint sumInputs (db : Db) (inputs : list Input) (inputSum : Z)
  : string + Z :=
  match inputs with
  | [] => inr inputSum
  | input :: rest =>
      match getInputValue db (in_txId input) (in_index input) with
      | inr value => sumInputs db rest (inputSum + value)
      | inl msg => inl msg
      end
  end.

Definition outputSum (tx : Transaction) : Z :=
  fold_left (fun sum output => sum + out_value output) (tx_outputs tx) 0.

Fixpoint validateInputOutputBalance (db : Db) (txs : list Transaction)
  : BlockValidationResult :=
  match txs with
  | [] => valid
  | tx :: rest =>
      match tx_inputs tx with
      | [] => validateInputOutputBalance db rest
      | _ :: _ =>
          match sumInputs db (tx_inputs tx) 0 with
          | inl msg => invalid "Invalid input reference" msg
          | inr inputSum =>
              if negb (inputSum =? outputSum tx)
              then invalid "Invalid transaction balance"
                           "Sum of inputs does not equal sum of outputs"
              else validateInputOutputBalance db rest
          end
      end
  end.

(** [parseInt] gives an integer or [NaN] ([None]). *)
Definition validateRollbackHeight (targetHeight : option Z) (currentHeight : Z)
  : BlockValidationResult :=
  match targetHeight with
  | None => invalid "Invalid height" "Height must be a positive integer"
  | Some target =>
      if target <? 1
      then invalid "Invalid height" "Height must be a positive integer"
      else if currentHeight <? target
      then invalid "Invalid rollback height"
             "Cannot rollback to a height greater than current height"
      else if 2000 <? currentHeight - target
      then invalid "Rollback too far" "Cannot rollback more than 2000 blocks"
      else valid
  end.

Record Reply := mkReply {
  status : Z;
  reply_error : option string;
  reply_message : option string
}.

Section Digest.

(** [createHash('sha256').update(s).digest('hex')] *)
Variable sha256hex : string -> string.

Definition calculateBlockId (height : Z) (transactionIds : list string)
  : string :=
  let combined := (string_of_Z height ++ String.concat "" transactionIds)%string in
  sha256hex combined.

Definition validateBlockId (block : Block) : bool :=
  let transactionIds := map tx_id (block_transactions block) in
  let expectedId := calculateBlockId (block_height block) transactionIds in
  String.eqb (block_id block) expectedId.

Definition validateBlockIdFormat (block : Block) : BlockValidationResult :=
  if negb (validateBlockId block)
  then invalid "Invalid block ID" "Block ID does not match the expected hash"
  else valid.

Definition validateBlock (svc : Service) (block : Block)
  : BlockValidationResult :=
  let currentHeight := getCurrentHeight svc in
  let heightValidation := validateHeight (block_height block) currentHeight in
  if negb (isValid heightValidation) then heightValidation else
  let blockIdValidation := validateBlockIdFormat block in
  if negb (isValid blockIdValidation) then blockIdValidation else
  let balanceValidation :=
    validateInputOutputBalance (svc_db svc) (block_transactions block) in
  if negb (isValid balanceValidation) then balanceValidation else
  valid.

(** [POST /blocks] *)
Definition post_blocks (svc : Service) (block : Block) : Service * Reply :=
  let validationResult := validateBlock svc block in
  if negb (isValid validationResult)
  then (svc, mkReply 400 (error validationResult) (message validationResult))
  else
    match processBlock (svc_db svc) block with
    | (db', None) =>
        (setCurrentHeight (mkService db' (currentHeight svc))
                          (block_height block),
         mkReply 200 None (Some "Block processed successfully"))
    | (db', Some _) =>
        (mkService db' (currentHeight svc),
         mkReply 500 (Some "Internal server error") None)
    end.

End Digest.

(** [GET /balance/:address] *)
Definition get_balance (svc : Service) (address : string) : string * Z :=
  (address, getAddressBalance (svc_db svc) address).

(** [POST /rollback?height=...], on the result of [parseInt(height)]. *)
Definition post_rollback (svc : Service) (targetHeight : option Z)
  : Service * Reply :=
  let currentHeight := getCurrentHeight svc in
  let validationResult := validateRollbackHeight targetHeight currentHeight in
  if negb (isValid validationResult)
  then (svc, mkReply 400 (error validationResult) (message validationResult))
  else
    match targetHeight with
    | None =>
        (* not reached: [NaN] fails the validation above; the store would
           refuse it as the integer parameter of the query *)
        (svc, mkReply 500 (Some "Internal server error") None)
    | Some target =>
        match rollbackToHeight (svc_db svc) target with
        | (db', None) =>
            (setCurrentHeight (mkService db' (getCurrentHeight svc)) target,
             mkReply 200 None
               (Some ("Successfully rolled back to height "
                      ++ string_of_Z target)%string))
        | (db', Some _) =>
            (mkService db' (getCurrentHeight svc),
             mkReply 500 (Some "Internal server error") None)
        end
    end.

(* ================================================================= *)
(** ** Notions used to state the properties *)

Definition sumZ (l : list Z) : Z := fold_right Z.add 0 l.

(** An input resolves to [v] when its index is an [INTEGER], the store has
    an output row at its (txId, index) and [v] is the value of the first
    such row. *)
Definition resolves (db : Db) (input : Input) (v : Z) : Prop :=
  in_int4 (in_index input) = true /\
  exists r rest,
    select_output db (in_txId input) (in_index input) = r :: rest /\
    otr_value r = v.

(** The balance equation of one transaction. *)
Definition balanced (db : Db) (tx : Transaction) : Prop :=
  tx_inputs tx = [] \/
  exists vs, Forall2 (resolves db) (tx_inputs tx) vs /\
             sumZ vs = sumZ (map out_value (tx_outputs tx)).

(** The right-hand side of the balance invariant: the sum of the values of
    the unspent outputs addressed to [address]. *)
Definition unspent_sum (db : Db) (address : string) : Z :=
  sumZ (map otr_value
         (filter (fun r => String.eqb (otr_address r) address
                           && negb (otr_is_spent r))
                 (transaction_outputs db))).

(** The store with every spent flag recomputed by [f]. *)
Definition with_spent_flags (f : OutputRow -> bool) (db : Db) : Db :=
  mkDb (blocks db) (transactions db) (transaction_inputs db)
       (map (fun r => mkOutputRow (otr_transaction_id r) (otr_address r)
                                  (otr_value r) (otr_output_index r) (f r))
            (transaction_outputs db))
       (address_balances db).

(** An output row without its spent flag. *)
Definition forget_spent (r : OutputRow) : string * string * Z * Z :=
  (otr_transaction_id r, otr_address r, otr_value r, otr_output_index r).

(** The primary keys of [blocks] and of [transactions]. *)
Definition keys_unique (db : Db) : Prop :=
  NoDup (map blk_id (blocks db)) /\ NoDup (map txr_id (transactions db)).

(** The two tables whose keys decide whether a storage unit fails. *)
Definition same_keys (db1 db2 : Db) : Prop :=
  blocks db1 = blocks db2 /\ transactions db1 = transactions db2.

(** Two stores that agree on everything the apply path reads: the blocks,
    the transactions, the balances, and the output rows as far as [Ro]
    relates them.  The table of inputs is not compared. *)
Definition agree (Ro : list OutputRow -> list OutputRow -> Prop)
  (db1 db2 : Db) : Prop :=
  blocks db1 = blocks db2 /\
  transactions db1 = transactions db2 /\
  Ro (transaction_outputs db1) (transaction_outputs db2) /\
  address_balances db1 = address_balances db2.

(** What [agree] asks of [Ro]: related rows are equal up to their spent
    flags, and the two statements of the apply path on
    [transaction_outputs] keep them related. *)
Definition kept_by_apply (Ro : list OutputRow -> list OutputRow -> Prop)
  : Prop :=
  (forall l1 l2, Ro l1 l2 -> map forget_spent l1 = map forget_spent l2) /\
  (forall flag t i l1 l2,
     Ro l1 l2 ->
     Ro (map (set_spent flag t i) l1) (map (set_spent flag t i) l2)) /\
  (forall l1 l2 r, Ro l1 l2 -> Ro (l1 ++ [r]) (l2 ++ [r])).

(** Output rows that differ in their spent flags only. *)
Definition flags_apart (l1 l2 : list OutputRow) : Prop :=
  map forget_spent l1 = map forget_spent l2.

(** Two runs of a storage unit that fail with the same error, or succeed
    with stores related by [R]. *)
Definition alike (R : Db -> Db -> Prop) (r1 r2 : result Db) : Prop :=
  match r1, r2 with
  | Ok a, Ok b => R a b
  | Err e1, Err e2 => e1 = e2
  | _, _ => False
  end.

(** Membership of a string in a list, as the store decides it. *)
Definition mem (x : string) (l : list string) : bool :=
  existsb (String.eqb x) l.

(** The input rows the input loop inserts for a transaction. *)
Definition input_rows (tx : Transaction) : list InputRow :=
  map (fun input => mkInputRow (tx_id tx) (in_txId input) (in_index input))
      (tx_inputs tx).

(** A transaction without one of its inputs, and a block with one of its
    transactions replaced. *)
Definition without_input (tx : Transaction) (ins1 ins2 : list Input)
  : Transaction :=
  mkTransaction (tx_id tx) (ins1 ++ ins2) (tx_outputs tx).

Definition with_transactions (block : Block) (txs : list Transaction)
  : Block :=
  mkBlock (block_id block) (block_height block) txs.

(** Descending height: [a] may stand before [b]. *)
Definition height_ge (a b : BlockRow) : Prop := blk_height b <= blk_height a.

(* ----------------------------------------------------------------- *)
(** *** The statements of a rollback, read off the store *)

(** The row deletions that end the undoing of a transaction and of a block:
    their order in the log is the order in which transactions and blocks are
    undone. *)
Definition is_deletion (s : Stmt) : bool :=
  match s with
  | DeleteTransaction _ | DeleteBlock _ => true
  | _ => false
  end.

Definition deletions (log : list Stmt) : list Stmt := filter is_deletion log.

(** The statements that touch only balances and spent flags. *)
Definition balance_or_flag (s : Stmt) : Prop :=
  match s with
  | DebitBalance _ _ | CreditBalance _ _ | MarkUnspent _ _ => True
  | _ => False
  end.

(** What undoing one input amounts to, read off the store [db]. *)
Definition input_undo (db : Db) (input : InputRow) : list Stmt :=
  match select_output db (inr_input_tx_id input) (inr_input_index input) with
  | [] => []
  | r :: _ =>
      [MarkUnspent (inr_input_tx_id input) (inr_input_index input);
       CreditBalance (otr_address r) (otr_value r)]
  end.

(** What undoing one transaction amounts to, read off the store [db] in
    which the undoing starts: the debits of its outputs, then per input the
    flag reset and the credit, then the three deletions. *)
Definition transaction_undo (db : Db) (txId : string) : list Stmt :=
  map (fun o => DebitBalance (otr_address o) (otr_value o))
      (filter (output_of txId) (transaction_outputs db))
  ++ flat_map (input_undo db) (filter (input_of txId) (transaction_inputs db))
  ++ [DeleteInputs txId; DeleteOutputs txId; DeleteTransaction txId].

(** The same, read off the store [db] at [BEGIN], when the transactions
    [gone] have been undone since: an input finds its output only among the
    rows that are still stored. *)
Definition input_undo_after (gone : list string) (db : Db) (input : InputRow)
  : list Stmt :=
  match filter (fun r => negb (mem (otr_transaction_id r) gone))
               (select_output db (inr_input_tx_id input)
                              (inr_input_index input)) with
  | [] => []
  | r :: _ =>
      [MarkUnspent (inr_input_tx_id input) (inr_input_index input);
       CreditBalance (otr_address r) (otr_value r)]
  end.

Definition transaction_undo_after (gone : list string) (db : Db)
  (txId : string) : list Stmt :=
  map (fun o => DebitBalance (otr_address o) (otr_value o))
      (filter (output_of txId) (transaction_outputs db))
  ++ flat_map (input_undo_after gone db)
              (filter (input_of txId) (transaction_inputs db))
  ++ [DeleteInputs txId; DeleteOutputs txId; DeleteTransaction txId].

(** The transactions [ids], one after the other. *)
Fixpoint transactions_undo (db : Db) (gone ids : list string) : list Stmt :=
  match ids with
  | [] => []
  | txId :: rest =>
      transaction_undo_after gone db txId
      ++ transactions_undo db (gone ++ [txId]) rest
  end.

(** The blocks [bs], one after the other: the transactions of the block in
    the order of the [transactions] table, then the block row. *)
Fixpoint blocks_undo (db : Db) (gone : list string) (bs : list BlockRow)
  : list Stmt :=
  match bs with
  | [] => []
  | b :: rest =>
      let ids := select_transaction_ids db (blk_id b) in
      transactions_undo db gone ids
      ++ DeleteBlock (blk_id b) :: blocks_undo db (gone ++ ids) rest
  end.

(** The store [cur] holds the transactions of [db], with their input and
    output rows, except those of the transactions [gone]; spent flags may
    differ. *)
Definition left_after (db : Db) (gone : list string) (cur : Db) : Prop :=
  transactions cur
  = filter (fun r => negb (mem (txr_id r) gone)) (transactions db) /\
  transaction_inputs cur
  = filter (fun r => negb (mem (inr_transaction_id r) gone))
           (transaction_inputs db) /\
  map forget_spent (transaction_outputs cur)
  = map forget_spent
        (filter (fun r => negb (mem (otr_transaction_id r) gone))
                (transaction_outputs db)).

(** The transactions of a block in table order, then the block. *)
Definition block_undo_order (db : Db) (block : BlockRow) : list Stmt :=
  map DeleteTransaction (select_transaction_ids db (blk_id block))
  ++ [DeleteBlock (blk_id block)].

(** Follows the specification's words: the transactions of a block in the
    reverse of the order in which [processBlock] applied them, then the
    block. *)
Definition reverse_of_apply_order (block : Block) : list Stmt :=
  map DeleteTransaction (rev (map tx_id (block_transactions block)))
  ++ [DeleteBlock (block_id block)].

(** The store of a session is the result of its statements. *)
Definition replays (db0 : Db) (c : Session) : Prop :=
  fst c = fold_left (fun db s => exec s db) (snd c) db0.

(* ================================================================= *)
(** ** Concrete blocks and stores *)

(** A stand-in digest to run the validation service on concrete blocks;
    the statements proved for every digest are instantiated with it. *)
Definition plain_digest (s : string) : string := s.

(** The example of the specification: block 1 creates 100 for "A"; block 2
    spends that output into 60 for "B" and 40 for "C".  Block 3 spends the
    same output of block 1 once more, into 100 for "D". *)
Definition block_one : Block :=
  mkBlock "b1" 1 [mkTransaction "t1" [] [mkOutput "A" 100]].

Definition block_two : Block :=
  mkBlock "b2" 2
    [mkTransaction "t2" [mkInput "t1" 0] [mkOutput "B" 60; mkOutput "C" 40]].

Definition block_three : Block :=
  mkBlock "b3" 3 [mkTransaction "t3" [mkInput "t1" 0] [mkOutput "D" 100]].

Definition store_one : Db := fst (processBlock empty_db block_one).
Definition store_two : Db := fst (processBlock store_one block_two).
Definition store_three : Db := fst (processBlock store_two block_three).

(** A block whose only input references an output that does not exist. *)
Definition block_dangling : Block :=
  mkBlock "bd" 1 [mkTransaction "td" [mkInput "nope" 0] [mkOutput "A" 7]].

(** A block, with the id [plain_digest] gives it, whose second transaction
    repeats the id of the first: its storage unit fails on the primary key
    of [transactions] after the block row and the first transaction have
    been written. *)
Definition block_duplicate : Block :=
  mkBlock "1tt" 1 [mkTransaction "t" [] [mkOutput "A" 1];
                   mkTransaction "t" [] [mkOutput "A" 2]].

(** A block with two transactions. *)
Definition block_pair : Block :=
  mkBlock "bp" 1 [mkTransaction "p1" [] [mkOutput "A" 100];
                  mkTransaction "p2" [] [mkOutput "B" 5]].

Definition store_pair : Db := fst (processBlock empty_db block_pair).

(** The store in which [processBlock] has committed [block_dangling]: it
    holds an input row that references no output. *)
Definition store_dangling : Db := fst (processBlock empty_db block_dangling).

(** Two served ledgers with large values; the ids are those [plain_digest]
    gives.  In the first, block 2 spends 1500000000 of "A": the statement of
    the input loop would raise the balance of "A" to 3000000000.  In the
    second, block 2 spends 1000000000 of "A" and is committed with the
    balance of "A" at 2000000000; undoing it would credit "A" once more. *)
Definition block_g1 : Block :=
  mkBlock "1g1" 1 [mkTransaction "g1" [] [mkOutput "A" 1500000000]].

Definition block_g2 : Block :=
  mkBlock "2g2" 2
    [mkTransaction "g2" [mkInput "g1" 0] [mkOutput "B" 1500000000]].

Definition block_h1 : Block :=
  mkBlock "1h1" 1 [mkTransaction "h1" [] [mkOutput "A" 1000000000]].

Definition block_h2 : Block :=
  mkBlock "2h2" 2
    [mkTransaction "h2" [mkInput "h1" 0] [mkOutput "B" 1000000000]].

Definition service_g1 : Service :=
  fst (post_blocks plain_digest (initialize empty_db) block_g1).

Definition service_h2 : Service :=
  fst (post_blocks plain_digest
         (fst (post_blocks plain_digest (initialize empty_db) block_h1))
         block_h2).

(* ================================================================= *)
(** ** The server loop and the integrity of the store *)

(** The requests the three routes answer. *)
Inductive Request :=
| PostBlocks (block : Block)
| GetBalance (address : string)
| PostRollback (targetHeight : option Z).

Section Server.

Variable sha256hex : string -> string.

(** One request, handled to its end before the next one starts. *)
Definition handle (svc : Service) (req : Request) : Service :=
  match req with
  | PostBlocks block => fst (post_blocks sha256hex svc block)
  | GetBalance _ => svc
  | PostRollback targetHeight => fst (post_rollback svc targetHeight)
  end.

(** [bootstrap] on an empty database, then the requests in turn. *)
Definition serve (reqs : list Request) : Service :=
  fold_left handle reqs (initialize empty_db).

End Server.

(** The [REFERENCES] constraints of [createTables]: a transaction row names
    a stored block, an input row and an output row name a stored
    transaction. *)
Definition references_hold (db : Db) : Prop :=
  (forall r, In r (transactions db) ->
             In (txr_block_id r) (map blk_id (blocks db))) /\
  (forall r, In r (transaction_inputs db) ->
             In (inr_transaction_id r) (map txr_id (transactions db))) /\
  (forall r, In r (transaction_outputs db) ->
             In (otr_transaction_id r) (map txr_id (transactions db))).

(** Every address of a stored output has a balance row. *)
Definition balances_cover (db : Db) : Prop :=
  forall r, In r (transaction_outputs db) ->
            existsb (balance_of (otr_address r)) (address_balances db) = true.

(** A well-formed store: the primary keys and the references of the schema
    hold, and every address of a stored output has a balance row, as the
    output loop of [processTransaction] provides. *)
Definition store_ok (db : Db) : Prop :=
  keys_unique db /\ references_hold db /\ balances_cover db.

(** The output rows the output loop inserts, [i] counting from its
    argument. *)
Fixpoint output_rows (txId : string) (i : Z) (outs : list Output)
  : list OutputRow :=
  match outs with
  | [] => []
  | output :: rest =>
      mkOutputRow txId (out_address output) (out_value output) i false
      :: output_rows txId (i + 1) rest
  end.

(** The sum of the values that a list of outputs pays to [address]. *)
Definition paid_to (address : string) (outs : list Output) : Z :=
  sumZ (map out_value
            (filter (fun o => String.eqb (out_address o) address) outs)).

(** A transaction that spends nothing. *)
Definition spends_nothing (tx : Transaction) : Prop := tx_inputs tx = [].

(** [address] has a row in [address_balances]. *)
Definition has_row (db : Db) (address : string) : bool :=
  existsb (balance_of address) (address_balances db).

(** The outputs of [db'] are those of [db], up to spent flags, followed by
    further rows. *)
Definition outputs_extend (db db' : Db) : Prop :=
  exists old more,
    transaction_outputs db' = old ++ more /\
    map forget_spent old = map forget_spent (transaction_outputs db).

(** The ids of the stored transactions whose block is among [blockIds]. *)
Definition transactions_of_blocks (db : Db) (blockIds : list string)
  : list string :=
  map txr_id (filter (fun r => mem (txr_block_id r) blockIds) (transactions db)).

(** The sum of the values of the output rows of the transactions [ids] that
    are addressed to [address]. *)
Definition debited (ids : list string) (address : string)
  (rows : list OutputRow) : Z :=
  sumZ (map otr_value
            (filter (fun r => mem (otr_transaction_id r) ids
                              && String.eqb (otr_address r) address)
                    rows)).

(** A block at height 2 that spends nothing. *)
Definition block_mint : Block :=
  mkBlock "bm" 2 [mkTransaction "m1" [] [mkOutput "A" 5; mkOutput "E" 3];
                  mkTransaction "m2" [] [mkOutput "E" 4]].

(** What the server keeps true between requests: the store is well formed
    and the stored heights are 1 up to the height held in memory. *)
Definition tracked (svc : Service) : Prop :=
  store_ok (svc_db svc) /\
  0 <= currentHeight svc /\
  (forall h, In h (map blk_height (blocks (svc_db svc))) <->
             1 <= h <= currentHeight svc).

(** The indexes of the stored inputs fit the column [input_index]. *)
Definition indexes_in_range (db : Db) : Prop :=
  forall i, In i (transaction_inputs db) ->
            in_int4 (inr_input_index i) = true.

(** An output row with its spent flag set to [flag]. *)
Definition with_flag (flag : bool) (r : OutputRow) : OutputRow :=
  mkOutputRow (otr_transaction_id r) (otr_address r) (otr_value r)
              (otr_output_index r) flag.

(** The row [r] after the inputs [inputs] have been applied: spent when one
    of them references it, as it was otherwise. *)
Definition spend (inputs : list Input) (r : OutputRow) : OutputRow :=
  if existsb (fun i => output_at (in_txId i) (in_index i) r) inputs
  then with_flag true r
  else r.

(** The row [r] after the input rows [inputs] have been undone: unspent when
    one of them references it, as it was otherwise. *)
Definition unspend (inputs : list InputRow) (r : OutputRow) : OutputRow :=
  if existsb (fun i => output_at (inr_input_tx_id i) (inr_input_index i) r)
             inputs
  then with_flag false r
  else r.

(** The transaction [txId] is stored in a block of height [h]. *)
Definition tx_height (db : Db) (txId : string) (h : Z) : Prop :=
  exists t b,
    In t (transactions db) /\ In b (blocks db) /\
    txr_id t = txId /\ txr_block_id t = blk_id b /\ blk_height b = h.

(** Every stored input references a stored output, and that output belongs
    to a transaction of a lower block. *)
Definition inputs_grounded (db : Db) : Prop :=
  forall i, In i (transaction_inputs db) ->
    exists o h h',
      In o (transaction_outputs db) /\
      output_at (inr_input_tx_id i) (inr_input_index i) o = true /\
      tx_height db (otr_transaction_id o) h' /\
      tx_height db (inr_transaction_id i) h /\
      h' < h.

(* ================================================================= *)
(** ** Validation *)

Lemma fold_left_add_sumZ {A} (f : A -> Z) (l : list A) (acc : Z) :
  fold_left (fun sum x => sum + f x) l acc = acc + sumZ (map f l).
Proof.
  revert acc; induction l as [|x l IH]; intros acc; simpl.
  - lia.
  - rewrite IH. lia.
Qed.

Lemma outputSum_sumZ tx : outputSum tx = sumZ (map out_value (tx_outputs tx)).
Proof. unfold outputSum. rewrite fold_left_add_sumZ. lia. Qed.

Lemma getInputValue_resolves db input v :
  getInputValue db (in_txId input) (in_index input) = inr v <->
  resolves db input v.
Proof.
  unfold getInputValue, resolves.
  destruct (in_int4 (in_index input)).
  - destruct (select_output db (in_txId input) (in_index input)) as [|r rest].
    + split; [discriminate | intros (_ & r & rest & H & _); discriminate].
    + split.
      * intros H; injection H as <-. split; [reflexivity|]. now exists r, rest.
      * intros (_ & r' & rest' & H & <-). now injection H as <- _.
  - split; [discriminate | intros (H & _); discriminate].
Qed.

Lemma sumInputs_inr db inputs acc s :
  sumInputs db inputs acc = inr s <->
  exists vs, Forall2 (resolves db) inputs vs /\ s = acc + sumZ vs.
Proof.
  revert acc; induction inputs as [|i inputs IH]; intros acc; simpl.
  - split.
    + intros H; injection H as <-. exists []. split; [constructor | simpl; lia].
    + intros (vs & H & ->). inversion H; subst. simpl. f_equal; lia.
  - destruct (getInputValue db (in_txId i) (in_index i)) as [msg|v] eqn:E.
    + split; [discriminate|].
      intros (vs & H & _). inversion H as [|? w ? ? Hr]; subst.
      apply getInputValue_resolves in Hr. congruence.
    + rewrite IH. split.
      * intros (vs & H & ->). exists (v :: vs). split.
        -- constructor; [now apply getInputValue_resolves | exact H].
        -- simpl; lia.
      * intros (vs & H & ->). inversion H as [|? w ? ws Hr Hrest]; subst.
        apply getInputValue_resolves in Hr.
        assert (w = v) by congruence; subst w.
        exists ws. split; [exact Hrest | simpl; lia].
Qed.

Lemma validateInputOutputBalance_valid db txs :
  isValid (validateInputOutputBalance db txs) = true <->
  Forall (balanced db) txs.
Proof.
  induction txs as [|tx txs IH]; simpl.
  - split; [constructor | reflexivity].
  - destruct (tx_inputs tx) as [|i inputs] eqn:Ei.
    + rewrite IH. split.
      * intros H. constructor; [now left | exact H].
      * intros H. now inversion H.
    + destruct (sumInputs db (i :: inputs) 0) as [msg|s] eqn:Es.
      * split; [discriminate|].
        intros H. inversion H as [|? ? Hb _]; subst.
        destruct Hb as [Hb | (vs & Hvs & _)]; [congruence|].
        rewrite Ei in Hvs.
        assert (sumInputs db (i :: inputs) 0 = inr (0 + sumZ vs)) as Hs
          by (apply sumInputs_inr; now exists vs).
        congruence.
      * apply sumInputs_inr in Es. destruct Es as (vs & Hvs & ->).
        rewrite outputSum_sumZ.
        destruct (0 + sumZ vs =? sumZ (map out_value (tx_outputs tx))) eqn:Eq;
          simpl.
        -- rewrite IH. apply Z.eqb_eq in Eq. split.
           ++ intros H. constructor; [|exact H]. right. exists vs.
              rewrite Ei. split; [exact Hvs | lia].
           ++ intros H. now inversion H.
        -- apply Z.eqb_neq in Eq. split; [discriminate|].
           intros H. inversion H as [|? ? Hb _]; subst.
           destruct Hb as [Hb | (ws & Hws & Hsum)]; [congruence|].
           rewrite Ei in Hws.
           assert (inr (0 + sumZ vs) = (inr (0 + sumZ ws) : string + Z)) as Hs.
           { transitivity (sumInputs db (i :: inputs) 0).
             - symmetry. apply sumInputs_inr. now exists vs.
             - apply sumInputs_inr. now exists ws. }
           injection Hs as Hs. lia.
Qed.

Lemma validateHeight_valid blockHeight current :
  isValid (validateHeight blockHeight current) = true <->
  blockHeight = current + 1.
Proof.
  unfold validateHeight.
  destruct (blockHeight =? current + 1) eqn:E; simpl.
  - apply Z.eqb_eq in E. tauto.
  - apply Z.eqb_neq in E. split; [discriminate | tauto].
Qed.



(** C7. [validateRollbackHeight] accepts exactly the targets that are
    integers with [1 <= target <= current] and [current - target <= 2000];
    a target that is [NaN] or below 1 is reported as [Invalid height], one
    above the current height as [Invalid rollback height], one more than
    2000 below it as [Rollback too far], three different error kinds.  At
    height 2500 the target 400 is [Rollback too far] and 501 is accepted. *)
Theorem validateRollbackHeight_accepts_exactly
  (targetHeight : option Z) (current : Z) :
  (isValid (validateRollbackHeight targetHeight current) = true <->
   exists t, targetHeight = Some t /\
             1 <= t /\ t <= current /\ current - t <= 2000) /\
  ((targetHeight = None \/ exists t, targetHeight = Some t /\ t < 1) ->
   error (validateRollbackHeight targetHeight current)
   = Some "Invalid height") /\
  (forall t, targetHeight = Some t -> 1 <= t -> current < t ->
   error (validateRollbackHeight targetHeight current)
   = Some "Invalid rollback height") /\
  (forall t, targetHeight = Some t -> 1 <= t -> t <= current ->
   2000 < current - t ->
   error (validateRollbackHeight targetHeight current)
   = Some "Rollback too far") /\
  ("Invalid height" <> "Invalid rollback height" /\
   "Invalid height" <> "Rollback too far" /\
   "Invalid rollback height" <> "Rollback too far") /\
  error (validateRollbackHeight (Some 400) 2500) = Some "Rollback too far" /\
  validateRollbackHeight (Some 501) 2500 = valid.
Proof.
  repeat split; try discriminate; try reflexivity.
  - unfold validateRollbackHeight. destruct targetHeight as [t|];
      [|discriminate].
    destruct (t <? 1) eqn:E1; [discriminate|].
    destruct (current <? t) eqn:E2; [discriminate|].
    destruct (2000 <? current - t) eqn:E3; [discriminate|].
    intros _. exists t. apply Z.ltb_ge in E1, E2, E3. repeat split; lia.
  - intros (t & -> & H1 & H2 & H3). unfold validateRollbackHeight.
    destruct (Z.ltb_spec t 1); [lia|].
    destruct (Z.ltb_spec current t); [lia|].
    destruct (Z.ltb_spec 2000 (current - t)); [lia|]. reflexivity.
  - intros [-> | (t & -> & H)]; [reflexivity|].
    unfold validateRollbackHeight.
    destruct (Z.ltb_spec t 1); [reflexivity | lia].
  - intros t -> H1 H2. unfold validateRollbackHeight.
    destruct (Z.ltb_spec t 1); [lia|].
    destruct (Z.ltb_spec current t); [reflexivity | lia].
  - intros t -> H1 H2 H3. unfold validateRollbackHeight.
    destruct (Z.ltb_spec t 1); [lia|].
    destruct (Z.ltb_spec current t); [lia|].
    destruct (Z.ltb_spec 2000 (current - t)); [reflexivity | lia].
Qed.

Lemma validateRollbackHeight_accepts_exactly_witness :
  isValid (validateRollbackHeight (Some 1999) 2000) = true /\
  error (validateRollbackHeight (Some 2600) 2500)
  = Some "Invalid rollback height".
Proof.
  split.
  - apply (proj1 (validateRollbackHeight_accepts_exactly (Some 1999) 2000)).
    exists 1999. repeat split; lia.
  - destruct (validateRollbackHeight_accepts_exactly (Some 2600) 2500)
      as (_ & _ & H & _).
    apply (H 2600); [reflexivity | lia | lia].
Defined.

Lemma append_empty_r (s : string) : (s ++ "")%string = s.
Proof.
  induction s as [|c s IH]; cbn [String.append]; [reflexivity | now rewrite IH].
Qed.

Lemma append_assoc (s1 s2 s3 : string) :
  ((s1 ++ s2) ++ s3)%string = (s1 ++ s2 ++ s3)%string.
Proof.
  induction s1 as [|c s1 IH]; cbn [String.append];
    [reflexivity | now rewrite IH].
Qed.

(** [ids.join('')] is plain concatenation. *)
Lemma join_cons (id : string) (ids : list string) :
  String.concat "" (id :: ids) = (id ++ String.concat "" ids)%string.
Proof.
  destruct ids as [|id' ids]; cbn [String.concat String.append].
  - now rewrite append_empty_r.
  - reflexivity.
Qed.

(** C9. [calculateBlockId] is the digest of the decimal height followed by
    the transaction ids joined with the empty separator, a function of
    (height, ids) alone.  The joined text does not keep the boundaries:
    two ids give the same block id as their concatenation taken as one id,
    and height 1 with ids ["23"] gives the same block id as height 12 with
    ids ["3"]. *)
Theorem calculateBlockId_concatenates (sha256hex : string -> string) :
  (forall height ids,
     calculateBlockId sha256hex height ids
     = sha256hex (string_of_Z height ++ String.concat "" ids)%string) /\
  (forall height id1 id2 ids,
     calculateBlockId sha256hex height (id1 :: id2 :: ids)
     = calculateBlockId sha256hex height ((id1 ++ id2)%string :: ids)) /\
  string_of_Z 1 = "1" /\ string_of_Z 12 = "12" /\
  calculateBlockId sha256hex 1 ["23"] = sha256hex "123" /\
  calculateBlockId sha256hex 12 ["3"] = sha256hex "123" /\
  calculateBlockId sha256hex 1 ["23"] = calculateBlockId sha256hex 12 ["3"].
Proof.
  split; [reflexivity|].
  split; [|repeat split; reflexivity].
  intros height id1 id2 ids. unfold calculateBlockId.
  now rewrite !join_cons, append_assoc.
Qed.

(* ================================================================= *)
(** ** Balances under the apply path *)

Lemma balance_of_add_balance address a delta r :
  balance_of address (add_balance a delta r) = balance_of address r.
Proof.
  unfold add_balance. destruct (balance_of a r); reflexivity.
Qed.

Lemma bal_balance_add_balance address delta r :
  balance_of address r = true ->
  bal_balance (add_balance address delta r) = bal_balance r + delta.
Proof.
  intros H. unfold add_balance. rewrite H. reflexivity.
Qed.

Lemma getAddressBalance_update_same rows address delta :
  existsb (balance_of address) rows = true ->
  match filter (balance_of address) (map (add_balance address delta) rows) with
  | [] => 0
  | r :: _ => bal_balance r
  end
  = match filter (balance_of address) rows with
    | [] => 0
    | r :: _ => bal_balance r
    end + delta.
Proof.
  induction rows as [|r rows IH]; cbn [existsb map filter]; [discriminate|].
  rewrite balance_of_add_balance.
  destruct (balance_of address r) eqn:E; cbn [orb].
  - intros _. now apply bal_balance_add_balance.
  - exact IH.
Qed.

Lemma output_at_set_spent txId index flag t i r :
  output_at txId index (set_spent flag t i r) = output_at txId index r.
Proof.
  unfold set_spent. destruct (output_at t i r); reflexivity.
Qed.

Lemma select_output_set_spent flag txId index t i l :
  filter (output_at txId index) (map (set_spent flag t i) l)
  = map (set_spent flag t i) (filter (output_at txId index) l).
Proof.
  induction l as [|r l IH]; cbn [map filter]; [reflexivity|].
  rewrite output_at_set_spent.
  destruct (output_at txId index r); cbn [map]; now rewrite IH.
Qed.

Lemma set_spent_address flag t i r :
  otr_address (set_spent flag t i r) = otr_address r.
Proof. unfold set_spent. destruct (output_at t i r); reflexivity. Qed.

Lemma set_spent_value flag t i r :
  otr_value (set_spent flag t i r) = otr_value r.
Proof. unfold set_spent. destruct (output_at t i r); reflexivity. Qed.

(** C2 (what the code does). When the referenced output exists and its
    address has a balance row, one iteration of the input loop leaves the
    balance of that address higher by the value of the output: the statement
    subtracts its second parameter, and the parameter bound is [-value]. *)
Theorem processInput_raises_balance
  (txId : string) (db : Db) (input : Input) (r : OutputRow)
  (rest : list OutputRow) :
  select_output db (in_txId input) (in_index input) = r :: rest ->
  existsb (balance_of (otr_address r)) (address_balances db) = true ->
  getAddressBalance (processInput txId db input) (otr_address r)
  = getAddressBalance db (otr_address r) + otr_value r.
Proof.
  intros Hsel Hrow. unfold processInput, select_output in *.
  cbn [transaction_outputs update_is_spent insert_input].
  rewrite select_output_set_spent, Hsel. cbn [map].
  rewrite set_spent_address, set_spent_value.
  unfold upsert_balance_minus.
  cbn [address_balances update_is_spent insert_input]. rewrite Hrow.
  unfold getAddressBalance, update_balance. cbn [address_balances].
  rewrite getAddressBalance_update_same by exact Hrow.
  cbn [address_balances update_is_spent insert_input]. lia.
Qed.

Lemma processInput_raises_balance_witness :
  getAddressBalance (processInput "t2" store_one (mkInput "t1" 0)) "A"
  = getAddressBalance store_one "A" + 100.
Proof.
  apply (processInput_raises_balance "t2" store_one (mkInput "t1" 0)
           (mkOutputRow "t1" "A" 100 0 false) []); reflexivity.
Defined.

(** C3 (what the code does). Block 1 is applied to the empty store and the
    balance of "A" is the sum of its unspent outputs, 100.  Block 2 passes
    the height and balance checks and is applied; it spends the only output
    of "A", so no unspent output of "A" is left, and the stored balance of
    "A" is 200.  An address without a row reads as 0. *)
Theorem balance_differs_from_unspent_sum_after_spend :
  processBlock empty_db block_one = (store_one, None) /\
  getAddressBalance store_one "A" = 100 /\
  unspent_sum store_one "A" = 100 /\
  validateHeight (block_height block_two) (max_height store_one) = valid /\
  validateInputOutputBalance store_one (block_transactions block_two) = valid /\
  processBlock store_one block_two = (store_two, None) /\
  unspent_sum store_two "A" = 0 /\
  getAddressBalance store_two "A" = 200 /\
  getAddressBalance store_two "Z" = 0.
Proof.
  repeat split; vm_compute; reflexivity.
Qed.

(** C1 (what the code does). After blocks 1 and 2, rolling back to height 1
    leaves the balance of "A" at 300, not at the 100 it had before block 2
    was applied; applying block 2 again then gives 400, not the 200 it had
    after the first application.  "B" and "C" are back at 60 and 40. *)
Theorem rollback_does_not_restore_spender_balance :
  let rolled := fst (rollbackToHeight store_two 1) in
  let again := fst (processBlock rolled block_two) in
  processBlock store_one block_two = (store_two, None) /\
  snd (rollbackToHeight store_two 1) = None /\
  blocks rolled = blocks store_one /\
  transaction_outputs rolled = transaction_outputs store_one /\
  getAddressBalance store_one "A" = 100 /\
  getAddressBalance rolled "A" = 300 /\
  validateInputOutputBalance rolled (block_transactions block_two) = valid /\
  snd (processBlock rolled block_two) = None /\
  getAddressBalance store_two "A" = 200 /\
  getAddressBalance again "A" = 400 /\
  getAddressBalance again "B" = getAddressBalance store_two "B" /\
  getAddressBalance again "C" = getAddressBalance store_two "C".
Proof.
  repeat split; vm_compute; reflexivity.
Qed.

Lemma getInputValue_ignores_is_spent f db txId index :
  getInputValue (with_spent_flags f db) txId index = getInputValue db txId index.
Proof.
  unfold getInputValue, select_output, with_spent_flags.
  cbn [transaction_outputs].
  induction (transaction_outputs db) as [|r l IH]; cbn [map filter];
    [reflexivity|].
  change (output_at txId index
            (mkOutputRow (otr_transaction_id r) (otr_address r) (otr_value r)
                         (otr_output_index r) (f r)))
    with (output_at txId index r).
  destruct (output_at txId index r); [reflexivity | exact IH].
Qed.

Lemma sumInputs_ignores_is_spent f db inputs acc :
  sumInputs (with_spent_flags f db) inputs acc = sumInputs db inputs acc.
Proof.
  revert acc; induction inputs as [|i inputs IH]; intros acc; simpl;
    [reflexivity|].
  rewrite getInputValue_ignores_is_spent.
  destruct (getInputValue db (in_txId i) (in_index i)); [reflexivity | apply IH].
Qed.


(* ================================================================= *)
(** ** The storage unit of [processBlock] and the rows it leaves *)

Lemma bind_ok {A B} (r : result A) (k : A -> result B) (b : B) :
  bind r k = Ok b -> exists a, r = Ok a /\ k a = Ok b.
Proof. destruct r as [a|e]; cbn [bind]; [eauto | discriminate]. Qed.

Lemma int4_ok z z' : int4 z = Ok z' -> in_int4 z = true.
Proof. unfold int4. destruct (in_int4 z); [reflexivity | discriminate]. Qed.

Lemma int4_in_range z : in_int4 z = true -> int4 z = Ok z.
Proof. unfold int4. now intros ->. Qed.

Lemma for_each_fold {A S} (body : S -> A -> result S) (f : S -> A -> S)
  (xs : list A) (s s' : S) :
  (forall s x s', body s x = Ok s' -> s' = f s x) ->
  for_each body xs s = Ok s' -> s' = fold_left f xs s.
Proof.
  intros Hbody. revert s; induction xs as [|x xs IH]; intros s;
    cbn [for_each fold_left].
  - now intros H; injection H as <-.
  - intros H. apply bind_ok in H. destruct H as (s1 & H1 & H2).
    rewrite <- (Hbody _ _ _ H1). now apply IH.
Qed.

Lemma for_each_app {A S} (body : S -> A -> result S) (xs ys : list A) (s : S) :
  for_each body (xs ++ ys) s = (s1 <- for_each body xs s ;; for_each body ys s1).
Proof.
  revert s; induction xs as [|x xs IH]; intros s; cbn [app for_each bind];
    [reflexivity|].
  destruct (body s x) as [s1|e]; cbn [bind]; [apply IH | reflexivity].
Qed.

Lemma update_balance_checked_ok db address delta db' :
  update_balance_checked db address delta = Ok db' ->
  db' = update_balance db address delta.
Proof.
  unfold update_balance_checked. destruct (forallb _ _); [|discriminate].
  now intros H; injection H as <-.
Qed.

Lemma upsert_balance_minus_checked_ok db address p2 db' :
  upsert_balance_minus_checked db address p2 = Ok db' ->
  db' = upsert_balance_minus db address p2.
Proof.
  unfold upsert_balance_minus_checked, upsert_balance_minus. intros H.
  apply bind_ok in H. destruct H as (_ & _ & H).
  destruct (existsb _ _); [now apply update_balance_checked_ok|].
  now injection H as <-.
Qed.

Lemma upsert_balance_plus_checked_ok db address p2 db' :
  upsert_balance_plus_checked db address p2 = Ok db' ->
  db' = upsert_balance_plus db address p2 /\ in_int4 p2 = true.
Proof.
  unfold upsert_balance_plus_checked, upsert_balance_plus. intros H.
  apply bind_ok in H. destruct H as (z & Hz & H). apply int4_ok in Hz.
  split; [|exact Hz].
  destruct (existsb _ _); [now apply update_balance_checked_ok|].
  now injection H as <-.
Qed.

Lemma inputStep_ok txId db input db' :
  inputStep txId db input = Ok db' ->
  db' = processInput txId db input /\ in_int4 (in_index input) = true.
Proof.
  unfold inputStep, processInput. intros H.
  apply bind_ok in H. destruct H as (z & Hz & H). apply int4_ok in Hz.
  split; [|exact Hz].
  destruct (select_output _ _ _) as [|r rest].
  - now injection H as <-.
  - now apply upsert_balance_minus_checked_ok.
Qed.

Lemma inputSteps_ok txId inputs db db' :
  for_each (inputStep txId) inputs db = Ok db' ->
  db' = fold_left (processInput txId) inputs db /\
  Forall (fun input => in_int4 (in_index input) = true) inputs.
Proof.
  revert db; induction inputs as [|i inputs IH]; intros db;
    cbn [for_each fold_left].
  - intros H; injection H as <-. split; [reflexivity | constructor].
  - intros H. apply bind_ok in H. destruct H as (d & H1 & H2).
    apply inputStep_ok in H1. destruct H1 as (-> & Hi).
    destruct (IH _ H2) as (-> & Hrest). split; [reflexivity|].
    now constructor.
Qed.

Lemma outputSteps_ok txId outs db i db' :
  outputSteps txId db i outs = Ok db' ->
  db' = processOutputs txId db i outs /\
  forall k, (k < List.length outs)%nat -> in_int4 (i + Z.of_nat k) = true.
Proof.
  revert db i; induction outs as [|o outs IH]; intros db i;
    cbn [outputSteps processOutputs List.length].
  - intros H; injection H as <-. split; [reflexivity|]. intros k Hk. lia.
  - intros H. apply bind_ok in H. destruct H as (_ & _ & H).
    apply bind_ok in H. destruct H as (z & Hz & H). apply int4_ok in Hz.
    apply bind_ok in H. destruct H as (d & Hd & H).
    apply upsert_balance_plus_checked_ok in Hd. destruct Hd as (-> & _).
    destruct (IH _ _ H) as (-> & Hrest). split; [reflexivity|].
    intros [|k] Hk.
    + now replace (i + Z.of_nat 0) with i by lia.
    + replace (i + Z.of_nat (S k)) with (i + 1 + Z.of_nat k) by lia.
      apply Hrest. lia.
Qed.

(** A committed transaction leaves what [processTransaction_unbounded]
    describes; the indexes of its inputs and of its outputs are
    [INTEGER]s. *)
Lemma processTransaction_ok blockId db tx db' :
  processTransaction blockId db tx = Ok db' ->
  processTransaction_unbounded blockId db tx = Ok db' /\
  Forall (fun input => in_int4 (in_index input) = true) (tx_inputs tx) /\
  (forall k, (k < List.length (tx_outputs tx))%nat -> in_int4 (Z.of_nat k) = true).
Proof.
  unfold processTransaction, processTransaction_unbounded. intros H.
  apply bind_ok in H. destruct H as (db1 & -> & H). cbn [bind].
  apply bind_ok in H. destruct H as (db2 & H2 & H).
  apply inputSteps_ok in H2. destruct H2 as (-> & Hin).
  apply outputSteps_ok in H. destruct H as (-> & Hout).
  repeat split; assumption.
Qed.

Lemma for_each_processTransaction_ok_unbounded blockId txs db db' :
  for_each (processTransaction blockId) txs db = Ok db' ->
  for_each (processTransaction_unbounded blockId) txs db = Ok db' /\
  Forall (fun tx =>
            Forall (fun input => in_int4 (in_index input) = true)
                   (tx_inputs tx) /\
            (forall k, (k < List.length (tx_outputs tx))%nat ->
                       in_int4 (Z.of_nat k) = true)) txs.
Proof.
  revert db; induction txs as [|tx txs IH]; intros db; cbn [for_each].
  - intros H. split; [exact H | constructor].
  - intros H. apply bind_ok in H. destruct H as (d & H1 & H2).
    apply processTransaction_ok in H1. destruct H1 as (-> & Htx).
    cbn [bind]. destruct (IH _ H2) as (-> & Hrest). split; [reflexivity|].
    now constructor.
Qed.

(** The store in which the transactions of a block are processed. *)
Lemma processBlock_unit_ok db block db' :
  processBlock_unit db block = Ok db' ->
  in_int4 (block_height block) = true /\
  existsb (fun r => String.eqb (blk_id r) (block_id block)) (blocks db)
  = false /\
  existsb (fun r => blk_height r =? block_height block) (blocks db) = false /\
  for_each (processTransaction (block_id block)) (block_transactions block)
    (mkDb (blocks db ++ [mkBlockRow (block_id block) (block_height block)])
          (transactions db) (transaction_inputs db)
          (transaction_outputs db) (address_balances db))
  = Ok db'.
Proof.
  unfold processBlock_unit, insert_block. intros H.
  apply bind_ok in H. destruct H as (z & Hz & H). apply int4_ok in Hz.
  destruct (existsb _ (blocks db)); [discriminate|].
  destruct (existsb _ (blocks db)); [discriminate|].
  cbn [bind] in H. repeat split; assumption.
Qed.

Lemma processBlock_commit db block :
  snd (processBlock db block) = None ->
  processBlock_unit db block = Ok (fst (processBlock db block)).
Proof.
  unfold processBlock.
  destruct (processBlock_unit db block); [reflexivity | discriminate].
Qed.

Lemma processBlock_atomic db block e :
  snd (processBlock db block) = Some e -> fst (processBlock db block) = db.
Proof.
  unfold processBlock.
  destruct (processBlock_unit db block); [discriminate | reflexivity].
Qed.

Lemma processBlock_fst db block :
  fst (processBlock db block) = db \/
  processBlock_unit db block = Ok (fst (processBlock db block)).
Proof.
  unfold processBlock.
  destruct (processBlock_unit db block); [now right | now left].
Qed.

(* ----------------------------------------------------------------- *)
(** *** Output rows up to their spent flag *)

Lemma forget_spent_set_spent flag t i r :
  forget_spent (set_spent flag t i r) = forget_spent r.
Proof. unfold set_spent. destruct (output_at t i r); reflexivity. Qed.

Lemma forget_spent_fields r r' :
  forget_spent r = forget_spent r' ->
  otr_transaction_id r = otr_transaction_id r' /\
  otr_address r = otr_address r' /\
  otr_value r = otr_value r' /\
  otr_output_index r = otr_output_index r'.
Proof.
  unfold forget_spent. intros H. repeat split; congruence.
Qed.

Lemma output_at_forget_spent t i r r' :
  forget_spent r = forget_spent r' -> output_at t i r = output_at t i r'.
Proof.
  unfold forget_spent, output_at. intros H.
  replace (otr_transaction_id r') with (otr_transaction_id r) by congruence.
  replace (otr_output_index r') with (otr_output_index r) by congruence.
  reflexivity.
Qed.

Lemma output_of_forget_spent t r r' :
  forget_spent r = forget_spent r' -> output_of t r = output_of t r'.
Proof.
  unfold forget_spent, output_of. intros H.
  replace (otr_transaction_id r') with (otr_transaction_id r) by congruence.
  reflexivity.
Qed.

Lemma filter_forget_spent (p : OutputRow -> bool) l l' :
  (forall r r', forget_spent r = forget_spent r' -> p r = p r') ->
  map forget_spent l = map forget_spent l' ->
  map forget_spent (filter p l) = map forget_spent (filter p l').
Proof.
  intros Hp. revert l'; induction l as [|r l IH]; intros [|r' l'] H;
    try discriminate; [reflexivity|].
  cbn [map] in H.
  assert (forget_spent r = forget_spent r') as Hr by congruence.
  assert (map forget_spent l = map forget_spent l') as Hl by congruence.
  cbn [filter]. rewrite (Hp r r' Hr).
  destruct (p r'); cbn [map]; [f_equal; [exact Hr|]|]; now apply IH.
Qed.

Lemma select_output_forget_spent db1 db2 txId index :
  map forget_spent (transaction_outputs db1)
  = map forget_spent (transaction_outputs db2) ->
  map forget_spent (select_output db1 txId index)
  = map forget_spent (select_output db2 txId index).
Proof.
  intros H. unfold select_output.
  apply filter_forget_spent; [apply output_at_forget_spent | exact H].
Qed.

Lemma map_forget_spent_set_spent flag t i l :
  map forget_spent (map (set_spent flag t i) l) = map forget_spent l.
Proof.
  rewrite map_map. apply map_ext. intros r. apply forget_spent_set_spent.
Qed.

(* ----------------------------------------------------------------- *)
(** *** What the apply path reads *)

Lemma alike_bind Ro (r1 r2 : result Db) (k1 k2 : Db -> result Db) :
  alike (agree Ro) r1 r2 ->
  (forall a b, agree Ro a b -> alike (agree Ro) (k1 a) (k2 b)) ->
  alike (agree Ro) (bind r1 k1) (bind r2 k2).
Proof.
  intros H Hk. destruct r1 as [a|e1], r2 as [b|e2]; cbn [alike bind] in *;
    try contradiction; [now apply Hk | exact H].
Qed.

Lemma for_each_alike Ro {A} (body1 body2 : Db -> A -> result Db) xs a b :
  (forall a b x, agree Ro a b -> alike (agree Ro) (body1 a x) (body2 b x)) ->
  agree Ro a b ->
  alike (agree Ro) (for_each body1 xs a) (for_each body2 xs b).
Proof.
  intros Hbody. revert a b; induction xs as [|x xs IH]; intros a b H;
    cbn [for_each]; [exact H|].
  apply alike_bind; [now apply Hbody | exact IH].
Qed.

Lemma update_balance_checked_alike Ro a b address delta :
  agree Ro a b ->
  alike (agree Ro) (update_balance_checked a address delta)
                   (update_balance_checked b address delta).
Proof.
  intros (B & T & O & A). unfold update_balance_checked. rewrite A.
  destruct (forallb _ _); cbn [alike]; [|reflexivity].
  repeat split; cbn [update_balance blocks transactions transaction_outputs
                     address_balances]; congruence.
Qed.

Lemma upsert_balance_minus_checked_alike Ro a b address p2 :
  agree Ro a b ->
  alike (agree Ro) (upsert_balance_minus_checked a address p2)
                   (upsert_balance_minus_checked b address p2).
Proof.
  intros H. unfold upsert_balance_minus_checked, int4.
  destruct (in_int4 p2); cbn [bind alike]; [|reflexivity].
  pose proof H as (B & T & O & A). rewrite A.
  destruct (existsb _ _); [now apply update_balance_checked_alike|].
  repeat split; cbn [insert_balance blocks transactions transaction_outputs
                     address_balances]; congruence.
Qed.

Lemma upsert_balance_plus_checked_alike Ro a b address p2 :
  agree Ro a b ->
  alike (agree Ro) (upsert_balance_plus_checked a address p2)
                   (upsert_balance_plus_checked b address p2).
Proof.
  intros H. unfold upsert_balance_plus_checked, int4.
  destruct (in_int4 p2); cbn [bind alike]; [|reflexivity].
  pose proof H as (B & T & O & A). rewrite A.
  destruct (existsb _ _); [now apply update_balance_checked_alike|].
  repeat split; cbn [insert_balance blocks transactions transaction_outputs
                     address_balances]; congruence.
Qed.

(** The input loop reads neither the table of inputs nor a spent flag. *)
Lemma inputStep_alike Ro txId1 txId2 a b input :
  kept_by_apply Ro ->
  agree Ro a b ->
  alike (agree Ro) (inputStep txId1 a input) (inputStep txId2 b input).
Proof.
  intros HRo (B & T & O & A). unfold inputStep, int4.
  destruct (in_int4 (in_index input)); cbn [bind alike]; [|reflexivity].
  set (a2 := update_is_spent (insert_input a _ _ _) _ _ _).
  set (b2 := update_is_spent (insert_input b _ _ _) _ _ _).
  assert (agree Ro a2 b2) as H2.
  { repeat split; cbn [a2 b2 update_is_spent insert_input blocks transactions
                       transaction_outputs address_balances];
      try assumption.
    now apply (proj1 (proj2 HRo)). }
  pose proof (select_output_forget_spent a2 b2 (in_txId input)
                (in_index input) (proj1 HRo _ _ (proj1 (proj2 (proj2 H2)))))
    as Hs.
  destruct (select_output a2 _ _) as [|r1 l1],
           (select_output b2 _ _) as [|r2 l2]; cbn [map] in Hs;
    try discriminate; [exact H2|].
  assert (forget_spent r1 = forget_spent r2) as Hr by congruence.
  apply forget_spent_fields in Hr. destruct Hr as (_ & -> & -> & _).
  now apply upsert_balance_minus_checked_alike.
Qed.

Lemma outputSteps_alike Ro txId outs a b i :
  kept_by_apply Ro ->
  agree Ro a b ->
  alike (agree Ro) (outputSteps txId a i outs) (outputSteps txId b i outs).
Proof.
  intros HRo.
  revert a b i; induction outs as [|o outs IH]; intros a b i H;
    cbn [outputSteps]; [exact H|].
  unfold int4. destruct (in_int4 (out_value o)); cbn [bind alike];
    [|reflexivity].
  destruct (in_int4 i); cbn [bind alike]; [|reflexivity].
  apply alike_bind; [|intros a' b' H'; now apply IH].
  apply upsert_balance_plus_checked_alike.
  destruct H as (B & T & O & A).
  repeat split; cbn [insert_output blocks transactions transaction_outputs
                     address_balances]; try assumption.
  now apply (proj2 (proj2 HRo)).
Qed.

Lemma insert_transaction_alike Ro a b id blockId :
  agree Ro a b ->
  alike (agree Ro) (insert_transaction a id blockId)
                   (insert_transaction b id blockId).
Proof.
  intros (B & T & O & A). unfold insert_transaction. rewrite T.
  destruct (existsb _ _); cbn [alike]; [reflexivity|].
  repeat split; cbn [blocks transactions transaction_outputs
                     address_balances]; congruence.
Qed.

Lemma processTransaction_alike Ro blockId a b tx :
  kept_by_apply Ro ->
  agree Ro a b ->
  alike (agree Ro) (processTransaction blockId a tx)
                   (processTransaction blockId b tx).
Proof.
  intros HRo H. unfold processTransaction.
  apply alike_bind; [now apply insert_transaction_alike|].
  intros a1 b1 H1. apply alike_bind.
  - apply for_each_alike; [|exact H1].
    intros a' b' x H'. now apply inputStep_alike.
  - intros a2 b2 H2. now apply outputSteps_alike.
Qed.

Lemma insert_block_alike Ro a b id height :
  agree Ro a b ->
  alike (agree Ro) (insert_block a id height) (insert_block b id height).
Proof.
  intros (B & T & O & A). unfold insert_block. rewrite B.
  destruct (existsb _ _); cbn [alike]; [reflexivity|].
  destruct (existsb _ _); cbn [alike]; [reflexivity|].
  repeat split; cbn [blocks transactions transaction_outputs
                     address_balances]; congruence.
Qed.

Lemma processBlock_unit_alike Ro a b block :
  kept_by_apply Ro ->
  agree Ro a b ->
  alike (agree Ro) (processBlock_unit a block) (processBlock_unit b block).
Proof.
  intros HRo H. unfold processBlock_unit, int4.
  destruct (in_int4 (block_height block)); cbn [bind alike]; [|reflexivity].
  apply alike_bind; [now apply insert_block_alike|].
  intros a1 b1 H1. apply for_each_alike; [|exact H1].
  intros a' b' tx H'. now apply processTransaction_alike.
Qed.

Lemma flags_apart_update flag t i l1 l2 :
  flags_apart l1 l2 ->
  flags_apart (map (set_spent flag t i) l1) (map (set_spent flag t i) l2).
Proof.
  unfold flags_apart. intros H. now rewrite !map_forget_spent_set_spent.
Qed.

Lemma flags_apart_insert l1 l2 r :
  flags_apart l1 l2 -> flags_apart (l1 ++ [r]) (l2 ++ [r]).
Proof. unfold flags_apart. intros H. rewrite !map_app. now f_equal. Qed.

Lemma alike_outcome R db1 block1 db2 block2 :
  alike R (processBlock_unit db1 block1) (processBlock_unit db2 block2) ->
  snd (processBlock db1 block1) = snd (processBlock db2 block2).
Proof.
  unfold processBlock.
  destruct (processBlock_unit db1 block1), (processBlock_unit db2 block2);
    cbn [alike snd]; intros H; try contradiction; [reflexivity | now f_equal].
Qed.

Lemma agree_with_spent_flags f db :
  agree flags_apart (with_spent_flags f db) db.
Proof.
  repeat split. unfold flags_apart. cbn [with_spent_flags transaction_outputs].
  rewrite map_map. apply map_ext. intros r. reflexivity.
Qed.

Lemma kept_by_apply_flags_apart : kept_by_apply flags_apart.
Proof.
  split; [now intros l1 l2 H|].
  split; [apply flags_apart_update | apply flags_apart_insert].
Qed.

Lemma kept_by_apply_eq : kept_by_apply eq.
Proof. repeat split; intros; now subst. Qed.

Lemma processBlock_ignores_is_spent f db block :
  snd (processBlock (with_spent_flags f db) block) = snd (processBlock db block).
Proof.
  eapply alike_outcome.
  apply (processBlock_unit_alike flags_apart);
    [apply kept_by_apply_flags_apart | apply agree_with_spent_flags].
Qed.

(* ================================================================= *)
(** ** Dangling inputs: what the validation says *)


Lemma map_set_spent_no_match flag txId index l :
  filter (output_at txId index) l = [] ->
  map (set_spent flag txId index) l = l.
Proof.
  induction l as [|r l IH]; cbn [map filter]; [reflexivity|].
  unfold set_spent at 1.
  destruct (output_at txId index r); [discriminate|].
  intros H. now rewrite IH.
Qed.

Lemma Forall2_resolves_In db inputs vs input :
  Forall2 (resolves db) inputs vs -> In input inputs ->
  exists v, resolves db input v.
Proof.
  induction 1 as [|i v inputs vs Hr _ IH]; intros Hin; [destruct Hin|].
  destruct Hin as [<- | Hin]; [now exists v | now apply IH].
Qed.

Lemma validateInputOutputBalance_dangling db txs tx input :
  In tx txs -> In input (tx_inputs tx) ->
  select_output db (in_txId input) (in_index input) = [] ->
  isValid (validateInputOutputBalance db txs) = false.
Proof.
  intros Htx Hin Hsel.
  destruct (isValid (validateInputOutputBalance db txs)) eqn:E;
    [|reflexivity].
  apply validateInputOutputBalance_valid in E.
  rewrite Forall_forall in E. specialize (E tx Htx).
  destruct E as [E | (vs & Hvs & _)].
  - rewrite E in Hin. destruct Hin.
  - destruct (Forall2_resolves_In _ _ _ _ Hvs Hin) as (v & _ & r & rest & Hr & _).
    congruence.
Qed.

Lemma post_blocks_invalid sha256hex svc block :
  isValid (validateBlock sha256hex svc block) = false ->
  post_blocks sha256hex svc block
  = (svc, mkReply 400 (error (validateBlock sha256hex svc block))
                      (message (validateBlock sha256hex svc block))).
Proof.
  intros H. unfold post_blocks. rewrite H. reflexivity.
Qed.

Lemma validateBlock_invalid_balance sha256hex svc block :
  isValid (validateInputOutputBalance (svc_db svc) (block_transactions block))
  = false ->
  isValid (validateBlock sha256hex svc block) = false.
Proof.
  intros H. unfold validateBlock.
  destruct (isValid (validateHeight _ _)) eqn:Eh; cbn [negb];
    [|exact Eh].
  destruct (isValid (validateBlockIdFormat _ _)) eqn:Ei; cbn [negb];
    [|exact Ei].
  rewrite H. cbn [negb]. exact H.
Qed.

(* ================================================================= *)
(** ** Atomicity of the two mutating routes *)


Lemma post_blocks_cases sha256hex svc block :
  (isValid (validateBlock sha256hex svc block) = false /\
   post_blocks sha256hex svc block
   = (svc, mkReply 400 (error (validateBlock sha256hex svc block))
                       (message (validateBlock sha256hex svc block)))) \/
  (isValid (validateBlock sha256hex svc block) = true /\
   (exists e, processBlock_unit (svc_db svc) block = Err e) /\
   post_blocks sha256hex svc block
   = (svc, mkReply 500 (Some "Internal server error") None)) \/
  (isValid (validateBlock sha256hex svc block) = true /\
   exists db', processBlock_unit (svc_db svc) block = Ok db' /\
   post_blocks sha256hex svc block
   = (mkService db' (block_height block),
      mkReply 200 None (Some "Block processed successfully"))).
Proof.
  unfold post_blocks, processBlock.
  destruct (isValid (validateBlock sha256hex svc block)) eqn:Ev; cbn [negb].
  - right. destruct (processBlock_unit (svc_db svc) block) as [db'|e] eqn:Eu.
    + right. split; [reflexivity|]. exists db'. split; reflexivity.
    + left. split; [reflexivity|]. split; [now exists e|].
      destruct svc; reflexivity.
  - left. split; reflexivity.
Qed.

Lemma post_rollback_cases svc targetHeight :
  (isValid (validateRollbackHeight targetHeight (currentHeight svc)) = false /\
   post_rollback svc targetHeight
   = (svc, mkReply 400
             (error (validateRollbackHeight targetHeight (currentHeight svc)))
             (message (validateRollbackHeight targetHeight
                                              (currentHeight svc))))) \/
  (exists target e,
     targetHeight = Some target /\
     isValid (validateRollbackHeight targetHeight (currentHeight svc)) = true /\
     rollbackToHeight_unit (svc_db svc) target = Err e /\
     post_rollback svc targetHeight
     = (svc, mkReply 500 (Some "Internal server error") None)) \/
  (exists target c,
     targetHeight = Some target /\
     isValid (validateRollbackHeight targetHeight (currentHeight svc)) = true /\
     rollbackToHeight_unit (svc_db svc) target = Ok c /\
     post_rollback svc targetHeight
     = (mkService (fst c) target,
        mkReply 200 None
          (Some ("Successfully rolled back to height "
                 ++ string_of_Z target)%string))).
Proof.
  unfold post_rollback, getCurrentHeight, rollbackToHeight.
  destruct (isValid (validateRollbackHeight targetHeight (currentHeight svc)))
    eqn:Ev; cbn [negb].
  - right. destruct targetHeight as [target|]; [|discriminate].
    destruct (rollbackToHeight_unit (svc_db svc) target) as [c|e] eqn:Eu.
    + right. exists target, c. repeat split; assumption.
    + left. exists target, e. repeat split; try assumption.
      now destruct svc.
  - left. split; reflexivity.
Qed.

Lemma rollbackToHeight_atomic db targetHeight e :
  snd (rollbackToHeight db targetHeight) = Some e ->
  fst (rollbackToHeight db targetHeight) = db.
Proof.
  unfold rollbackToHeight.
  destruct (rollbackToHeight_unit db targetHeight);
    [discriminate | reflexivity].
Qed.

(** C6. A [POST /blocks] or [POST /rollback] that does not answer 200
    leaves the store and the height exactly as they were.  That is the case
    when the validation refuses the request (400) and when the storage unit
    throws (500): a block that passes the validation and whose unit throws,
    and a valid target whose unit throws, are answered 500 with the store
    and the height of before.  On 200 the store is the committed result of
    the unit and the height is [block.height], respectively the target. *)
Theorem failed_request_leaves_state_unchanged
  (sha256hex : string -> string) (svc : Service) (block : Block)
  (targetHeight : option Z) :
  (status (snd (post_blocks sha256hex svc block)) <> 200 ->
   fst (post_blocks sha256hex svc block) = svc) /\
  (forall e,
     isValid (validateBlock sha256hex svc block) = true ->
     snd (processBlock (svc_db svc) block) = Some e ->
     status (snd (post_blocks sha256hex svc block)) = 500 /\
     fst (post_blocks sha256hex svc block) = svc) /\
  (status (snd (post_blocks sha256hex svc block)) = 200 ->
   isValid (validateBlock sha256hex svc block) = true /\
   processBlock (svc_db svc) block
   = (svc_db (fst (post_blocks sha256hex svc block)), None) /\
   getCurrentHeight (fst (post_blocks sha256hex svc block))
   = block_height block) /\
  (status (snd (post_rollback svc targetHeight)) <> 200 ->
   fst (post_rollback svc targetHeight) = svc) /\
  (forall target e,
     targetHeight = Some target ->
     isValid (validateRollbackHeight targetHeight (getCurrentHeight svc))
     = true ->
     snd (rollbackToHeight (svc_db svc) target) = Some e ->
     status (snd (post_rollback svc targetHeight)) = 500 /\
     fst (post_rollback svc targetHeight) = svc) /\
  (status (snd (post_rollback svc targetHeight)) = 200 ->
   exists target,
     targetHeight = Some target /\
     isValid (validateRollbackHeight targetHeight (getCurrentHeight svc))
     = true /\
     rollbackToHeight (svc_db svc) target
     = (svc_db (fst (post_rollback svc targetHeight)), None) /\
     getCurrentHeight (fst (post_rollback svc targetHeight)) = target).
Proof.
  unfold getCurrentHeight.
  destruct (post_blocks_cases sha256hex svc block)
    as [(Hv & ->) | [(Hv & (e & He) & ->) | (Hv & db' & Hu & ->)]];
  destruct (post_rollback_cases svc targetHeight)
    as [(Hr & ->) | [(target & e' & -> & Hr & He' & ->)
                    | (target & c & -> & Hr & Hc & ->)]];
  cbn [fst snd status svc_db currentHeight];
  unfold processBlock, rollbackToHeight;
  repeat split; intros; try discriminate; try reflexivity;
    try congruence;
    try (rewrite Hu in *; cbn [fst snd] in *; congruence);
    try (match goal with
         | H : Some _ = Some ?t |- _ => injection H as <-
         end; rewrite Hc in *; cbn [fst snd] in *; congruence);
    try (exists target; rewrite Hc; repeat split; exact Hr).
Qed.

(** Block 2 of the first ledger passes the validation and its unit throws
    in the input loop; the rollback of the second ledger to height 1 is
    valid and its unit throws at the credit of the spent output. *)
Lemma failed_request_leaves_state_unchanged_witness :
  (validateBlock plain_digest service_g1 block_g2 = valid /\
   snd (processBlock (svc_db service_g1) block_g2)
   = Some (NumericValueOutOfRange "integer out of range") /\
   status (snd (post_blocks plain_digest service_g1 block_g2)) = 500 /\
   fst (post_blocks plain_digest service_g1 block_g2) = service_g1) /\
  (validateRollbackHeight (Some 1) (getCurrentHeight service_h2) = valid /\
   snd (rollbackToHeight (svc_db service_h2) 1)
   = Some (NumericValueOutOfRange "integer out of range") /\
   status (snd (post_rollback service_h2 (Some 1))) = 500 /\
   fst (post_rollback service_h2 (Some 1)) = service_h2) /\
  (validateBlock plain_digest (initialize empty_db) block_duplicate = valid /\
   snd (processBlock empty_db block_duplicate)
   = Some (UniqueViolation "transactions_pkey") /\
   fst (post_blocks plain_digest (initialize empty_db) block_duplicate)
   = initialize empty_db).
Proof.
  split; [|split].
  - split; [reflexivity|]. split; [reflexivity|].
    destruct (failed_request_leaves_state_unchanged plain_digest
                service_g1 block_g2 None) as (_ & H & _).
    apply (H (NumericValueOutOfRange "integer out of range"));
      reflexivity.
  - split; [reflexivity|]. split; [reflexivity|].
    destruct (failed_request_leaves_state_unchanged plain_digest
                service_h2 block_g2 (Some 1)) as (_ & _ & _ & _ & H & _).
    apply (H 1 (NumericValueOutOfRange "integer out of range"));
      reflexivity.
  - split; [reflexivity|]. split; [reflexivity|].
    destruct (failed_request_leaves_state_unchanged plain_digest
                (initialize empty_db) block_duplicate None) as (H & _).
    apply H. vm_compute. discriminate.
Defined.

(* ================================================================= *)
(** ** The session of a rollback when every statement is accepted *)

Lemma issue_fst s c : fst (issue_session s c) = exec s (fst c).
Proof. reflexivity. Qed.

Lemma issue_snd s c : snd (issue_session s c) = snd c ++ [s].
Proof. reflexivity. Qed.

(** The session after a list of statements. *)
Lemma fold_issue (stmts : list Stmt) (c : Session) :
  fold_left (fun c s => issue_session s c) stmts c
  = (fold_left (fun db s => exec s db) stmts (fst c), snd c ++ stmts).
Proof.
  revert c; induction stmts as [|s stmts IH]; intros c; cbn [fold_left].
  - rewrite app_nil_r. now destruct c.
  - rewrite IH, issue_fst, issue_snd, <- app_assoc. reflexivity.
Qed.

Lemma undoOutputs_issue outs c :
  fold_left undoOutput_session outs c
  = fold_left (fun c s => issue_session s c)
      (map (fun o => DebitBalance (otr_address o) (otr_value o)) outs) c.
Proof.
  revert c; induction outs as [|o outs IH]; intros c; cbn [fold_left map];
    [reflexivity | apply IH].
Qed.

Lemma exec_balance_or_flag s db :
  balance_or_flag s ->
  blocks (exec s db) = blocks db /\
  transactions (exec s db) = transactions db /\
  transaction_inputs (exec s db) = transaction_inputs db /\
  map forget_spent (transaction_outputs (exec s db))
  = map forget_spent (transaction_outputs db).
Proof.
  destruct s; cbn [balance_or_flag]; intros H; try destruct H;
    cbn [exec update_balance update_is_spent blocks transactions
         transaction_inputs transaction_outputs]; repeat split.
  rewrite map_map. apply map_ext. intros r. apply forget_spent_set_spent.
Qed.

Lemma fold_exec_balance_or_flag stmts db :
  Forall balance_or_flag stmts ->
  let db' := fold_left (fun db s => exec s db) stmts db in
  blocks db' = blocks db /\
  transactions db' = transactions db /\
  transaction_inputs db' = transaction_inputs db /\
  map forget_spent (transaction_outputs db')
  = map forget_spent (transaction_outputs db).
Proof.
  revert db; induction stmts as [|s stmts IH]; intros db H; cbn [fold_left].
  - repeat split.
  - inversion H as [|? ? Hs Hrest]; subst.
    destruct (exec_balance_or_flag s db Hs) as (E1 & E2 & E3 & E4).
    destruct (IH (exec s db) Hrest) as (F1 & F2 & F3 & F4).
    cbv zeta. repeat split; congruence.
Qed.

Lemma input_undo_forget_spent db db' input :
  map forget_spent (transaction_outputs db)
  = map forget_spent (transaction_outputs db') ->
  input_undo db input = input_undo db' input.
Proof.
  intros H. unfold input_undo, select_output.
  pose proof (filter_forget_spent
                (output_at (inr_input_tx_id input) (inr_input_index input))
                _ _ (output_at_forget_spent _ _) H) as Hf.
  destruct (filter _ (transaction_outputs db)) as [|r l];
    destruct (filter _ (transaction_outputs db')) as [|r' l'];
    try discriminate; [reflexivity|].
  cbn [map] in Hf.
  assert (forget_spent r = forget_spent r') as Hr by congruence.
  unfold forget_spent in Hr.
  replace (otr_address r') with (otr_address r) by congruence.
  replace (otr_value r') with (otr_value r) by congruence.
  reflexivity.
Qed.

Lemma undoInput_issue c input :
  undoInput_session c input
  = fold_left (fun c s => issue_session s c) (input_undo (fst c) input) c.
Proof.
  unfold undoInput_session, input_undo.
  destruct (select_output _ _ _); reflexivity.
Qed.

Lemma input_undo_balance_or_flag db input :
  Forall balance_or_flag (input_undo db input).
Proof.
  unfold input_undo. destruct (select_output _ _ _); repeat constructor.
Qed.

Lemma undoInputs_issue db0 ins c :
  map forget_spent (transaction_outputs (fst c))
  = map forget_spent (transaction_outputs db0) ->
  fold_left undoInput_session ins c
  = fold_left (fun c s => issue_session s c) (flat_map (input_undo db0) ins) c.
Proof.
  revert c; induction ins as [|i ins IH]; intros c H;
    cbn [fold_left flat_map]; [reflexivity|].
  rewrite fold_left_app, undoInput_issue.
  rewrite (input_undo_forget_spent _ _ _ H).
  apply IH. rewrite fold_issue. cbn [fst].
  destruct (fold_exec_balance_or_flag _ (fst c)
              (input_undo_balance_or_flag db0 i)) as (_ & _ & _ & E).
  congruence.
Qed.

(** [rollbackTransaction_session] issues exactly [transaction_undo], read
    off the store in which it starts. *)
Lemma rollbackTransaction_issue c txId :
  rollbackTransaction_session c txId
  = fold_left (fun c s => issue_session s c) (transaction_undo (fst c) txId) c.
Proof.
  unfold rollbackTransaction_session, transaction_undo.
  rewrite !fold_left_app. cbn [fold_left].
  rewrite undoOutputs_issue.
  set (debits := map _ (filter (output_of txId) _)).
  assert (Forall balance_or_flag debits) as Hd.
  { subst debits. apply Forall_forall. intros s Hs.
    apply in_map_iff in Hs. destruct Hs as (o & <- & _). exact I. }
  destruct (fold_exec_balance_or_flag _ (fst c) Hd) as (_ & _ & E3 & E4).
  set (c1 := fold_left (fun c s => issue_session s c) debits c).
  assert (fst c1 = fold_left (fun db s => exec s db) debits (fst c)) as Ec1
    by (subst c1; rewrite fold_issue; reflexivity).
  rewrite <- Ec1 in E3, E4. rewrite E3.
  rewrite (undoInputs_issue (fst c) _ c1 E4). reflexivity.
Qed.

(* ----------------------------------------------------------------- *)
(** *** List facts *)

Lemma filter_filter {A} (p q : A -> bool) l :
  filter q (filter p l) = filter (fun x => p x && q x) l.
Proof.
  induction l as [|x l IH]; cbn [filter]; [reflexivity|].
  destruct (p x); cbn [filter andb]; [destruct (q x)|]; now rewrite IH.
Qed.

Lemma NoDup_map_filter {A B} (f : A -> B) (p : A -> bool) l :
  NoDup (map f l) -> NoDup (map f (filter p l)).
Proof.
  induction l as [|x l IH]; cbn [map filter]; intros H; [constructor|].
  inversion H as [|? ? Hx Hl]; subst.
  destruct (p x); cbn [map]; [constructor|]; auto.
  intros Hin. apply Hx. apply in_map_iff in Hin.
  destruct Hin as (y & Hy & Hin). apply filter_In in Hin.
  apply in_map_iff. exists y. tauto.
Qed.

Lemma NoDup_map_eq {A B} (f : A -> B) l a b :
  NoDup (map f l) -> In a l -> In b l -> f a = f b -> a = b.
Proof.
  induction l as [|x l IH]; cbn [map]; intros H Ha Hb E; [destruct Ha|].
  inversion H as [|? ? Hx Hl]; subst.
  destruct Ha as [-> | Ha], Hb as [-> | Hb]; auto.
  - exfalso. apply Hx. rewrite E. now apply in_map.
  - exfalso. apply Hx. rewrite <- E. now apply in_map.
Qed.

Lemma flat_map_ext_In {A B} (f g : A -> list B) l :
  (forall x, In x l -> f x = g x) -> flat_map f l = flat_map g l.
Proof.
  induction l as [|x l IH]; intros H; cbn [flat_map]; [reflexivity|].
  rewrite (H x) by now left. f_equal. apply IH. intros y Hy. apply H.
  now right.
Qed.

(* ----------------------------------------------------------------- *)
(** *** [ORDER BY height DESC] *)

Lemma insert_desc_perm b l : Permutation (insert_desc b l) (b :: l).
Proof.
  induction l as [|x l IH]; cbn [insert_desc]; [reflexivity|].
  destruct (blk_height x <? blk_height b); [reflexivity|].
  rewrite IH. apply perm_swap.
Qed.

Lemma order_by_height_desc_perm l : Permutation (order_by_height_desc l) l.
Proof.
  induction l as [|x l IH]; cbn [order_by_height_desc fold_right];
    [reflexivity|].
  rewrite insert_desc_perm. now constructor.
Qed.

Lemma insert_desc_sorted b l :
  StronglySorted height_ge l -> StronglySorted height_ge (insert_desc b l).
Proof.
  induction 1 as [|x l Hl IH Hx]; cbn [insert_desc].
  - repeat constructor.
  - destruct (Z.ltb_spec (blk_height x) (blk_height b)) as [Hlt | Hge].
    + constructor; [now constructor|].
      constructor; [unfold height_ge; lia|].
      eapply Forall_impl; [|exact Hx]. unfold height_ge. intros; lia.
    + constructor; [exact IH|].
      rewrite insert_desc_perm. constructor; [exact Hge | exact Hx].
Qed.

Lemma order_by_height_desc_sorted l :
  StronglySorted height_ge (order_by_height_desc l).
Proof.
  induction l as [|x l IH]; cbn [order_by_height_desc fold_right].
  - constructor.
  - apply insert_desc_sorted, IH.
Qed.

(* ----------------------------------------------------------------- *)
(** *** Transactions and blocks under a rollback *)

Lemma deletions_balance_or_flag stmts :
  Forall balance_or_flag stmts -> deletions stmts = [].
Proof.
  induction 1 as [|s stmts Hs _ IH]; [reflexivity|].
  unfold deletions in *. cbn [filter].
  destruct s; cbn [balance_or_flag] in Hs; try destruct Hs; exact IH.
Qed.

Lemma transaction_undo_split db txId :
  exists pre,
    Forall balance_or_flag pre /\
    transaction_undo db txId
    = pre ++ [DeleteInputs txId; DeleteOutputs txId; DeleteTransaction txId].
Proof.
  unfold transaction_undo. rewrite app_assoc. eexists. split; [|reflexivity].
  apply Forall_app. split.
  - apply Forall_forall. intros s Hs. apply in_map_iff in Hs.
    destruct Hs as (o & <- & _). exact I.
  - apply Forall_flat_map. apply Forall_forall. intros i _.
    apply input_undo_balance_or_flag.
Qed.

Lemma rollbackTransaction_tables c txId :
  blocks (fst (rollbackTransaction_session c txId)) = blocks (fst c) /\
  transactions (fst (rollbackTransaction_session c txId))
  = filter (fun r => negb (String.eqb (txr_id r) txId)) (transactions (fst c)) /\
  deletions (snd (rollbackTransaction_session c txId))
  = deletions (snd c) ++ [DeleteTransaction txId].
Proof.
  rewrite rollbackTransaction_issue, fold_issue. cbn [fst snd].
  destruct (transaction_undo_split (fst c) txId) as (pre & Hpre & ->).
  rewrite fold_left_app. cbn [fold_left].
  destruct (fold_exec_balance_or_flag pre (fst c) Hpre) as (E1 & E2 & _).
  cbn [exec blocks transactions]. rewrite E1, E2.
  repeat split.
  unfold deletions. rewrite !filter_app.
  fold (deletions pre). rewrite (deletions_balance_or_flag pre Hpre).
  reflexivity.
Qed.

Lemma fold_rollbackTransaction_tables ids c :
  let c' := fold_left rollbackTransaction_session ids c in
  blocks (fst c') = blocks (fst c) /\
  transactions (fst c')
  = filter (fun r => negb (existsb (String.eqb (txr_id r)) ids))
           (transactions (fst c)) /\
  deletions (snd c') = deletions (snd c) ++ map DeleteTransaction ids.
Proof.
  revert c; induction ids as [|t ids IH]; intros c; cbv zeta;
    cbn [fold_left existsb map].
  - rewrite app_nil_r. repeat split.
    induction (transactions (fst c)) as [|r l IHl]; cbn [filter negb];
      [reflexivity | now f_equal].
  - destruct (rollbackTransaction_tables c t) as (E1 & E2 & E3).
    destruct (IH (rollbackTransaction_session c t)) as (F1 & F2 & F3).
    rewrite F1, F2, F3, E1, E2, E3, filter_filter, <- app_assoc.
    repeat split. apply filter_ext. intros r. now rewrite negb_orb.
Qed.

Lemma rollbackBlock_tables c block :
  NoDup (map txr_id (transactions (fst c))) ->
  blocks (fst (rollbackBlock_session c block))
  = filter (fun r => negb (String.eqb (blk_id r) (blk_id block)))
           (blocks (fst c)) /\
  transactions (fst (rollbackBlock_session c block))
  = filter (fun r => negb (String.eqb (txr_block_id r) (blk_id block)))
           (transactions (fst c)) /\
  deletions (snd (rollbackBlock_session c block))
  = deletions (snd c) ++ block_undo_order (fst c) block.
Proof.
  intros Hnd. unfold rollbackBlock_session. rewrite issue_fst, issue_snd.
  destruct (fold_rollbackTransaction_tables
              (select_transaction_ids (fst c) (blk_id block)) c)
    as (E1 & E2 & E3).
  cbn [exec blocks transactions]. rewrite E1, E2.
  split; [reflexivity|]. split.
  - apply filter_ext_in. intros r Hr. f_equal.
    unfold select_transaction_ids.
    destruct (String.eqb (txr_block_id r) (blk_id block)) eqn:E.
    + apply existsb_exists. exists (txr_id r). split.
      * apply in_map. apply filter_In. now split.
      * apply String.eqb_refl.
    + destruct (existsb _ _) eqn:Ex; [|reflexivity].
      apply existsb_exists in Ex. destruct Ex as (x & Hx & Heq).
      apply String.eqb_eq in Heq. apply in_map_iff in Hx.
      destruct Hx as (r' & Hid & Hr'). apply filter_In in Hr'.
      destruct Hr' as (Hin & Hb).
      assert (r = r') by (eapply NoDup_map_eq; eauto; congruence).
      subst r'. congruence.
  - unfold deletions in *. rewrite filter_app. fold (deletions (snd c)).
    unfold deletions in E3. rewrite E3. unfold block_undo_order.
    cbn [filter is_deletion]. now rewrite <- app_assoc.
Qed.

Lemma select_transaction_ids_other c block id :
  NoDup (map txr_id (transactions (fst c))) ->
  blk_id block <> id ->
  select_transaction_ids (fst (rollbackBlock_session c block)) id
  = select_transaction_ids (fst c) id.
Proof.
  intros Hnd Hne. unfold select_transaction_ids.
  destruct (rollbackBlock_tables c block Hnd) as (_ & -> & _).
  rewrite filter_filter. f_equal. apply filter_ext. intros r.
  destruct (String.eqb_spec (txr_block_id r) id) as [-> | Hn].
  - apply String.eqb_neq in Hne. rewrite String.eqb_sym, Hne. reflexivity.
  - apply andb_false_r.
Qed.

Lemma fold_rollbackBlock_deletions bs c :
  NoDup (map txr_id (transactions (fst c))) ->
  NoDup (map blk_id bs) ->
  deletions (snd (fold_left rollbackBlock_session bs c))
  = deletions (snd c) ++ flat_map (block_undo_order (fst c)) bs.
Proof.
  revert c; induction bs as [|b bs IH]; intros c Htx Hbs;
    cbn [fold_left flat_map map] in *.
  - now rewrite app_nil_r.
  - inversion Hbs as [|? ? Hb Hrest]; subst.
    destruct (rollbackBlock_tables c b Htx) as (_ & E2 & E3).
    rewrite IH; [|rewrite E2; now apply NoDup_map_filter | exact Hrest].
    rewrite E3, <- app_assoc. do 2 f_equal.
    apply flat_map_ext_In. intros b' Hb'. unfold block_undo_order.
    rewrite select_transaction_ids_other; [reflexivity | exact Htx |].
    intros Heq. apply Hb. rewrite Heq. now apply in_map.
Qed.

Lemma replays_issues db0 stmts c :
  replays db0 c -> replays db0 (fold_left (fun c s => issue_session s c) stmts c).
Proof.
  unfold replays. intros H. rewrite fold_issue. cbn [fst snd].
  now rewrite fold_left_app, <- H.
Qed.

Lemma replays_rollbackTransactions db0 ids c :
  replays db0 c -> replays db0 (fold_left rollbackTransaction_session ids c).
Proof.
  revert c; induction ids as [|t ids IH]; intros c H; cbn [fold_left];
    [exact H|].
  apply IH. rewrite rollbackTransaction_issue. now apply replays_issues.
Qed.

Lemma replays_rollbackBlocks db0 bs c :
  replays db0 c -> replays db0 (fold_left rollbackBlock_session bs c).
Proof.
  revert c; induction bs as [|b bs IH]; intros c H; cbn [fold_left];
    [exact H|].
  apply IH. unfold rollbackBlock_session.
  apply (replays_issues db0 [DeleteBlock (blk_id b)]).
  now apply replays_rollbackTransactions.
Qed.

(* ================================================================= *)
(** ** The unit of [rollbackToHeight] and the statements it runs *)

Lemma exec_checked_ok s db db' : exec_checked s db = Ok db' -> db' = exec s db.
Proof.
  destruct s; cbn [exec_checked exec];
    try (now intros H; injection H as <-);
    apply update_balance_checked_ok.
Qed.

Lemma issue_ok s c c' : issue s c = Ok c' -> c' = issue_session s c.
Proof.
  unfold issue, issue_session. intros H. apply bind_ok in H.
  destruct H as (db' & H1 & H2). apply exec_checked_ok in H1. subst db'.
  now injection H2 as <-.
Qed.

Lemma run_ok stmts c c' :
  run stmts c = Ok c' -> c' = fold_left (fun c s => issue_session s c) stmts c.
Proof.
  unfold run. apply for_each_fold. intros s x s'. apply issue_ok.
Qed.

Lemma run_app stmts1 stmts2 c :
  run (stmts1 ++ stmts2) c = (c1 <- run stmts1 c ;; run stmts2 c1).
Proof. apply for_each_app. Qed.

Lemma run_execute stmts c :
  run stmts c = (db' <- execute stmts (fst c) ;; Ok (db', snd c ++ stmts)).
Proof.
  unfold run, execute. revert c; induction stmts as [|s stmts IH]; intros c;
    cbn [for_each bind].
  - rewrite app_nil_r. now destruct c.
  - unfold issue at 1. destruct (exec_checked s (fst c)) as [db1|e];
      cbn [bind]; [|reflexivity].
    rewrite IH. cbn [fst snd]. now rewrite <- app_assoc.
Qed.

(** A loop whose body runs a list of statements runs the concatenation of
    those lists; the accepted session tells which. *)
Lemma for_each_runs {A} (F : Session -> A -> result Session)
  (Fs : Session -> A -> Session) (xs : list A) (c : Session) :
  (forall c x, exists stmts,
      Fs c x = fold_left (fun c s => issue_session s c) stmts c /\
      F c x = run stmts c) ->
  exists stmts,
    fold_left Fs xs c = fold_left (fun c s => issue_session s c) stmts c /\
    for_each F xs c = run stmts c.
Proof.
  intros Hbody. revert c; induction xs as [|x xs IH]; intros c;
    cbn [for_each fold_left].
  - exists []. split; reflexivity.
  - destruct (Hbody c x) as (l & Hs & Hr).
    destruct (IH (Fs c x)) as (l' & Hs' & Hr').
    exists (l ++ l'). rewrite fold_left_app, <- Hs, run_app, Hr.
    split; [exact Hs'|].
    destruct (run l c) as [c1|e] eqn:E; cbn [bind]; [|reflexivity].
    apply run_ok in E. rewrite <- Hs in E. now subst c1.
Qed.

Lemma undoOutput_runs c output :
  exists stmts,
    undoOutput_session c output
    = fold_left (fun c s => issue_session s c) stmts c /\
    undoOutput c output = run stmts c.
Proof.
  exists [DebitBalance (otr_address output) (otr_value output)].
  unfold undoOutput, run. cbn [for_each fold_left].
  split; [reflexivity|]. now destruct (issue _ c).
Qed.

Lemma undoInput_runs c input :
  exists stmts,
    undoInput_session c input
    = fold_left (fun c s => issue_session s c) stmts c /\
    undoInput c input = run stmts c.
Proof.
  exists (input_undo (fst c) input).
  rewrite undoInput_issue. split; [reflexivity|].
  unfold undoInput, input_undo, run.
  destruct (select_output _ _ _) as [|r rest]; cbn [for_each];
    [reflexivity|].
  destruct (issue (MarkUnspent _ _) c) as [c1|e]; cbn [bind]; [|reflexivity].
  now destruct (issue _ c1).
Qed.

Lemma bind_runs (F G : Session -> result Session) (Fs Gs : Session -> Session)
  (c : Session) :
  (exists stmts,
      Fs c = fold_left (fun c s => issue_session s c) stmts c /\
      F c = run stmts c) ->
  (forall c1, exists stmts,
      Gs c1 = fold_left (fun c s => issue_session s c) stmts c1 /\
      G c1 = run stmts c1) ->
  exists stmts,
    Gs (Fs c) = fold_left (fun c s => issue_session s c) stmts c /\
    (c1 <- F c ;; G c1) = run stmts c.
Proof.
  intros (l & Hs & Hr) HG. destruct (HG (Fs c)) as (l' & Hs' & Hr').
  exists (l ++ l'). rewrite fold_left_app, <- Hs, run_app, Hr.
  split; [exact Hs'|].
  destruct (run l c) as [c1|e] eqn:E; cbn [bind]; [|reflexivity].
  apply run_ok in E. rewrite <- Hs in E. now subst c1.
Qed.

Lemma issue_runs s c :
  exists stmts,
    issue_session s c = fold_left (fun c s => issue_session s c) stmts c /\
    issue s c = run stmts c.
Proof.
  exists [s]. unfold run. cbn [for_each fold_left].
  split; [reflexivity|]. now destruct (issue s c).
Qed.

Lemma rollbackTransaction_runs c txId :
  exists stmts,
    rollbackTransaction_session c txId
    = fold_left (fun c s => issue_session s c) stmts c /\
    rollbackTransaction c txId = run stmts c.
Proof.
  unfold rollbackTransaction, rollbackTransaction_session.
  apply (bind_runs
           (fun c => for_each undoOutput
                       (filter (output_of txId) (transaction_outputs (fst c)))
                       c)
           _
           (fun c => fold_left undoOutput_session
                       (filter (output_of txId) (transaction_outputs (fst c)))
                       c)
           (fun c1 =>
              issue_session (DeleteTransaction txId)
                (issue_session (DeleteOutputs txId)
                   (issue_session (DeleteInputs txId)
                      (fold_left undoInput_session
                         (filter (input_of txId) (transaction_inputs (fst c1)))
                         c1))))).
  - apply for_each_runs. apply undoOutput_runs.
  - intros c1.
    apply (bind_runs
             (fun c1 => for_each undoInput
                          (filter (input_of txId)
                                  (transaction_inputs (fst c1))) c1)
             _
             (fun c1 => fold_left undoInput_session
                          (filter (input_of txId)
                                  (transaction_inputs (fst c1))) c1)
             (fun c2 =>
                issue_session (DeleteTransaction txId)
                  (issue_session (DeleteOutputs txId)
                     (issue_session (DeleteInputs txId) c2)))).
    + apply for_each_runs. apply undoInput_runs.
    + intros c2.
      apply (bind_runs (issue (DeleteInputs txId)) _
                       (issue_session (DeleteInputs txId))
                       (fun c3 => issue_session (DeleteTransaction txId)
                                    (issue_session (DeleteOutputs txId) c3)));
        [apply issue_runs|].
      intros c3.
      apply (bind_runs (issue (DeleteOutputs txId)) _
                       (issue_session (DeleteOutputs txId))
                       (issue_session (DeleteTransaction txId)));
        [apply issue_runs | intros c4; apply issue_runs].
Qed.

Lemma rollbackBlock_runs c block :
  exists stmts,
    rollbackBlock_session c block
    = fold_left (fun c s => issue_session s c) stmts c /\
    rollbackBlock c block = run stmts c.
Proof.
  unfold rollbackBlock, rollbackBlock_session.
  apply (bind_runs
           (fun c => for_each rollbackTransaction
                       (select_transaction_ids (fst c) (blk_id block)) c)
           _
           (fun c => fold_left rollbackTransaction_session
                       (select_transaction_ids (fst c) (blk_id block)) c)
           (issue_session (DeleteBlock (blk_id block)))).
  - apply for_each_runs. apply rollbackTransaction_runs.
  - intros c1. apply issue_runs.
Qed.

(** The unit runs, statement by statement, the statements of the accepted
    session. *)
Lemma rollbackToHeight_unit_runs db targetHeight :
  in_int4 targetHeight = true ->
  rollbackToHeight_unit db targetHeight
  = run (snd (rollbackToHeight_session db targetHeight)) (db, []).
Proof.
  intros Hr. unfold rollbackToHeight_unit, rollbackToHeight_session.
  rewrite (int4_in_range _ Hr). cbn [bind].
  destruct (for_each_runs rollbackBlock rollbackBlock_session
              (select_blocks_above db targetHeight) (db, [])
              rollbackBlock_runs) as (stmts & Hs & ->).
  rewrite Hs, fold_issue. reflexivity.
Qed.

Lemma rollbackToHeight_session_replays db targetHeight :
  fst (rollbackToHeight_session db targetHeight)
  = fold_left (fun db s => exec s db)
              (snd (rollbackToHeight_session db targetHeight)) db.
Proof.
  apply (replays_rollbackBlocks db). reflexivity.
Qed.

Lemma rollbackToHeight_unit_ok db targetHeight c :
  rollbackToHeight_unit db targetHeight = Ok c ->
  c = rollbackToHeight_session db targetHeight.
Proof.
  intros H.
  assert (in_int4 targetHeight = true) as Hr.
  { unfold rollbackToHeight_unit in H. apply bind_ok in H.
    destruct H as (z & Hz & _). now apply int4_ok in Hz. }
  rewrite (rollbackToHeight_unit_runs _ _ Hr) in H. apply run_ok in H.
  rewrite fold_issue in H. cbn [fst snd app] in H.
  rewrite <- rollbackToHeight_session_replays in H. subst c.
  now destruct (rollbackToHeight_session db targetHeight).
Qed.

Lemma rollbackToHeight_commit db targetHeight :
  snd (rollbackToHeight db targetHeight) = None ->
  fst (rollbackToHeight db targetHeight)
  = fst (rollbackToHeight_session db targetHeight).
Proof.
  unfold rollbackToHeight.
  destruct (rollbackToHeight_unit db targetHeight) as [c|e] eqn:E;
    [|discriminate].
  intros _. apply rollbackToHeight_unit_ok in E. now subst c.
Qed.

Lemma rollbackToHeight_fst db targetHeight :
  fst (rollbackToHeight db targetHeight) = db \/
  (snd (rollbackToHeight db targetHeight) = None /\
   fst (rollbackToHeight db targetHeight)
   = fst (rollbackToHeight_session db targetHeight)).
Proof.
  destruct (snd (rollbackToHeight db targetHeight)) as [e|] eqn:E.
  - left. now apply (rollbackToHeight_atomic db targetHeight e).
  - right. split; [reflexivity|]. now apply rollbackToHeight_commit.
Qed.

Lemma rollbackToHeight_executes db targetHeight :
  rollbackToHeight db targetHeight
  = if in_int4 targetHeight
    then match execute (snd (rollbackToHeight_session db targetHeight)) db with
         | Ok db' => (db', None)
         | Err e => (db, Some e)
         end
    else (db, Some (NumericValueOutOfRange
                      (out_of_range_message targetHeight))).
Proof.
  unfold rollbackToHeight.
  destruct (in_int4 targetHeight) eqn:Hr.
  - rewrite (rollbackToHeight_unit_runs _ _ Hr), run_execute. cbn [fst snd].
    now destruct (execute _ db).
  - unfold rollbackToHeight_unit, int4. rewrite Hr. reflexivity.
Qed.

(* ----------------------------------------------------------------- *)
(** *** More list facts *)

Lemma filter_none {A} (p : A -> bool) l :
  existsb p l = false -> filter p l = [].
Proof.
  induction l as [|x l IH]; cbn [existsb filter]; [reflexivity|].
  destruct (p x); cbn [orb]; [discriminate | exact IH].
Qed.

Lemma filter_all {A} (p : A -> bool) l :
  (forall x, In x l -> p x = true) -> filter p l = l.
Proof.
  induction l as [|x l IH]; intros H; cbn [filter]; [reflexivity|].
  rewrite (H x) by now left. f_equal. apply IH. intros y Hy. apply H.
  now right.
Qed.

Lemma filter_nothing {A} (p : A -> bool) l :
  (forall x, In x l -> p x = false) -> filter p l = [].
Proof.
  induction l as [|x l IH]; intros H; cbn [filter]; [reflexivity|].
  rewrite (H x) by now left. apply IH. intros y Hy. apply H. now right.
Qed.

Lemma filter_all_true {A} (l : list A) :
  filter (fun _ => negb false) l = l.
Proof.
  induction l as [|x l IH]; [reflexivity|]. cbn [filter negb]. now f_equal.
Qed.

Lemma filter_all_false {A} (l : list A) : filter (fun _ => false) l = [].
Proof. induction l as [|x l IH]; [reflexivity | exact IH]. Qed.

Lemma filter_negb_none {A} (p : A -> bool) l :
  filter p l = [] -> filter (fun x => negb (p x)) l = l.
Proof.
  induction l as [|x l IH]; cbn [filter]; [reflexivity|].
  destruct (p x); [discriminate|]. cbn [negb]. intros H. now rewrite IH.
Qed.

Lemma bool_eq_of_iff (a b : bool) : (a = true <-> b = true) -> a = b.
Proof. destruct a, b; intuition congruence. Qed.

Lemma map_eq_In {A B} (f : A -> B) l l' x :
  map f l = map f l' -> In x l -> exists y, In y l' /\ f y = f x.
Proof.
  intros E Hin. assert (In (f x) (map f l')) as H
    by (rewrite <- E; now apply in_map).
  apply in_map_iff in H. destruct H as (y & Hy & Hin'). now exists y.
Qed.

Lemma mem_In x l : mem x l = true <-> In x l.
Proof.
  unfold mem. rewrite existsb_exists. split.
  - intros (y & Hy & E). apply String.eqb_eq in E. now subst.
  - intros H. exists x. split; [exact H | apply String.eqb_refl].
Qed.

Lemma In_select_transaction_ids db blockId x :
  In x (select_transaction_ids db blockId) <->
  exists r, In r (transactions db) /\ txr_id r = x /\ txr_block_id r = blockId.
Proof.
  unfold select_transaction_ids. rewrite in_map_iff. split.
  - intros (r & E & Hr). apply filter_In in Hr. destruct Hr as (Hr & Hm).
    apply String.eqb_eq in Hm. now exists r.
  - intros (r & Hr & E & Hm). exists r. split; [exact E|].
    apply filter_In. split; [exact Hr | now apply String.eqb_eq].
Qed.

Lemma rollbackTransaction_rows c txId :
  transaction_inputs (fst (rollbackTransaction_session c txId))
  = filter (fun r => negb (input_of txId r)) (transaction_inputs (fst c)) /\
  map forget_spent (transaction_outputs (fst (rollbackTransaction_session c txId)))
  = map forget_spent
        (filter (fun r => negb (output_of txId r))
                (transaction_outputs (fst c))).
Proof.
  rewrite rollbackTransaction_issue, fold_issue. cbn [fst].
  destruct (transaction_undo_split (fst c) txId) as (pre & Hpre & ->).
  rewrite fold_left_app. cbn [fold_left].
  destruct (fold_exec_balance_or_flag pre (fst c) Hpre) as (_ & _ & E3 & E4).
  cbn [exec transaction_inputs transaction_outputs]. rewrite E3.
  split; [reflexivity|].
  apply filter_forget_spent; [|exact E4].
  intros r r' H. now rewrite (output_of_forget_spent txId r r' H).
Qed.

(* ================================================================= *)
(** ** The statements of a rollback, read off the store at [BEGIN] *)

Lemma mem_app x l1 l2 : mem x (l1 ++ l2) = mem x l1 || mem x l2.
Proof. unfold mem. apply existsb_app. Qed.

Lemma mem_snoc x l t : mem x (l ++ [t]) = mem x l || String.eqb x t.
Proof.
  rewrite mem_app. unfold mem at 2. cbn [existsb]. now rewrite orb_false_r.
Qed.

Lemma left_after_nil db : left_after db [] db.
Proof.
  unfold left_after, mem. cbn [existsb negb].
  rewrite !filter_all by reflexivity. repeat split.
Qed.

Lemma debits_forget_spent l1 l2 :
  map forget_spent l1 = map forget_spent l2 ->
  map (fun o => DebitBalance (otr_address o) (otr_value o)) l1
  = map (fun o => DebitBalance (otr_address o) (otr_value o)) l2.
Proof.
  revert l2; induction l1 as [|r l1 IH]; intros [|r' l2] H;
    try discriminate; [reflexivity|].
  cbn [map] in *.
  assert (forget_spent r = forget_spent r') as Hr by congruence.
  apply forget_spent_fields in Hr. destruct Hr as (_ & -> & -> & _).
  f_equal. apply IH. congruence.
Qed.

Lemma input_undo_left_after db gone cur input :
  left_after db gone cur ->
  input_undo cur input = input_undo_after gone db input.
Proof.
  intros (_ & _ & O). unfold input_undo, input_undo_after.
  assert (map forget_spent
            (select_output cur (inr_input_tx_id input) (inr_input_index input))
          = map forget_spent
              (filter (fun r => negb (mem (otr_transaction_id r) gone))
                 (select_output db (inr_input_tx_id input)
                                (inr_input_index input)))) as Hf.
  { unfold select_output.
    rewrite (filter_forget_spent _ _ _ (output_at_forget_spent _ _) O).
    f_equal. rewrite !filter_filter. apply filter_ext. intros r.
    apply andb_comm. }
  destruct (select_output cur _ _) as [|r l];
    destruct (filter _ (select_output db _ _)) as [|r' l'];
    try discriminate; [reflexivity|].
  cbn [map] in Hf.
  assert (forget_spent r = forget_spent r') as Hr by congruence.
  apply forget_spent_fields in Hr. now destruct Hr as (_ & -> & -> & _).
Qed.

(** Undoing a transaction issues what [transaction_undo_after] reads off
    the store at [BEGIN]. *)
Lemma transaction_undo_left_after db gone cur txId :
  left_after db gone cur -> mem txId gone = false ->
  transaction_undo cur txId = transaction_undo_after gone db txId.
Proof.
  intros H Hm. pose proof H as (_ & I & O).
  unfold transaction_undo, transaction_undo_after. f_equal; [|f_equal].
  - apply debits_forget_spent.
    rewrite (filter_forget_spent _ _ _ (output_of_forget_spent txId) O).
    f_equal. rewrite filter_filter. apply filter_ext. intros r.
    unfold output_of.
    destruct (String.eqb_spec (otr_transaction_id r) txId) as [-> | Hne];
      [now rewrite Hm | apply andb_false_r].
  - rewrite I, filter_filter.
    rewrite (filter_ext _ (input_of txId)).
    + apply flat_map_ext. intros i. now apply input_undo_left_after.
    + intros r. unfold input_of.
      destruct (String.eqb_spec (inr_transaction_id r) txId) as [-> | Hne];
        [now rewrite Hm | apply andb_false_r].
Qed.

Lemma rollbackTransaction_left_after db gone c txId :
  left_after db gone (fst c) ->
  left_after db (gone ++ [txId]) (fst (rollbackTransaction_session c txId)).
Proof.
  intros (T & I & O).
  destruct (rollbackTransaction_tables c txId) as (_ & T1 & _).
  destruct (rollbackTransaction_rows c txId) as (I1 & O1).
  repeat split.
  - rewrite T1, T, filter_filter. apply filter_ext. intros r.
    now rewrite mem_snoc, negb_orb.
  - rewrite I1, I, filter_filter. apply filter_ext. intros r.
    now rewrite mem_snoc, negb_orb.
  - rewrite O1.
    rewrite (filter_forget_spent (fun r => negb (output_of txId r)) _ _
               (fun r r' E => f_equal negb (output_of_forget_spent txId r r' E))
               O).
    f_equal. rewrite filter_filter. apply filter_ext. intros r.
    now rewrite mem_snoc, negb_orb.
Qed.

Lemma fold_rollbackTransaction_log db ids gone c :
  left_after db gone (fst c) -> NoDup ids ->
  (forall t, In t ids -> mem t gone = false) ->
  snd (fold_left rollbackTransaction_session ids c)
  = snd c ++ transactions_undo db gone ids /\
  left_after db (gone ++ ids)
             (fst (fold_left rollbackTransaction_session ids c)).
Proof.
  revert gone c; induction ids as [|t ids IH]; intros gone c H Hnd Hfresh;
    cbn [fold_left transactions_undo].
  - rewrite !app_nil_r. now split.
  - inversion Hnd as [|? ? Ht Hrest]; subst.
    destruct (IH (gone ++ [t]) (rollbackTransaction_session c t)) as (L & A).
    + now apply rollbackTransaction_left_after.
    + exact Hrest.
    + intros t' Ht'. rewrite mem_snoc, (Hfresh t' (or_intror Ht')).
      apply String.eqb_neq. intros ->. now apply Ht.
    + rewrite <- app_assoc in A. split; [|exact A].
      rewrite L, rollbackTransaction_issue, fold_issue. cbn [snd].
      rewrite (transaction_undo_left_after db gone (fst c) t H
                 (Hfresh t (or_introl eq_refl))).
      now rewrite <- app_assoc.
Qed.

Lemma rollbackBlock_log db gone c block :
  NoDup (map txr_id (transactions db)) ->
  left_after db gone (fst c) ->
  (forall r, In r (transactions db) -> txr_block_id r = blk_id block ->
             mem (txr_id r) gone = false) ->
  snd (rollbackBlock_session c block)
  = snd c ++ transactions_undo db gone
               (select_transaction_ids db (blk_id block))
    ++ [DeleteBlock (blk_id block)] /\
  left_after db (gone ++ select_transaction_ids db (blk_id block))
             (fst (rollbackBlock_session c block)).
Proof.
  intros Hnd H Hnot. unfold rollbackBlock_session.
  assert (select_transaction_ids (fst c) (blk_id block)
          = select_transaction_ids db (blk_id block)) as ->.
  { unfold select_transaction_ids. destruct H as (-> & _).
    rewrite filter_filter. f_equal. apply filter_ext_in. intros r Hr.
    destruct (String.eqb_spec (txr_block_id r) (blk_id block)) as [E | Hne];
      [now rewrite (Hnot r Hr E) | apply andb_false_r]. }
  destruct (fold_rollbackTransaction_log db
              (select_transaction_ids db (blk_id block)) gone c H)
    as (L & A).
  - unfold select_transaction_ids. now apply NoDup_map_filter.
  - intros t Ht. apply In_select_transaction_ids in Ht.
    destruct Ht as (r & Hr & <- & E). now apply Hnot.
  - rewrite issue_snd, issue_fst, L, <- app_assoc. split; [reflexivity|].
    exact A.
Qed.

Lemma fold_rollbackBlock_log db bs gone c :
  NoDup (map txr_id (transactions db)) -> NoDup (map blk_id bs) ->
  left_after db gone (fst c) ->
  (forall b r, In b bs -> In r (transactions db) ->
               txr_block_id r = blk_id b -> mem (txr_id r) gone = false) ->
  snd (fold_left rollbackBlock_session bs c) = snd c ++ blocks_undo db gone bs.
Proof.
  intros Hnd. revert gone c; induction bs as [|b bs IH];
    intros gone c Hbs H Hnot; cbn [fold_left blocks_undo map] in *.
  - now rewrite app_nil_r.
  - inversion Hbs as [|? ? Hb Hrest]; subst.
    destruct (rollbackBlock_log db gone c b Hnd H) as (L & A).
    { intros r Hr E. apply (Hnot b r); [now left | exact Hr | exact E]. }
    rewrite (IH _ _ Hrest A).
    + rewrite L, <- !app_assoc. reflexivity.
    + intros b' r Hb' Hr E.
      rewrite mem_app, (Hnot b' r (or_intror Hb') Hr E). cbn [orb]. destruct (mem (txr_id r) _) eqn:Em; [|reflexivity].
      exfalso. apply mem_In, In_select_transaction_ids in Em.
      destruct Em as (r' & Hr' & Eid & Eb).
      assert (r' = r) by (eapply NoDup_map_eq; eauto). subst r'.
      apply Hb. rewrite <- Eb, E. now apply in_map.
Qed.

(** The statements of the accepted session are those of [blocks_undo]. *)
Lemma rollbackToHeight_session_log db targetHeight :
  keys_unique db ->
  snd (rollbackToHeight_session db targetHeight)
  = blocks_undo db [] (select_blocks_above db targetHeight).
Proof.
  intros (Kb & Kt). unfold rollbackToHeight_session.
  rewrite (fold_rollbackBlock_log db _ [] (db, []) Kt); [reflexivity | | |].
  - eapply Permutation_NoDup.
    + apply Permutation_map. symmetry. apply order_by_height_desc_perm.
    + now apply NoDup_map_filter.
  - apply left_after_nil.
  - reflexivity.
Qed.

(** C4 (as the code has it). On a store whose primary keys hold,
    [rollbackToHeight] undoes the blocks above the target, each once, in
    descending height.  The unit runs the statements of [blocks_undo], one
    after the other; it commits with the store they leave, and it throws,
    leaving the store of before, at the first one that the store refuses.
    Those statements are, block by block: for each transaction of the block,
    in the order of the [transactions] table (the order in which they were
    applied), a debit per output row of the transaction; per input row whose
    referenced output is still stored at that moment, the reset of its spent
    flag and the credit of its value, and nothing for an input whose output
    is gone; the deletion of the input rows, of the output rows and of the
    transaction row; and, after the transactions, the deletion of the block
    row. *)
Theorem rollback_undoes_blocks_descending_transactions_in_table_order
  (db : Db) (targetHeight : Z) :
  keys_unique db ->
  let undone := select_blocks_above db targetHeight in
  let log := blocks_undo db [] undone in
  Permutation undone
    (filter (fun r => targetHeight <? blk_height r) (blocks db)) /\
  StronglySorted height_ge undone /\
  deletions log = flat_map (block_undo_order db) undone /\
  (in_int4 targetHeight = true ->
   rollbackToHeight_unit db targetHeight
   = (db' <- execute log db ;; Ok (db', log))) /\
  rollbackToHeight db targetHeight
  = (if in_int4 targetHeight
     then match execute log db with
          | Ok db' => (db', None)
          | Err e => (db, Some e)
          end
     else (db, Some (NumericValueOutOfRange
                       (out_of_range_message targetHeight)))).
Proof.
  intros Hk undone log.
  pose proof (rollbackToHeight_session_log db targetHeight Hk) as Hlog.
  fold undone in Hlog. fold log in Hlog.
  destruct Hk as (Hblocks & Htxs).
  assert (Permutation undone
            (filter (fun r => targetHeight <? blk_height r) (blocks db)))
    as Hperm by apply order_by_height_desc_perm.
  split; [exact Hperm|].
  split; [apply order_by_height_desc_sorted|].
  split; [|split].
  - rewrite <- Hlog. unfold rollbackToHeight_session.
    rewrite fold_rollbackBlock_deletions; [reflexivity | exact Htxs |].
    eapply Permutation_NoDup.
    + apply Permutation_map. symmetry. exact Hperm.
    + now apply NoDup_map_filter.
  - intros Hr. rewrite (rollbackToHeight_unit_runs _ _ Hr), run_execute.
    now rewrite Hlog.
  - rewrite rollbackToHeight_executes. now rewrite Hlog.
Qed.

Lemma rollback_undoes_blocks_descending_transactions_in_table_order_witness :
  keys_unique store_two /\
  rollbackToHeight_unit store_two 0
  = (db' <- execute (blocks_undo store_two []
                       (select_blocks_above store_two 0)) store_two ;;
     Ok (db', blocks_undo store_two [] (select_blocks_above store_two 0))).
Proof.
  assert (keys_unique store_two) as H.
  { split; vm_compute; repeat constructor; simpl; intuition discriminate. }
  split; [exact H|].
  destruct (rollback_undoes_blocks_descending_transactions_in_table_order
              store_two 0 H) as (_ & _ & _ & Hunit & _).
  apply Hunit. reflexivity.
Defined.

(** C4 (the claim on the code). [block_pair] applies p1 and then p2.
    Rolling the block back undoes p1 first and p2 second, which is not the
    reverse of the order of application.  And in [store_dangling] the
    transaction "td" has an input whose referenced output is not stored:
    undoing "td" resets no flag and credits nothing for that input.  And in
    the second ledger with large values, undoing block 2 would credit "A"
    beyond the range of [INTEGER]: the unit throws and both blocks stay. *)
Lemma rollback_keeps_apply_order_within_block :
  (processBlock empty_db block_pair = (store_pair, None) /\
   option_map (fun r => deletions (snd r))
     (match rollbackToHeight_unit store_pair 0 with
      | Ok c => Some c
      | Err _ => None
      end)
   = Some [DeleteTransaction "p1"; DeleteTransaction "p2"; DeleteBlock "bp"] /\
   deletions (snd (rollbackToHeight_session store_pair 0))
   = [DeleteTransaction "p1"; DeleteTransaction "p2"; DeleteBlock "bp"] /\
   reverse_of_apply_order block_pair
   = [DeleteTransaction "p2"; DeleteTransaction "p1"; DeleteBlock "bp"] /\
   deletions (snd (rollbackToHeight_session store_pair 0))
   <> reverse_of_apply_order block_pair) /\
  (processBlock empty_db block_dangling = (store_dangling, None) /\
   transaction_inputs store_dangling = [mkInputRow "td" "nope" 0] /\
   select_output store_dangling "nope" 0 = [] /\
   option_map snd
     (match rollbackToHeight_unit store_dangling 0 with
      | Ok c => Some c
      | Err _ => None
      end)
   = Some [DebitBalance "A" 7; DeleteInputs "td"; DeleteOutputs "td";
           DeleteTransaction "td"; DeleteBlock "bd"] /\
   snd (rollbackToHeight store_dangling 0) = None) /\
  (map blk_height (blocks (svc_db service_h2)) = [1; 2] /\
   rollbackToHeight (svc_db service_h2) 1
   = (svc_db service_h2,
      Some (NumericValueOutOfRange "integer out of range"))).
Proof.
  repeat split; try (vm_compute; reflexivity).
  vm_compute. discriminate.
Qed.

(* ================================================================= *)
(** ** The keys of the store under the apply path *)


Lemma processInput_keys txId db input :
  same_keys (processInput txId db input) db.
Proof.
  unfold processInput, same_keys.
  destruct (select_output _ _ _); [split; reflexivity|].
  unfold upsert_balance_minus. destruct (existsb _ _); split; reflexivity.
Qed.

Lemma processInputs_keys txId inputs db :
  same_keys (fold_left (processInput txId) inputs db) db.
Proof.
  unfold same_keys.
  revert db; induction inputs as [|i inputs IH]; intros db; cbn [fold_left].
  - split; reflexivity.
  - destruct (IH (processInput txId db i)) as (E1 & E2).
    destruct (processInput_keys txId db i) as (F1 & F2).
    split; congruence.
Qed.

Lemma processOutputs_keys txId outs db i :
  same_keys (processOutputs txId db i outs) db.
Proof.
  unfold same_keys.
  revert db i; induction outs as [|o outs IH]; intros db i;
    cbn [processOutputs].
  - split; reflexivity.
  - destruct (IH (upsert_balance_plus
                    (insert_output db txId (out_address o) (out_value o) i)
                    (out_address o) (out_value o)) (i + 1)) as (E1 & E2).
    rewrite E1, E2. unfold upsert_balance_plus.
    destruct (existsb _ _); split; reflexivity.
Qed.

Lemma processTransaction_keys blockId db tx :
  (existsb (fun r => String.eqb (txr_id r) (tx_id tx)) (transactions db) = true /\
   processTransaction_unbounded blockId db tx
   = Err (UniqueViolation "transactions_pkey")) \/
  (existsb (fun r => String.eqb (txr_id r) (tx_id tx)) (transactions db)
   = false /\
   exists db', processTransaction_unbounded blockId db tx = Ok db' /\
               blocks db' = blocks db /\
               transactions db'
               = transactions db ++ [mkTransactionRow (tx_id tx) blockId]).
Proof.
  unfold processTransaction_unbounded, insert_transaction.
  destruct (existsb _ (transactions db)) eqn:E; cbn [bind].
  - left. split; reflexivity.
  - right. split; [reflexivity|]. eexists. split; [reflexivity|].
    match goal with
    | |- blocks (processOutputs ?t ?d ?i ?o) = _ /\ _ =>
        destruct (processOutputs_keys t o d i) as (E1 & E2)
    end.
    rewrite E1, E2.
    match goal with
    | |- blocks (fold_left (processInput ?t) ?ins ?d) = _ /\ _ =>
        destruct (processInputs_keys t ins d) as (F1 & F2)
    end.
    rewrite F1, F2. split; reflexivity.
Qed.

Lemma processInput_marks_spent txId db input r :
  In r (select_output (processInput txId db input)
                      (in_txId input) (in_index input)) ->
  otr_is_spent r = true.
Proof.
  assert (transaction_outputs (processInput txId db input)
          = map (set_spent true (in_txId input) (in_index input))
                (transaction_outputs db)) as E.
  { unfold processInput. destruct (select_output _ _ _); [reflexivity|].
    unfold upsert_balance_minus. destruct (existsb _ _); reflexivity. }
  unfold select_output. rewrite E, select_output_set_spent.
  intros H. apply in_map_iff in H. destruct H as (r0 & <- & H0).
  apply filter_In in H0. destruct H0 as (_ & H0).
  unfold set_spent. rewrite H0. reflexivity.
Qed.

Lemma NoDup_map_snoc {A} (f : A -> string) l x :
  NoDup (map f l) ->
  existsb (fun r => String.eqb (f r) (f x)) l = false ->
  NoDup (map f (l ++ [x])).
Proof.
  intros Hnd Hex. rewrite map_app. cbn [map].
  apply NoDup_app; [exact Hnd | repeat constructor; intros [] |].
  intros y Hy [<- | []]. apply in_map_iff in Hy.
  destruct Hy as (r & Hr & Hin).
  assert (existsb (fun r => String.eqb (f r) (f x)) l = true) as Ht.
  { apply existsb_exists. exists r. split; [exact Hin|].
    now apply String.eqb_eq. }
  congruence.
Qed.

Lemma for_each_processTransaction_keys_unique blockId txs db db' :
  keys_unique db ->
  for_each (processTransaction_unbounded blockId) txs db = Ok db' ->
  keys_unique db'.
Proof.
  revert db; induction txs as [|tx txs IH]; intros db (Hb & Ht);
    cbn [for_each].
  - intros H; injection H as <-. now split.
  - destruct (processTransaction_keys blockId db tx)
      as [(E1 & ->) | (E1 & d1 & -> & B1 & T1)]; cbn [bind]; [discriminate|].
    apply IH. split; [now rewrite B1|]. rewrite T1.
    now apply (NoDup_map_snoc txr_id _ (mkTransactionRow (tx_id tx) blockId)).
Qed.

Lemma keys_unique_empty : keys_unique empty_db.
Proof. split; constructor. Qed.

(** C10. Resolving an input never reads [is_spent]: [getInputValue],
    [validateInputOutputBalance] and the outcome of [processBlock] are the
    same whatever the spent flags of the store are, and the input loop sets
    the flag of the referenced output whatever it was.  So block 3, whose
    input references the output of block 1 that block 2 has spent already,
    passes the height and balance checks on the store after block 2 and is
    applied; the store then holds two input rows that consume that one
    output. *)
Theorem spent_output_can_be_spent_again :
  (forall f db txId index,
     getInputValue (with_spent_flags f db) txId index
     = getInputValue db txId index) /\
  (forall f db txs,
     validateInputOutputBalance (with_spent_flags f db) txs
     = validateInputOutputBalance db txs) /\
  (forall f db block,
     snd (processBlock (with_spent_flags f db) block)
     = snd (processBlock db block)) /\
  (forall txId db input,
     Forall (fun r => otr_is_spent r = true)
            (select_output (processInput txId db input)
                           (in_txId input) (in_index input))) /\
  map otr_is_spent (select_output store_two "t1" 0) = [true] /\
  getInputValue store_two "t1" 0 = inr 100 /\
  validateHeight (block_height block_three) (max_height store_two) = valid /\
  validateInputOutputBalance store_two (block_transactions block_three)
  = valid /\
  processBlock store_two block_three = (store_three, None) /\
  filter (fun r => String.eqb (inr_input_tx_id r) "t1"
                   && (inr_input_index r =? 0))
         (transaction_inputs store_three)
  = [mkInputRow "t2" "t1" 0; mkInputRow "t3" "t1" 0] /\
  map otr_is_spent (select_output store_three "t1" 0) = [true].
Proof.
  split; [exact getInputValue_ignores_is_spent|].
  split.
  { intros f db txs. induction txs as [|tx txs IH]; simpl; [reflexivity|].
    rewrite sumInputs_ignores_is_spent, IH. reflexivity. }
  split; [exact processBlock_ignores_is_spent|].
  split.
  { intros txId db input. apply Forall_forall. intros r.
    apply processInput_marks_spent. }
  repeat split; vm_compute; reflexivity.
Qed.

(* ================================================================= *)
(** ** The height loaded at start-up *)

Lemma fold_max_ge l acc : acc <= fold_left Z.max l acc.
Proof.
  revert acc; induction l as [|x l IH]; intros acc; cbn [fold_left]; [lia|].
  specialize (IH (Z.max acc x)). lia.
Qed.

Lemma fold_max_bound l acc x : In x l -> x <= fold_left Z.max l acc.
Proof.
  revert acc; induction l as [|y l IH]; intros acc Hin; [destruct Hin|].
  cbn [fold_left]. destruct Hin as [-> | Hin].
  - pose proof (fold_max_ge l (Z.max acc x)). lia.
  - now apply IH.
Qed.

Lemma fold_max_attained l acc :
  fold_left Z.max l acc = acc \/ In (fold_left Z.max l acc) l.
Proof.
  revert acc; induction l as [|y l IH]; intros acc; cbn [fold_left];
    [now left|].
  destruct (IH (Z.max acc y)) as [E | Hin].
  - rewrite E. destruct (Z.max_spec acc y) as [(_ & ->) | (_ & ->)];
      [right; now left | now left].
  - right. now right.
Qed.

Lemma max_height_spec (db : Db) :
  (blocks db = [] -> max_height db = 0) /\
  (blocks db <> [] -> In (max_height db) (map blk_height (blocks db))) /\
  (forall r, In r (blocks db) -> blk_height r <= max_height db).
Proof.
  unfold max_height. destruct (blocks db) as [|b bs].
  - repeat split; [intros H; now destruct H | intros r []].
  - split; [discriminate|]. split.
    + intros _. cbn [map].
      destruct (fold_max_attained (map blk_height bs) (blk_height b))
        as [-> | Hin]; [now left | now right].
    + intros r [<- | Hin].
      * apply fold_max_ge.
      * apply fold_max_bound. now apply in_map.
Qed.

(** X1. [loadCurrentHeight] gives 0 on an empty [blocks] table; otherwise
    it gives the height of a stored block, and no stored block is higher. *)
Theorem max_height_is_greatest_stored_height (db : Db) :
  (blocks db = [] -> max_height db = 0) /\
  (blocks db <> [] -> In (max_height db) (map blk_height (blocks db))) /\
  (forall r, In r (blocks db) -> blk_height r <= max_height db).
Proof. exact (max_height_spec db). Qed.

Lemma max_height_is_greatest_stored_height_witness :
  In (max_height store_two) (map blk_height (blocks store_two)) /\
  blk_height (mkBlockRow "b1" 1) <= max_height store_two.
Proof.
  destruct (max_height_is_greatest_stored_height store_two) as (_ & H1 & H2).
  split.
  - apply H1. vm_compute. discriminate.
  - apply H2. vm_compute. now left.
Defined.

(* ================================================================= *)
(** ** When the storage unit of [processBlock] fails *)

Lemma existsb_eqb_In {A} (f : A -> string) (l : list A) (x : string) :
  existsb (fun r => String.eqb (f r) x) l = true <-> In x (map f l).
Proof.
  rewrite existsb_exists, in_map_iff. split.
  - intros (r & Hin & E). apply String.eqb_eq in E. now exists r.
  - intros (r & E & Hin). exists r. split; [exact Hin|].
    now apply String.eqb_eq.
Qed.

Lemma existsb_eqb_not_In {A} (f : A -> string) (l : list A) (x : string) :
  existsb (fun r => String.eqb (f r) x) l = false <-> ~ In x (map f l).
Proof.
  rewrite <- existsb_eqb_In. destruct (existsb _ l); intuition congruence.
Qed.

Lemma for_each_processTransaction_ok blockId txs db :
  (exists db', for_each (processTransaction_unbounded blockId) txs db = Ok db') <->
  NoDup (map tx_id txs) /\
  (forall tx, In tx txs -> ~ In (tx_id tx) (map txr_id (transactions db))).
Proof.
  revert db; induction txs as [|tx txs IH]; intros db; cbn [for_each map].
  - split.
    + intros _. split; [constructor | intros tx []].
    + intros _. now eexists.
  - destruct (processTransaction_keys blockId db tx)
      as [(E & ->) | (E & d & -> & B & T)]; cbn [bind].
    + apply existsb_eqb_In in E. split.
      * intros (db' & H). discriminate.
      * intros (_ & H). exfalso. apply (H tx); [now left | exact E].
    + apply existsb_eqb_not_In in E. rewrite IH, T, map_app. cbn [map].
      split.
      * intros (Hnd & Hfresh). split.
        -- constructor; [|exact Hnd]. intros Hin.
           apply in_map_iff in Hin. destruct Hin as (tx' & Hid & Hin).
           apply (Hfresh tx' Hin). apply in_or_app. right. left.
           now rewrite Hid.
        -- intros tx' [<- | Hin]; [exact E|].
           intros H. apply (Hfresh tx' Hin). apply in_or_app. now left.
      * intros (Hnd & Hfresh). inversion Hnd as [|? ? Hx Hrest]; subst.
        split; [exact Hrest|].
        intros tx' Hin H. apply in_app_or in H. destruct H as [H | [H | []]].
        -- apply (Hfresh tx'); [now right | exact H].
        -- apply Hx. cbn [txr_id] in H. rewrite H. now apply in_map.
Qed.

Lemma existsb_Zeqb_not_In {A} (f : A -> Z) (l : list A) (x : Z) :
  existsb (fun r => f r =? x) l = false <-> ~ In x (map f l).
Proof.
  split.
  - intros H Hin. apply in_map_iff in Hin. destruct Hin as (r & E & Hin).
    assert (existsb (fun r => f r =? x) l = true) as Ht.
    { apply existsb_exists. exists r. split; [exact Hin | lia]. }
    congruence.
  - intros H. destruct (existsb _ l) eqn:E; [|reflexivity]. exfalso.
    apply H. apply existsb_exists in E. destruct E as (r & Hin & E).
    apply in_map_iff. exists r. split; [lia | exact Hin].
Qed.

Lemma for_each_processTransaction_rows blockId txs db db' :
  for_each (processTransaction_unbounded blockId) txs db = Ok db' ->
  blocks db' = blocks db /\
  transactions db'
  = transactions db ++ map (fun tx => mkTransactionRow (tx_id tx) blockId) txs.
Proof.
  revert db; induction txs as [|tx txs IH]; intros db; cbn [for_each map].
  - intros H; injection H as <-. now rewrite app_nil_r.
  - destruct (processTransaction_keys blockId db tx)
      as [(E & ->) | (E & d & -> & B & T)]; cbn [bind]; [discriminate|].
    intros H. destruct (IH d H) as (B' & T').
    rewrite B', T', B, T, <- app_assoc. split; reflexivity.
Qed.

Lemma processInputs_appends txId inputs db :
  transaction_inputs (fold_left (processInput txId) inputs db)
  = transaction_inputs db
    ++ map (fun input => mkInputRow txId (in_txId input) (in_index input))
           inputs.
Proof.
  revert db; induction inputs as [|i inputs IH]; intros db;
    cbn [fold_left map]; [now rewrite app_nil_r|].
  rewrite IH.
  assert (transaction_inputs (processInput txId db i)
          = transaction_inputs db
            ++ [mkInputRow txId (in_txId i) (in_index i)]) as ->.
  { unfold processInput. destruct (select_output _ _ _); [reflexivity|].
    unfold upsert_balance_minus. destruct (existsb _ _); reflexivity. }
  now rewrite <- app_assoc.
Qed.

Lemma processOutputs_keeps_inputs txId outs db i :
  transaction_inputs (processOutputs txId db i outs) = transaction_inputs db.
Proof.
  revert db i; induction outs as [|o outs IH]; intros db i;
    cbn [processOutputs]; [reflexivity|].
  rewrite IH. unfold upsert_balance_plus.
  destruct (existsb _ _); reflexivity.
Qed.

Lemma for_each_processTransaction_inputs blockId txs db db' :
  for_each (processTransaction_unbounded blockId) txs db = Ok db' ->
  transaction_inputs db' = transaction_inputs db ++ flat_map input_rows txs.
Proof.
  revert db; induction txs as [|tx txs IH]; intros db;
    cbn [for_each flat_map].
  - intros H; injection H as <-. now rewrite app_nil_r.
  - unfold processTransaction_unbounded at 1, insert_transaction.
    destruct (existsb _ (transactions db)); cbn [bind]; [discriminate|].
    intros H. rewrite (IH _ H), processOutputs_keeps_inputs,
      processInputs_appends, <- app_assoc.
    reflexivity.
Qed.

Lemma int4_err z e : int4 z = Err e -> range_error e.
Proof.
  unfold int4. destruct (in_int4 z); [discriminate|].
  now intros H; injection H as <-.
Qed.

Lemma bind_err {A B} (r : result A) (k : A -> result B) (e : DbError) :
  bind r k = Err e -> r = Err e \/ exists a, r = Ok a /\ k a = Err e.
Proof.
  destruct r as [a|e']; cbn [bind]; intros H;
    [right; eauto | injection H as ->; now left].
Qed.

Lemma for_each_err {A S} (body : S -> A -> result S) (P : DbError -> Prop)
  (xs : list A) (s : S) (e : DbError) :
  (forall s x e, body s x = Err e -> P e) ->
  for_each body xs s = Err e -> P e.
Proof.
  intros Hbody. revert s; induction xs as [|x xs IH]; intros s;
    cbn [for_each]; [discriminate|].
  intros H. apply bind_err in H. destruct H as [H | (s1 & _ & H)]; eauto.
Qed.

Lemma update_balance_checked_err db address delta e :
  update_balance_checked db address delta = Err e -> range_error e.
Proof.
  unfold update_balance_checked. destruct (forallb _ _); [discriminate|].
  now intros H; injection H as <-.
Qed.

Lemma inputStep_err txId db input e :
  inputStep txId db input = Err e -> range_error e.
Proof.
  unfold inputStep. intros H. apply bind_err in H.
  destruct H as [H | (z & _ & H)]; [now apply int4_err in H|].
  destruct (select_output _ _ _) as [|r rest]; [discriminate|].
  unfold upsert_balance_minus_checked in H. apply bind_err in H.
  destruct H as [H | (z' & _ & H)]; [now apply int4_err in H|].
  destruct (existsb _ _); [|discriminate].
  now apply update_balance_checked_err in H.
Qed.

Lemma outputSteps_err txId outs db i e :
  outputSteps txId db i outs = Err e -> range_error e.
Proof.
  revert db i; induction outs as [|o outs IH]; intros db i;
    cbn [outputSteps]; [discriminate|].
  intros H. apply bind_err in H.
  destruct H as [H | (z & _ & H)]; [now apply int4_err in H|].
  apply bind_err in H.
  destruct H as [H | (z' & _ & H)]; [now apply int4_err in H|].
  apply bind_err in H. destruct H as [H | (d & _ & H)]; [|now apply IH in H].
  unfold upsert_balance_plus_checked in H. apply bind_err in H.
  destruct H as [H | (z'' & _ & H)]; [now apply int4_err in H|].
  destruct (existsb _ _); [|discriminate].
  now apply update_balance_checked_err in H.
Qed.

Lemma processTransaction_err blockId db tx e :
  ~ In (tx_id tx) (map txr_id (transactions db)) ->
  processTransaction blockId db tx = Err e -> range_error e.
Proof.
  intros Hfresh. apply existsb_eqb_not_In in Hfresh.
  unfold processTransaction, insert_transaction. rewrite Hfresh.
  cbn [bind]. intros H. apply bind_err in H.
  destruct H as [H | (d & _ & H)].
  - revert H. apply for_each_err. intros s x e'. apply inputStep_err.
  - now apply outputSteps_err in H.
Qed.

Lemma for_each_processTransaction_err blockId txs db e :
  NoDup (map tx_id txs) ->
  (forall tx, In tx txs -> ~ In (tx_id tx) (map txr_id (transactions db))) ->
  for_each (processTransaction blockId) txs db = Err e -> range_error e.
Proof.
  revert db; induction txs as [|tx txs IH]; intros db Hnd Hfresh;
    cbn [for_each map] in *; [discriminate|].
  inversion Hnd as [|? ? Hx Hrest]; subst.
  intros H. apply bind_err in H. destruct H as [H | (d & Hd & H)].
  - eapply processTransaction_err; [|exact H]. apply Hfresh. now left.
  - apply (IH d Hrest); [|exact H].
    apply processTransaction_ok in Hd. destruct Hd as (Hd & _).
    destruct (processTransaction_keys blockId db tx)
      as [(_ & E) | (_ & d' & E & _ & T)]; rewrite E in Hd;
      [discriminate|].
    injection Hd as <-. rewrite T, map_app. cbn [map txr_id].
    intros tx' Hin Hmem. apply in_app_or in Hmem.
    destruct Hmem as [Hmem | [Hmem | []]].
    + apply (Hfresh tx'); [now right | exact Hmem].
    + apply Hx. rewrite Hmem. now apply in_map.
Qed.

(** X2. [processBlock] commits only if the height is an [INTEGER], the
    block id and the height are not stored yet, the transaction ids of the
    block are pairwise different and none of them is stored yet.  When these
    keys are fresh, the only error the unit can throw is one of range: a
    value, an index or a balance that is not an [INTEGER].  Whenever it
    throws, the store is as before.  When it commits, the block row, one row
    per transaction and one row per input, in the order of the block, are
    appended to the tables. *)
Theorem processBlock_commits_only_if_keys_fresh (db : Db) (block : Block) :
  let fresh :=
    ~ In (block_id block) (map blk_id (blocks db)) /\
    ~ In (block_height block) (map blk_height (blocks db)) /\
    NoDup (map tx_id (block_transactions block)) /\
    (forall tx, In tx (block_transactions block) ->
                ~ In (tx_id tx) (map txr_id (transactions db))) in
  (snd (processBlock db block) = None ->
   in_int4 (block_height block) = true /\ fresh) /\
  (fresh -> forall e, snd (processBlock db block) = Some e -> range_error e) /\
  (snd (processBlock db block) <> None -> fst (processBlock db block) = db) /\
  (snd (processBlock db block) = None ->
   blocks (fst (processBlock db block))
   = blocks db ++ [mkBlockRow (block_id block) (block_height block)] /\
   transactions (fst (processBlock db block))
   = transactions db
     ++ map (fun tx => mkTransactionRow (tx_id tx) (block_id block))
            (block_transactions block) /\
   transaction_inputs (fst (processBlock db block))
   = transaction_inputs db ++ flat_map input_rows (block_transactions block)).
Proof.
  cbv zeta.
  assert (snd (processBlock db block) = None ->
          in_int4 (block_height block) = true /\
          existsb (fun r => String.eqb (blk_id r) (block_id block)) (blocks db)
          = false /\
          existsb (fun r => blk_height r =? block_height block) (blocks db)
          = false /\
          for_each (processTransaction_unbounded (block_id block))
            (block_transactions block)
            (mkDb (blocks db
                   ++ [mkBlockRow (block_id block) (block_height block)])
                  (transactions db) (transaction_inputs db)
                  (transaction_outputs db) (address_balances db))
          = Ok (fst (processBlock db block))) as Hcommit.
  { intros Hc. apply processBlock_commit, processBlock_unit_ok in Hc.
    destruct Hc as (Hh & E1 & E2 & Ef).
    apply for_each_processTransaction_ok_unbounded in Ef.
    now destruct Ef as (Ef & _). }
  split; [|split; [|split]].
  - intros Hc. destruct (Hcommit Hc) as (Hh & E1 & E2 & Ef).
    split; [exact Hh|].
    apply existsb_eqb_not_In in E1. apply existsb_Zeqb_not_In in E2.
    assert (exists d, for_each (processTransaction_unbounded (block_id block))
                        (block_transactions block)
                        (mkDb (blocks db
                               ++ [mkBlockRow (block_id block)
                                              (block_height block)])
                              (transactions db) (transaction_inputs db)
                              (transaction_outputs db) (address_balances db))
                      = Ok d) as Hex by eauto.
    apply for_each_processTransaction_ok in Hex. destruct Hex as (Hnd & Hf).
    repeat split; assumption.
  - intros (F1 & F2 & Hnd & Hf) e. unfold processBlock.
    destruct (processBlock_unit db block) as [d|e'] eqn:Eu; [discriminate|].
    cbn [snd]. intros H; injection H as ->.
    unfold processBlock_unit, insert_block in Eu.
    apply bind_err in Eu. destruct Eu as [Eu | (z & _ & Eu)];
      [now apply int4_err in Eu|].
    apply existsb_eqb_not_In in F1. apply existsb_Zeqb_not_In in F2.
    rewrite F1, F2 in Eu. cbn [bind] in Eu.
    eapply for_each_processTransaction_err; [exact Hnd | | exact Eu].
    exact Hf.
  - destruct (snd (processBlock db block)) as [e|] eqn:E; [|congruence].
    intros _. now apply (processBlock_atomic db block e).
  - intros Hc. destruct (Hcommit Hc) as (_ & _ & _ & Ef).
    destruct (for_each_processTransaction_rows _ _ _ _ Ef) as (B & T).
    pose proof (for_each_processTransaction_inputs _ _ _ _ Ef) as I.
    repeat split; assumption.
Qed.

Lemma processBlock_commits_only_if_keys_fresh_witness :
  (in_int4 (block_height block_two) = true /\
   ~ In (block_id block_two) (map blk_id (blocks store_one))) /\
  match snd (processBlock (svc_db service_g1) block_g2) with
  | Some e => range_error e
  | None => False
  end /\
  fst (processBlock store_one block_one) = store_one.
Proof.
  destruct (processBlock_commits_only_if_keys_fresh store_one block_two)
    as (H1 & _).
  destruct (processBlock_commits_only_if_keys_fresh (svc_db service_g1)
              block_g2) as (_ & H2 & _).
  destruct (processBlock_commits_only_if_keys_fresh store_one block_one)
    as (_ & _ & H3 & _).
  split; [|split].
  - destruct (H1 eq_refl) as (Hh & F1 & _). now split.
  - destruct (snd (processBlock (svc_db service_g1) block_g2)) as [e|] eqn:E;
      [|vm_compute in E; discriminate].
    apply H2; [|reflexivity].
    split; [|split; [|split]].
    + vm_compute. intuition discriminate.
    + vm_compute. intuition discriminate.
    + vm_compute. repeat constructor. intros [].
    + intros tx [<- | []]. vm_compute. intuition discriminate.
  - apply H3. vm_compute. discriminate.
Defined.

(* ================================================================= *)
(** ** What the balance check reports *)





(* ================================================================= *)
(** ** Reading balances after a statement *)

Lemma balance_of_other a a' r :
  a <> a' -> balance_of a' r = true -> balance_of a r = false.
Proof.
  unfold balance_of. intros Hne H. apply String.eqb_eq in H.
  apply String.eqb_neq. congruence.
Qed.

Lemma read_add_balance_other rows a a' delta :
  a <> a' ->
  match filter (balance_of a') (map (add_balance a delta) rows) with
  | [] => 0
  | r :: _ => bal_balance r
  end
  = match filter (balance_of a') rows with
    | [] => 0
    | r :: _ => bal_balance r
    end.
Proof.
  intros Hne. induction rows as [|r rows IH]; cbn [map filter];
    [reflexivity|].
  rewrite balance_of_add_balance.
  destruct (balance_of a' r) eqn:E; [|exact IH].
  unfold add_balance. now rewrite (balance_of_other a a' r Hne E).
Qed.

Lemma getAddressBalance_update_balance db a delta a' :
  has_row db a = true \/ a <> a' ->
  getAddressBalance (update_balance db a delta) a'
  = getAddressBalance db a' + (if String.eqb a a' then delta else 0).
Proof.
  unfold getAddressBalance, update_balance, has_row.
  cbn [address_balances]. intros H.
  destruct (String.eqb_spec a a') as [<- | Hne].
  - destruct H as [H | H]; [|congruence].
    now apply getAddressBalance_update_same.
  - rewrite read_add_balance_other by exact Hne. lia.
Qed.

Lemma getAddressBalance_upsert_plus db a v a' :
  getAddressBalance (upsert_balance_plus db a v) a'
  = getAddressBalance db a' + (if String.eqb a a' then v else 0).
Proof.
  unfold upsert_balance_plus.
  destruct (existsb (balance_of a) (address_balances db)) eqn:E.
  - apply getAddressBalance_update_balance. now left.
  - unfold getAddressBalance, insert_balance. cbn [address_balances].
    rewrite filter_app. cbn [filter]. unfold balance_of at 2.
    cbn [bal_address].
    destruct (String.eqb_spec a a') as [<- | Hne].
    + rewrite (filter_none _ _ E). reflexivity.
    + rewrite app_nil_r. lia.
Qed.

Lemma has_row_update_balance db a delta a' :
  has_row (update_balance db a delta) a' = has_row db a'.
Proof.
  unfold has_row, update_balance. cbn [address_balances].
  induction (address_balances db) as [|r rows IH]; cbn [map existsb];
    [reflexivity|].
  now rewrite balance_of_add_balance, IH.
Qed.

Lemma has_row_upsert_plus db a v a' :
  has_row (upsert_balance_plus db a v) a'
  = has_row db a' || String.eqb a a'.
Proof.
  unfold upsert_balance_plus.
  destruct (existsb (balance_of a) (address_balances db)) eqn:E.
  - rewrite has_row_update_balance.
    destruct (String.eqb_spec a a') as [<- | Hne]; [|now rewrite orb_false_r].
    unfold has_row. rewrite E. reflexivity.
  - unfold has_row, insert_balance. cbn [address_balances].
    rewrite existsb_app. cbn [existsb]. unfold balance_of at 2.
    cbn [bal_address]. now rewrite orb_false_r.
Qed.

Lemma has_row_upsert_minus db a p a' :
  has_row db a' = true -> has_row (upsert_balance_minus db a p) a' = true.
Proof.
  unfold upsert_balance_minus. intros H.
  destruct (existsb (balance_of a) (address_balances db)).
  - now rewrite has_row_update_balance.
  - unfold has_row, insert_balance in *. cbn [address_balances].
    rewrite existsb_app, H. reflexivity.
Qed.

(* ================================================================= *)
(** ** The rows and balances an applied transaction leaves *)

Lemma paid_to_cons a o outs :
  paid_to a (o :: outs)
  = (if String.eqb (out_address o) a then out_value o else 0) + paid_to a outs.
Proof.
  unfold paid_to, sumZ. cbn [filter].
  destruct (String.eqb (out_address o) a); cbn [map fold_right]; lia.
Qed.

Lemma paid_to_app a outs1 outs2 :
  paid_to a (outs1 ++ outs2) = paid_to a outs1 + paid_to a outs2.
Proof.
  induction outs1 as [|o outs1 IH]; cbn [app]; [reflexivity|].
  rewrite !paid_to_cons, IH. lia.
Qed.

Lemma processOutputs_tables txId outs db i :
  let db' := processOutputs txId db i outs in
  blocks db' = blocks db /\
  transactions db' = transactions db /\
  transaction_inputs db' = transaction_inputs db /\
  transaction_outputs db' = transaction_outputs db ++ output_rows txId i outs /\
  (forall a, getAddressBalance db' a = getAddressBalance db a + paid_to a outs) /\
  (forall a, has_row db' a
             = has_row db a
               || existsb (fun o => String.eqb (out_address o) a) outs).
Proof.
  cbv zeta. revert db i; induction outs as [|o outs IH]; intros db i;
    cbn [processOutputs output_rows existsb].
  - rewrite app_nil_r. repeat split.
    + intros a. unfold paid_to, sumZ. cbn [filter map fold_right]. lia.
    + intros a. now rewrite orb_false_r.
  - set (db1 := insert_output db txId (out_address o) (out_value o) i).
    set (db2 := upsert_balance_plus db1 (out_address o) (out_value o)).
    destruct (IH db2 (i + 1)) as (B & T & I & O & Hbal & Hrow).
    assert (blocks db2 = blocks db /\ transactions db2 = transactions db /\
            transaction_inputs db2 = transaction_inputs db /\
            transaction_outputs db2
            = transaction_outputs db
              ++ [mkOutputRow txId (out_address o) (out_value o) i false])
      as (B2 & T2 & I2 & O2).
    { subst db2 db1. unfold upsert_balance_plus.
      destruct (existsb _ _); repeat split. }
    rewrite B, T, I, O, B2, T2, I2, O2, <- app_assoc.
    repeat split.
    + intros a. rewrite Hbal. subst db2.
      rewrite getAddressBalance_upsert_plus, paid_to_cons.
      unfold getAddressBalance, db1, insert_output. cbn [address_balances].
      lia.
    + intros a. rewrite Hrow. subst db2. rewrite has_row_upsert_plus.
      unfold has_row, db1, insert_output. cbn [address_balances].
      now rewrite orb_assoc.
Qed.

Lemma processInput_tables txId db input :
  let db' := processInput txId db input in
  transaction_inputs db'
  = transaction_inputs db
    ++ [mkInputRow txId (in_txId input) (in_index input)] /\
  transaction_outputs db'
  = map (set_spent true (in_txId input) (in_index input))
        (transaction_outputs db) /\
  (forall a, has_row db a = true -> has_row db' a = true).
Proof.
  cbv zeta. unfold processInput.
  destruct (select_output _ _ _) as [|r rest].
  - repeat split. intros a H. exact H.
  - unfold upsert_balance_minus at 1 2.
    destruct (existsb _ _) eqn:E; repeat split;
      intros a H; apply has_row_upsert_minus; exact H.
Qed.

Lemma processInputs_tables txId inputs db :
  let db' := fold_left (processInput txId) inputs db in
  transaction_inputs db'
  = transaction_inputs db
    ++ map (fun input => mkInputRow txId (in_txId input) (in_index input))
           inputs /\
  map forget_spent (transaction_outputs db')
  = map forget_spent (transaction_outputs db) /\
  (forall a, has_row db a = true -> has_row db' a = true).
Proof.
  cbv zeta. revert db; induction inputs as [|i inputs IH]; intros db;
    cbn [fold_left map].
  - rewrite app_nil_r. repeat split. intros a H; exact H.
  - destruct (IH (processInput txId db i)) as (I & O & R).
    destruct (processInput_tables txId db i) as (I1 & O1 & R1).
    rewrite I, O, I1, O1, <- app_assoc. repeat split.
    + rewrite map_map. apply map_ext. intros r. apply forget_spent_set_spent.
    + intros a H. apply R, R1, H.
Qed.

Lemma processTransaction_success blockId db tx db' :
  processTransaction_unbounded blockId db tx = Ok db' ->
  ~ In (tx_id tx) (map txr_id (transactions db)) /\
  blocks db' = blocks db /\
  transactions db' = transactions db ++ [mkTransactionRow (tx_id tx) blockId] /\
  transaction_inputs db' = transaction_inputs db ++ input_rows tx /\
  (exists old,
     transaction_outputs db'
     = old ++ output_rows (tx_id tx) 0 (tx_outputs tx) /\
     map forget_spent old = map forget_spent (transaction_outputs db) /\
     (tx_inputs tx = [] -> old = transaction_outputs db)) /\
  (forall a, has_row db a = true -> has_row db' a = true) /\
  (forall o, In o (tx_outputs tx) -> has_row db' (out_address o) = true) /\
  (tx_inputs tx = [] ->
   forall a, getAddressBalance db' a
             = getAddressBalance db a + paid_to a (tx_outputs tx)).
Proof.
  unfold processTransaction_unbounded, insert_transaction.
  destruct (existsb _ (transactions db)) eqn:E; cbn [bind]; [discriminate|].
  apply existsb_eqb_not_In in E. intros H; injection H as <-.
  set (db1 := mkDb _ _ _ _ _).
  set (db2 := fold_left (processInput (tx_id tx)) (tx_inputs tx) db1).
  destruct (processOutputs_tables (tx_id tx) (tx_outputs tx) db2 0)
    as (B & T & I & O & Hbal & Hrow).
  destruct (processInputs_tables (tx_id tx) (tx_inputs tx) db1)
    as (I2 & O2 & R2).
  destruct (processInputs_keys (tx_id tx) (tx_inputs tx) db1) as (B2 & T2).
  fold db2 in I2, O2, R2, B2, T2.
  split; [exact E|].
  rewrite B, T, I, O, B2, T2, I2.
  repeat split.
  - exists (transaction_outputs db2). repeat split; [exact O2|].
    intros Hnil. subst db2. rewrite Hnil. reflexivity.
  - intros a Ha. rewrite Hrow. rewrite (R2 a Ha). reflexivity.
  - intros o Ho. rewrite Hrow.
    replace (existsb _ (tx_outputs tx)) with true; [apply orb_true_r|].
    symmetry. apply existsb_exists. exists o. split; [exact Ho|].
    apply String.eqb_refl.
  - intros Hnil a. rewrite Hbal. subst db2. rewrite Hnil. reflexivity.
Qed.

Lemma for_each_spends_nothing blockId txs db db' :
  Forall spends_nothing txs ->
  for_each (processTransaction_unbounded blockId) txs db = Ok db' ->
  transaction_inputs db' = transaction_inputs db /\
  transaction_outputs db'
  = transaction_outputs db
    ++ flat_map (fun tx => output_rows (tx_id tx) 0 (tx_outputs tx)) txs /\
  (forall a, getAddressBalance db' a
             = getAddressBalance db a + paid_to a (flat_map tx_outputs txs)) /\
  (forall a, has_row db a = true -> has_row db' a = true) /\
  (forall o, In o (flat_map tx_outputs txs) ->
             has_row db' (out_address o) = true).
Proof.
  intros Hall. revert db; induction Hall as [|tx txs Htx _ IH]; intros db;
    cbn [for_each flat_map].
  - intros H; injection H as <-. rewrite app_nil_r. repeat split.
    + intros a. unfold paid_to, sumZ. cbn [filter map fold_right]. lia.
    + intros a H; exact H.
    + intros o [].
  - destruct (processTransaction_unbounded blockId db tx) as [d|e] eqn:Et; cbn [bind];
      [|discriminate].
    intros Hrest.
    destruct (processTransaction_success _ _ _ _ Et)
      as (_ & _ & _ & I & (old & O & _ & Hold) & R & Rnew & Hbal).
    destruct (IH d Hrest) as (I' & O' & Hbal' & R' & Rnew').
    unfold spends_nothing in Htx. specialize (Hold Htx).
    specialize (Hbal Htx). subst old.
    unfold input_rows in I. rewrite Htx in I. cbn [map] in I.
    rewrite app_nil_r in I.
    rewrite I', O', I, O, <- app_assoc. repeat split.
    + intros a. rewrite Hbal', Hbal, paid_to_app. lia.
    + intros a Ha. apply R', R, Ha.
    + intros o Ho. apply in_app_or in Ho. destruct Ho as [Ho | Ho].
      * apply R', Rnew, Ho.
      * apply Rnew', Ho.
Qed.

(** A committed unit leaves what the transactions of the block leave, one
    after the other, on the store with the block row; the indexes of their
    inputs and outputs are [INTEGER]s. *)
Lemma processBlock_committed db block :
  snd (processBlock db block) = None ->
  in_int4 (block_height block) = true /\
  existsb (fun r => String.eqb (blk_id r) (block_id block)) (blocks db)
  = false /\
  existsb (fun r => blk_height r =? block_height block) (blocks db) = false /\
  for_each (processTransaction_unbounded (block_id block))
    (block_transactions block)
    (mkDb (blocks db ++ [mkBlockRow (block_id block) (block_height block)])
          (transactions db) (transaction_inputs db)
          (transaction_outputs db) (address_balances db))
  = Ok (fst (processBlock db block)) /\
  Forall (fun tx =>
            Forall (fun input => in_int4 (in_index input) = true)
                   (tx_inputs tx) /\
            (forall k, (k < List.length (tx_outputs tx))%nat ->
                       in_int4 (Z.of_nat k) = true))
         (block_transactions block).
Proof.
  intros Hc. apply processBlock_commit, processBlock_unit_ok in Hc.
  destruct Hc as (Hh & E1 & E2 & Ef).
  apply for_each_processTransaction_ok_unbounded in Ef.
  destruct Ef as (Ef & Hr). repeat split; assumption.
Qed.

(** X4. A block whose transactions have no inputs, once committed, raises
    the balance read for every address by the sum of the values the block's
    outputs pay to that address, and changes no other balance. *)
Theorem processBlock_credits_outputs (db : Db) (block : Block) :
  Forall spends_nothing (block_transactions block) ->
  snd (processBlock db block) = None ->
  forall address,
    getAddressBalance (fst (processBlock db block)) address
    = getAddressBalance db address
      + paid_to address (flat_map tx_outputs (block_transactions block)).
Proof.
  intros Hall Hc address.
  destruct (processBlock_committed db block Hc) as (_ & _ & _ & Ef & _).
  destruct (for_each_spends_nothing _ _ _ _ Hall Ef) as (_ & _ & Hbal & _).
  rewrite Hbal. reflexivity.
Qed.

Lemma processBlock_credits_outputs_witness :
  getAddressBalance (fst (processBlock empty_db block_pair)) "A"
  = getAddressBalance empty_db "A"
    + paid_to "A" (flat_map tx_outputs (block_transactions block_pair)).
Proof.
  apply (processBlock_credits_outputs empty_db block_pair).
  - repeat constructor.
  - reflexivity.
Defined.

(* ================================================================= *)
(** ** The integrity of the store under [processBlock] *)

Lemma In_output_rows txId outs i r :
  In r (output_rows txId i outs) ->
  otr_transaction_id r = txId /\ otr_is_spent r = false /\
  exists o, In o outs /\ otr_address r = out_address o /\
            otr_value r = out_value o.
Proof.
  revert i; induction outs as [|o outs IH]; intros i; cbn [output_rows];
    [intros []|].
  intros [<- | Hin].
  - repeat split. exists o. repeat split. now left.
  - destruct (IH _ Hin) as (E1 & E2 & o' & Ho' & E3 & E4).
    repeat split; try assumption. exists o'. repeat split; try assumption.
    now right.
Qed.

Lemma processTransaction_store_ok blockId db tx db' :
  store_ok db -> In blockId (map blk_id (blocks db)) ->
  processTransaction_unbounded blockId db tx = Ok db' ->
  store_ok db'.
Proof.
  intros ((Kb & Kt) & (F1 & F2 & F3) & Hcov) Hblock Hok.
  destruct (processTransaction_success _ _ _ _ Hok)
    as (Hfresh & B & T & I & (old & O & Hold & _) & R & Rnew & _).
  assert (forall x, In x (map txr_id (transactions db)) ->
                    In x (map txr_id (transactions db'))) as Hsub.
  { intros x Hx. rewrite T, map_app. apply in_or_app. now left. }
  split; [|split].
  - split; [now rewrite B|]. rewrite T.
    apply (NoDup_map_snoc txr_id _ (mkTransactionRow (tx_id tx) blockId));
      [exact Kt|].
    now apply existsb_eqb_not_In.
  - repeat split.
    + intros r Hr. rewrite B. rewrite T in Hr. apply in_app_or in Hr.
      destruct Hr as [Hr | [<- | []]]; [now apply F1 | exact Hblock].
    + intros r Hr. rewrite I in Hr. apply in_app_or in Hr.
      destruct Hr as [Hr | Hr]; [now apply Hsub, F2|].
      unfold input_rows in Hr. apply in_map_iff in Hr.
      destruct Hr as (i & <- & _). cbn [inr_transaction_id].
      rewrite T, map_app. apply in_or_app. right. now left.
    + intros r Hr. rewrite O in Hr. apply in_app_or in Hr.
      destruct Hr as [Hr | Hr].
      * destruct (map_eq_In _ _ _ _ Hold Hr) as (r0 & Hr0 & E).
        apply forget_spent_fields in E. destruct E as (E & _).
        rewrite <- E. now apply Hsub, F3.
      * apply In_output_rows in Hr. destruct Hr as (-> & _).
        rewrite T, map_app. apply in_or_app. right. now left.
  - intros r Hr. rewrite O in Hr. apply in_app_or in Hr.
    destruct Hr as [Hr | Hr].
    + destruct (map_eq_In _ _ _ _ Hold Hr) as (r0 & Hr0 & E).
      apply forget_spent_fields in E. destruct E as (_ & E & _).
      rewrite <- E. apply R. now apply Hcov.
    + apply In_output_rows in Hr. destruct Hr as (_ & _ & o & Ho & -> & _).
      now apply Rnew.
Qed.

Lemma for_each_processTransaction_store_ok blockId txs db db' :
  store_ok db -> In blockId (map blk_id (blocks db)) ->
  for_each (processTransaction_unbounded blockId) txs db = Ok db' ->
  store_ok db'.
Proof.
  revert db; induction txs as [|tx txs IH]; intros db Hok Hblock;
    cbn [for_each].
  - intros H; injection H as <-. exact Hok.
  - destruct (processTransaction_unbounded blockId db tx) as [d|e] eqn:Et; cbn [bind];
      [|discriminate].
    apply IH.
    + eapply processTransaction_store_ok; eauto.
    + destruct (processTransaction_success _ _ _ _ Et) as (_ & -> & _).
      exact Hblock.
Qed.

Lemma store_ok_empty : store_ok empty_db.
Proof.
  split; [apply keys_unique_empty|]. split.
  - repeat split; intros r [].
  - intros r [].
Qed.

Lemma processBlock_store_ok db block :
  store_ok db -> store_ok (fst (processBlock db block)).
Proof.
  intros Hok. destruct (processBlock_fst db block) as [-> | Hu]; [exact Hok|].
  apply processBlock_unit_ok in Hu. destruct Hu as (_ & E1 & E2 & Ef).
  apply for_each_processTransaction_ok_unbounded in Ef.
  destruct Ef as (Ef & _).
  set (db1 := mkDb _ _ _ _ _) in Ef.
  eapply for_each_processTransaction_store_ok; [| |exact Ef].
  - destruct Hok as ((Kb & Kt) & (F1 & F2 & F3) & Hcov).
    split; [|split].
    + split; [|exact Kt]. cbn [blocks db1].
      now apply (NoDup_map_snoc blk_id _
                   (mkBlockRow (block_id block) (block_height block))).
    + repeat split; cbn [blocks transactions transaction_inputs
                         transaction_outputs db1]; try assumption.
      intros r Hr. rewrite map_app. apply in_or_app. left. now apply F1.
    + exact Hcov.
  - cbn [blocks db1]. rewrite map_app. apply in_or_app. right. now left.
Qed.

(** The store in which the transactions of a block are processed is well
    formed and holds the block. *)
Lemma store_ok_with_block db block :
  store_ok db ->
  existsb (fun r => String.eqb (blk_id r) (block_id block)) (blocks db)
  = false ->
  let db1 := mkDb (blocks db
                   ++ [mkBlockRow (block_id block) (block_height block)])
                  (transactions db) (transaction_inputs db)
                  (transaction_outputs db) (address_balances db) in
  store_ok db1 /\ In (block_id block) (map blk_id (blocks db1)).
Proof.
  intros ((Kb & Kt) & (F1 & F2 & F3) & Hcov) E1 db1. split.
  - split; [|split].
    + split; [|exact Kt]. cbn [blocks db1].
      now apply (NoDup_map_snoc blk_id _
                   (mkBlockRow (block_id block) (block_height block))).
    + repeat split; cbn [blocks transactions transaction_inputs
                         transaction_outputs db1]; try assumption.
      intros r Hr. rewrite map_app. apply in_or_app. left. now apply F1.
    + exact Hcov.
  - cbn [blocks db1]. rewrite map_app. apply in_or_app. right. now left.
Qed.

(* ================================================================= *)
(** ** Outputs written by a block can be looked up *)

Lemma outputs_extend_refl db : outputs_extend db db.
Proof.
  exists (transaction_outputs db), []. now rewrite app_nil_r.
Qed.

Lemma outputs_extend_trans db1 db2 db3 :
  outputs_extend db1 db2 -> outputs_extend db2 db3 -> outputs_extend db1 db3.
Proof.
  intros (old1 & more1 & E1 & F1) (old2 & more2 & E2 & F2).
  rewrite E1, map_app in F2. apply map_eq_app in F2.
  destruct F2 as (a & b & -> & Ha & Hb).
  exists a, (b ++ more2). split; [now rewrite E2, <- app_assoc | congruence].
Qed.

Lemma getInputValue_extend db db' txId index v :
  outputs_extend db db' ->
  getInputValue db txId index = inr v ->
  getInputValue db' txId index = inr v.
Proof.
  intros (old & more & E & F). unfold getInputValue, select_output.
  destruct (in_int4 index); [|discriminate].
  rewrite E, filter_app.
  pose proof (filter_forget_spent (output_at txId index) _ _
                (output_at_forget_spent _ _) F) as Hf.
  destruct (filter _ (transaction_outputs db)) as [|r rest]; [discriminate|].
  destruct (filter _ old) as [|r' rest']; [discriminate|].
  cbn [map app] in *. intros H; injection H as <-.
  assert (forget_spent r' = forget_spent r) as Hr by congruence.
  apply forget_spent_fields in Hr. destruct Hr as (_ & _ & -> & _).
  reflexivity.
Qed.

Lemma processTransaction_extends blockId db tx db' :
  processTransaction_unbounded blockId db tx = Ok db' -> outputs_extend db db'.
Proof.
  intros H. destruct (processTransaction_success _ _ _ _ H)
    as (_ & _ & _ & _ & (old & O & Hold & _) & _).
  now exists old, (output_rows (tx_id tx) 0 (tx_outputs tx)).
Qed.

Lemma for_each_processTransaction_extends blockId txs db db' :
  for_each (processTransaction_unbounded blockId) txs db = Ok db' ->
  outputs_extend db db'.
Proof.
  revert db; induction txs as [|tx txs IH]; intros db; cbn [for_each].
  - intros H; injection H as <-. apply outputs_extend_refl.
  - destruct (processTransaction_unbounded blockId db tx) as [d|e] eqn:Et; cbn [bind];
      [|discriminate].
    intros H. eapply outputs_extend_trans.
    + eapply processTransaction_extends, Et.
    + apply IH, H.
Qed.

Lemma processBlock_extends db block :
  outputs_extend db (fst (processBlock db block)).
Proof.
  destruct (processBlock_fst db block) as [-> | Hu];
    [apply outputs_extend_refl|].
  apply processBlock_unit_ok in Hu. destruct Hu as (_ & _ & _ & Ef).
  apply for_each_processTransaction_ok_unbounded in Ef.
  destruct Ef as (Ef & _).
  apply for_each_processTransaction_extends in Ef.
  destruct Ef as (old & more & E & F). now exists old, more.
Qed.

Lemma select_output_rows txId outs i k o :
  nth_error outs k = Some o ->
  exists rest,
    filter (output_at txId (i + Z.of_nat k)) (output_rows txId i outs)
    = mkOutputRow txId (out_address o) (out_value o) (i + Z.of_nat k) false
      :: rest.
Proof.
  revert i k; induction outs as [|o' outs IH]; intros i k;
    [destruct k; discriminate|].
  destruct k as [|k]; cbn [nth_error output_rows filter].
  - intros H; injection H as ->. unfold output_at at 1.
    cbn [otr_transaction_id otr_output_index].
    rewrite String.eqb_refl. replace (i + Z.of_nat 0) with i by lia.
    rewrite Z.eqb_refl. cbn [andb]. now eexists.
  - intros H. unfold output_at at 1.
    cbn [otr_transaction_id otr_output_index].
    replace (i =? i + Z.of_nat (S k)) with false
      by (symmetry; apply Z.eqb_neq; lia).
    rewrite andb_false_r.
    replace (i + Z.of_nat (S k)) with ((i + 1) + Z.of_nat k) by lia.
    apply IH, H.
Qed.

Lemma processTransaction_outputs_resolve blockId db tx db' k o :
  store_ok db ->
  processTransaction_unbounded blockId db tx = Ok db' ->
  nth_error (tx_outputs tx) k = Some o ->
  in_int4 (Z.of_nat k) = true ->
  getInputValue db' (tx_id tx) (Z.of_nat k) = inr (out_value o).
Proof.
  intros (_ & (_ & _ & F3) & _) Hok Hk Hrange.
  destruct (processTransaction_success _ _ _ _ Hok)
    as (Hfresh & _ & _ & _ & (old & O & Hold & _) & _).
  unfold getInputValue, select_output. rewrite Hrange, O, filter_app.
  assert (filter (output_at (tx_id tx) (Z.of_nat k)) old = []) as ->.
  { apply filter_none. destruct (existsb _ old) eqn:E; [|reflexivity].
    exfalso. apply existsb_exists in E. destruct E as (r & Hr & Hat).
    destruct (map_eq_In _ _ _ _ Hold Hr) as (r0 & Hr0 & E).
    apply forget_spent_fields in E. destruct E as (E & _).
    apply Hfresh. unfold output_at in Hat. apply andb_true_iff in Hat.
    destruct Hat as (Hat & _). apply String.eqb_eq in Hat.
    rewrite <- Hat, <- E. now apply F3. }
  destruct (select_output_rows (tx_id tx) _ 0 k o Hk) as (rest & E).
  cbn [Z.add] in E. cbn [app]. rewrite E. reflexivity.
Qed.

Lemma for_each_outputs_resolve blockId txs db db' tx k o :
  store_ok db -> In blockId (map blk_id (blocks db)) ->
  for_each (processTransaction_unbounded blockId) txs db = Ok db' ->
  In tx txs -> nth_error (tx_outputs tx) k = Some o ->
  in_int4 (Z.of_nat k) = true ->
  getInputValue db' (tx_id tx) (Z.of_nat k) = inr (out_value o).
Proof.
  revert db; induction txs as [|tx0 txs IH]; intros db Hok Hblock;
    cbn [for_each]; [intros _ []|].
  destruct (processTransaction_unbounded blockId db tx0) as [d|e] eqn:Et; cbn [bind];
    [|discriminate].
  intros Hrest [-> | Hin] Hk Hr.
  - eapply getInputValue_extend.
    + eapply for_each_processTransaction_extends, Hrest.
    + eapply processTransaction_outputs_resolve; eauto.
  - apply (IH d); try assumption.
    + eapply processTransaction_store_ok; eauto.
    + destruct (processTransaction_success _ _ _ _ Et) as (_ & -> & _).
      exact Hblock.
Qed.

(** X5. What a stored output resolves to is never changed by applying a
    block: a (txId, index) that [getInputValue] resolves to a value before
    [processBlock] resolves to the same value after it.  On a well-formed
    store ([store_ok]), every output of a committed
    block can be looked up afterwards: the output at position [k] of a
    transaction of the block resolves, under that transaction's id and the
    index [k], to its value. *)
Theorem processBlock_outputs_resolve (db : Db) (block : Block) :
  store_ok db ->
  (forall txId index v,
     getInputValue db txId index = inr v ->
     getInputValue (fst (processBlock db block)) txId index = inr v) /\
  (snd (processBlock db block) = None ->
   forall tx k o,
     In tx (block_transactions block) ->
     nth_error (tx_outputs tx) k = Some o ->
     getInputValue (fst (processBlock db block)) (tx_id tx) (Z.of_nat k)
     = inr (out_value o)).
Proof.
  intros Hok. split.
  - intros txId index v. apply getInputValue_extend, processBlock_extends.
  - intros Hc tx k o Hin Hk.
    destruct (processBlock_committed db block Hc) as (_ & E1 & _ & Ef & Hr).
    destruct (store_ok_with_block db block Hok E1) as (Hok1 & Hin1).
    apply (for_each_outputs_resolve (block_id block)
             (block_transactions block) _ _ tx k o Hok1 Hin1 Ef Hin Hk).
    rewrite Forall_forall in Hr. apply (proj2 (Hr tx Hin)).
    apply nth_error_Some. congruence.
Qed.

Lemma processBlock_outputs_resolve_witness :
  getInputValue (fst (processBlock store_one block_two)) "t2" 1 = inr 40.
Proof.
  assert (store_ok store_one) as Hok
    by (apply processBlock_store_ok, store_ok_empty).
  apply (proj2 (processBlock_outputs_resolve store_one block_two Hok)
           eq_refl
           (mkTransaction "t2" [mkInput "t1" 0]
                          [mkOutput "B" 60; mkOutput "C" 40])
           1%nat (mkOutput "C" 40)).
  - left. reflexivity.
  - reflexivity.
Defined.

(* ================================================================= *)
(** ** The rows a rollback removes *)

Lemma exec_keeps_addresses s db :
  map bal_address (address_balances (exec s db))
  = map bal_address (address_balances db).
Proof.
  assert (forall a d rows,
             map bal_address (map (add_balance a d) rows)
             = map bal_address rows) as H.
  { intros a d rows. rewrite map_map. apply map_ext. intros r.
    unfold add_balance. destruct (balance_of a r); reflexivity. }
  destruct s; cbn [exec update_balance update_is_spent address_balances];
    try reflexivity; apply H.
Qed.

Lemma fold_exec_keeps_addresses stmts db :
  map bal_address
      (address_balances (fold_left (fun db s => exec s db) stmts db))
  = map bal_address (address_balances db).
Proof.
  revert db; induction stmts as [|s stmts IH]; intros db; cbn [fold_left];
    [reflexivity|].
  now rewrite IH, exec_keeps_addresses.
Qed.

Lemma fold_rollbackTransaction_rows ids c :
  let c' := fold_left rollbackTransaction_session ids c in
  transaction_inputs (fst c')
  = filter (fun r => negb (mem (inr_transaction_id r) ids))
           (transaction_inputs (fst c)) /\
  map forget_spent (transaction_outputs (fst c'))
  = map forget_spent
        (filter (fun r => negb (mem (otr_transaction_id r) ids))
                (transaction_outputs (fst c))).
Proof.
  cbv zeta. revert c; induction ids as [|t ids IH]; intros c;
    cbn [fold_left].
  - split.
    + induction (transaction_inputs (fst c)) as [|r l IHl];
        [reflexivity | cbn [filter mem existsb negb]; now f_equal].
    + f_equal.
      induction (transaction_outputs (fst c)) as [|r l IHl];
        [reflexivity | cbn [filter mem existsb negb]; now f_equal].
  - destruct (IH (rollbackTransaction_session c t)) as (I & O).
    destruct (rollbackTransaction_rows c t) as (I1 & O1).
    rewrite I, O, I1. split.
    + rewrite filter_filter. apply filter_ext. intros r.
      unfold mem, input_of. cbn [existsb]. now rewrite negb_orb.
    + transitivity
        (map forget_spent
           (filter (fun r => negb (mem (otr_transaction_id r) ids))
              (filter (fun r => negb (output_of t r))
                 (transaction_outputs (fst c))))).
      * apply filter_forget_spent; [|exact O1].
        intros r r' H. apply forget_spent_fields in H.
        destruct H as (-> & _). reflexivity.
      * f_equal. rewrite filter_filter. apply filter_ext. intros r.
        unfold mem, output_of. cbn [existsb]. now rewrite negb_orb.
Qed.

Lemma In_transactions_of_blocks db ids x :
  In x (transactions_of_blocks db ids) <->
  exists r, In r (transactions db) /\ txr_id r = x /\ In (txr_block_id r) ids.
Proof.
  unfold transactions_of_blocks. rewrite in_map_iff. split.
  - intros (r & E & Hr). apply filter_In in Hr. destruct Hr as (Hr & Hm).
    apply mem_In in Hm. now exists r.
  - intros (r & Hr & E & Hm). exists r. split; [exact E|].
    apply filter_In. split; [exact Hr | now apply mem_In].
Qed.

Lemma rollbackTransaction_keeps_addresses c txId :
  map bal_address (address_balances (fst (rollbackTransaction_session c txId)))
  = map bal_address (address_balances (fst c)).
Proof.
  rewrite rollbackTransaction_issue, fold_issue. cbn [fst].
  apply fold_exec_keeps_addresses.
Qed.

Lemma rollbackBlock_keeps_addresses c block :
  map bal_address (address_balances (fst (rollbackBlock_session c block)))
  = map bal_address (address_balances (fst c)).
Proof.
  unfold rollbackBlock_session. rewrite issue_fst, exec_keeps_addresses.
  generalize (select_transaction_ids (fst c) (blk_id block)). intros ids.
  revert c; induction ids as [|t ids IH]; intros c; cbn [fold_left];
    [reflexivity|].
  now rewrite IH, rollbackTransaction_keeps_addresses.
Qed.

Lemma rollbackBlock_rows c block :
  transaction_inputs (fst (rollbackBlock_session c block))
  = filter (fun r => negb (mem (inr_transaction_id r)
                               (select_transaction_ids (fst c) (blk_id block))))
           (transaction_inputs (fst c)) /\
  map forget_spent (transaction_outputs (fst (rollbackBlock_session c block)))
  = map forget_spent
        (filter (fun r => negb (mem (otr_transaction_id r)
                                    (select_transaction_ids (fst c)
                                                            (blk_id block))))
                (transaction_outputs (fst c))).
Proof.
  unfold rollbackBlock_session. rewrite issue_fst.
  cbn [exec transaction_inputs transaction_outputs].
  apply fold_rollbackTransaction_rows.
Qed.

Lemma fold_rollbackBlock_rows bs c :
  NoDup (map txr_id (transactions (fst c))) ->
  let undone := map blk_id bs in
  let c' := fold_left rollbackBlock_session bs c in
  blocks (fst c')
  = filter (fun r => negb (mem (blk_id r) undone)) (blocks (fst c)) /\
  transactions (fst c')
  = filter (fun r => negb (mem (txr_block_id r) undone))
           (transactions (fst c)) /\
  transaction_inputs (fst c')
  = filter (fun r => negb (mem (inr_transaction_id r)
                               (transactions_of_blocks (fst c) undone)))
           (transaction_inputs (fst c)) /\
  map forget_spent (transaction_outputs (fst c'))
  = map forget_spent
        (filter (fun r => negb (mem (otr_transaction_id r)
                                    (transactions_of_blocks (fst c) undone)))
                (transaction_outputs (fst c))) /\
  map bal_address (address_balances (fst c'))
  = map bal_address (address_balances (fst c)).
Proof.
  cbv zeta. revert c; induction bs as [|b bs IH]; intros c Hnd;
    cbn [fold_left map].
  - unfold transactions_of_blocks, mem. cbn [existsb filter map].
    rewrite (filter_all_false (transactions (fst c))).
    cbn [map existsb]. rewrite !filter_all_true. repeat split.
  - destruct (rollbackBlock_tables c b Hnd) as (B1 & T1 & _).
    destruct (rollbackBlock_rows c b) as (I1 & O1).
    assert (NoDup (map txr_id (transactions (fst (rollbackBlock_session c b)))))
      as Hnd1 by (rewrite T1; now apply NoDup_map_filter).
    destruct (IH (rollbackBlock_session c b) Hnd1) as (B & T & I & O & A).
    assert (forall x,
               negb (mem x (select_transaction_ids (fst c) (blk_id b)))
               && negb (mem x (transactions_of_blocks
                                 (fst (rollbackBlock_session c b)) (map blk_id bs)))
               = negb (mem x (transactions_of_blocks
                                (fst c) (blk_id b :: map blk_id bs))))
      as Hmem.
    { intros x. rewrite <- negb_orb. f_equal. apply bool_eq_of_iff.
      rewrite orb_true_iff, !mem_In, !In_transactions_of_blocks,
        In_select_transaction_ids, T1.
      split.
      - intros [(r & Hr & E & Hb) | (r & Hr & E & Hb)].
        + exists r. repeat split; try assumption. now left.
        + apply filter_In in Hr. destruct Hr as (Hr & _).
          exists r. repeat split; try assumption. now right.
      - intros (r & Hr & E & [Hb | Hb]).
        + left. now exists r.
        + destruct (String.eqb_spec (txr_block_id r) (blk_id b)) as [Eb | Nb].
          * left. now exists r.
          * right. exists r. repeat split; try assumption.
            apply filter_In. split; [exact Hr|].
            apply negb_true_iff. now apply String.eqb_neq. }
    rewrite B, T, I, A, B1, T1, I1, !filter_filter.
    rewrite rollbackBlock_keeps_addresses.
    repeat split.
    + apply filter_ext. intros r. unfold mem. cbn [existsb].
      now rewrite negb_orb.
    + apply filter_ext. intros r. unfold mem. cbn [existsb].
      now rewrite negb_orb.
    + apply filter_ext. intros r. apply Hmem.
    + rewrite O.
      transitivity
        (map forget_spent
           (filter (fun r => negb (mem (otr_transaction_id r)
                                       (transactions_of_blocks
                                          (fst (rollbackBlock_session c b))
                                          (map blk_id bs))))
              (filter (fun r => negb (mem (otr_transaction_id r)
                                          (select_transaction_ids
                                             (fst c) (blk_id b))))
                 (transaction_outputs (fst c))))).
      * apply filter_forget_spent; [|exact O1].
        intros r r' H. apply forget_spent_fields in H.
        destruct H as (-> & _). reflexivity.
      * f_equal. rewrite filter_filter. apply filter_ext. intros r.
        apply Hmem.
Qed.

Lemma has_row_addresses db db' a :
  map bal_address (address_balances db') = map bal_address (address_balances db) ->
  has_row db' a = has_row db a.
Proof.
  unfold has_row. intros H.
  assert (forall rows, existsb (balance_of a) rows
                       = existsb (fun x => String.eqb x a) (map bal_address rows))
    as Hx.
  { intros rows. induction rows as [|r rows IH]; [reflexivity|].
    cbn [map existsb]. now rewrite IH. }
  now rewrite !Hx, H.
Qed.

Lemma select_blocks_above_In db target b :
  In b (select_blocks_above db target) <->
  In b (blocks db) /\ target < blk_height b.
Proof.
  unfold select_blocks_above. split.
  - intros H. apply (Permutation_in _ (order_by_height_desc_perm _)) in H.
    apply filter_In in H. destruct H as (H & Hh). split; [exact H | lia].
  - intros (H & Hh).
    apply (Permutation_in _ (Permutation_sym (order_by_height_desc_perm _))).
    apply filter_In. split; [exact H | lia].
Qed.

Lemma rollbackToHeight_rows
  (db : Db) (targetHeight : Z) :
  store_ok db ->
  let back := fst (rollbackToHeight_session db targetHeight) in
  blocks back
  = filter (fun r => blk_height r <=? targetHeight) (blocks db) /\
  transactions back
  = filter (fun r => mem (txr_block_id r) (map blk_id (blocks back)))
           (transactions db) /\
  transaction_inputs back
  = filter (fun r => mem (inr_transaction_id r)
                         (map txr_id (transactions back)))
           (transaction_inputs db) /\
  map forget_spent (transaction_outputs back)
  = map forget_spent
        (filter (fun r => mem (otr_transaction_id r)
                              (map txr_id (transactions back)))
                (transaction_outputs db)) /\
  map bal_address (address_balances back)
  = map bal_address (address_balances db) /\
  store_ok back.
Proof.
  intros ((Kb & Kt) & (F1 & F2 & F3) & Hcov) back.
  set (undone := map blk_id (select_blocks_above db targetHeight)).
  destruct (fold_rollbackBlock_rows (select_blocks_above db targetHeight)
              (db, []) Kt) as (B & T & I & O & A).
  cbn [fst] in B, T, I, O, A. fold undone in B, T, I, O.
  change (fst (fold_left rollbackBlock_session
                 (select_blocks_above db targetHeight) (db, [])))
    with back in B, T, I, O, A.
  assert (forall r, In r (blocks db) ->
                    (In (blk_id r) undone <-> targetHeight < blk_height r))
    as Hundone.
  { intros r Hr. unfold undone. rewrite in_map_iff. split.
    - intros (b & E & Hb). apply select_blocks_above_In in Hb.
      destruct Hb as (Hb & Hh).
      now rewrite <- (NoDup_map_eq blk_id _ b r Kb Hb Hr E).
    - intros Hh. exists r. split; [reflexivity|].
      apply select_blocks_above_In. now split. }
  assert (blocks back
          = filter (fun r => blk_height r <=? targetHeight) (blocks db))
    as HB.
  { rewrite B. apply filter_ext_in. intros r Hr. apply bool_eq_of_iff.
    rewrite negb_true_iff, Z.leb_le. split.
    - intros H. destruct (Z.le_gt_cases (blk_height r) targetHeight) as [L|G];
        [exact L|].
      apply (Hundone r Hr), mem_In in G. congruence.
    - intros H. destruct (mem (blk_id r) undone) eqn:E; [|reflexivity].
      apply mem_In, (Hundone r Hr) in E. lia. }
  assert (forall x, In x (map blk_id (blocks db)) ->
                    (In x (map blk_id (blocks back)) <-> ~ In x undone))
    as Hkept.
  { intros x Hx. rewrite B, in_map_iff. split.
    - intros (b & E & Hb). apply filter_In in Hb. destruct Hb as (_ & Hb).
      apply negb_true_iff in Hb. intros Hu. apply mem_In in Hu. congruence.
    - intros Hu. apply in_map_iff in Hx. destruct Hx as (b & E & Hb).
      exists b. split; [exact E|]. apply filter_In. split; [exact Hb|].
      apply negb_true_iff. destruct (mem (blk_id b) undone) eqn:Em;
        [|reflexivity].
      apply mem_In in Em. congruence. }
  assert (transactions back
          = filter (fun r => mem (txr_block_id r) (map blk_id (blocks back)))
                   (transactions db)) as HT.
  { rewrite T. apply filter_ext_in. intros r Hr. apply bool_eq_of_iff.
    rewrite negb_true_iff, mem_In, (Hkept _ (F1 r Hr)), <- mem_In.
    destruct (mem (txr_block_id r) undone); intuition congruence. }
  assert (forall x, In x (map txr_id (transactions db)) ->
                    (In x (map txr_id (transactions back)) <->
                     ~ In x (transactions_of_blocks db undone))) as Hkeptx.
  { intros x Hx. rewrite T, In_transactions_of_blocks, in_map_iff. split.
    - intros (r & E & Hr). apply filter_In in Hr. destruct Hr as (Hr & Hm).
      apply negb_true_iff in Hm. intros (r' & Hr' & E' & Hu).
      assert (r' = r) by (eapply NoDup_map_eq; eauto; congruence). subst r'.
      apply mem_In in Hu. congruence.
    - intros Hn. apply in_map_iff in Hx. destruct Hx as (r & E & Hr).
      exists r. split; [exact E|]. apply filter_In. split; [exact Hr|].
      apply negb_true_iff. destruct (mem (txr_block_id r) undone) eqn:Em;
        [|reflexivity].
      exfalso. apply Hn. exists r. repeat split; try assumption.
      now apply mem_In. }
  assert (forall x, In x (map txr_id (transactions db)) ->
                    negb (mem x (transactions_of_blocks db undone))
                    = mem x (map txr_id (transactions back))) as Hbool.
  { intros x Hx. apply bool_eq_of_iff.
    rewrite negb_true_iff, mem_In, (Hkeptx x Hx), <- mem_In.
    destruct (mem x (transactions_of_blocks db undone));
      intuition congruence. }
  assert (transaction_inputs back
          = filter (fun r => mem (inr_transaction_id r)
                                 (map txr_id (transactions back)))
                   (transaction_inputs db)) as HI.
  { rewrite I. apply filter_ext_in. intros r Hr. apply Hbool, F2, Hr. }
  assert (map forget_spent (transaction_outputs back)
          = map forget_spent
              (filter (fun r => mem (otr_transaction_id r)
                                    (map txr_id (transactions back)))
                      (transaction_outputs db))) as HO.
  { rewrite O. f_equal. apply filter_ext_in. intros r Hr.
    apply Hbool, F3, Hr. }
  repeat split; try assumption.
  - rewrite B. now apply NoDup_map_filter.
  - rewrite T. now apply NoDup_map_filter.
  - intros r Hr. rewrite HT in Hr. apply filter_In in Hr.
    destruct Hr as (_ & Hr). now apply mem_In.
  - intros r Hr. rewrite HI in Hr. apply filter_In in Hr.
    destruct Hr as (_ & Hr). now apply mem_In.
  - intros r Hr. destruct (map_eq_In _ _ _ _ HO Hr) as (r0 & Hr0 & E).
    apply filter_In in Hr0. destruct Hr0 as (_ & Hr0). apply mem_In in Hr0.
    apply forget_spent_fields in E. destruct E as (E & _). congruence.
  - intros r Hr. destruct (map_eq_In _ _ _ _ HO Hr) as (r0 & Hr0 & E).
    apply filter_In in Hr0. destruct Hr0 as (Hr0 & _).
    apply forget_spent_fields in E. destruct E as (_ & E & _).
    change (has_row back (otr_address r) = true).
    rewrite <- E, (has_row_addresses db back _ A). now apply Hcov.
Qed.

(** X6. On a well-formed store ([store_ok]), when [rollbackToHeight]
    commits it keeps exactly the blocks at or below the target, the
    transactions of the kept blocks, and the input and output rows of the
    kept transactions, all in their stored order and unchanged but for the
    spent flags of outputs; it neither adds nor removes a balance row; and
    the store it leaves is well formed again.  When it throws, the store is
    as before. *)
Theorem rollbackToHeight_keeps_rows_at_or_below_target
  (db : Db) (targetHeight : Z) :
  store_ok db ->
  (snd (rollbackToHeight db targetHeight) = None ->
   let back := fst (rollbackToHeight db targetHeight) in
   blocks back
   = filter (fun r => blk_height r <=? targetHeight) (blocks db) /\
   transactions back
   = filter (fun r => mem (txr_block_id r) (map blk_id (blocks back)))
            (transactions db) /\
   transaction_inputs back
   = filter (fun r => mem (inr_transaction_id r)
                          (map txr_id (transactions back)))
            (transaction_inputs db) /\
   map forget_spent (transaction_outputs back)
   = map forget_spent
         (filter (fun r => mem (otr_transaction_id r)
                               (map txr_id (transactions back)))
                 (transaction_outputs db)) /\
   map bal_address (address_balances back)
   = map bal_address (address_balances db) /\
   store_ok back) /\
  (snd (rollbackToHeight db targetHeight) <> None ->
   fst (rollbackToHeight db targetHeight) = db).
Proof.
  intros Hok. split.
  - intros Hc. cbv zeta. rewrite (rollbackToHeight_commit _ _ Hc).
    apply (rollbackToHeight_rows db targetHeight Hok).
  - destruct (snd (rollbackToHeight db targetHeight)) as [e|] eqn:E;
      [|congruence].
    intros _. now apply (rollbackToHeight_atomic db targetHeight e).
Qed.

Lemma rollbackToHeight_keeps_rows_at_or_below_target_witness :
  (blocks (fst (rollbackToHeight store_three 1))
   = filter (fun r => blk_height r <=? 1) (blocks store_three) /\
   store_ok (fst (rollbackToHeight store_three 1))) /\
  fst (rollbackToHeight (svc_db service_h2) 1) = svc_db service_h2.
Proof.
  assert (store_ok store_three) as Hok
    by (repeat apply processBlock_store_ok; apply store_ok_empty).
  assert (store_ok (svc_db service_h2)) as Hok2.
  { change (svc_db service_h2)
      with (fst (processBlock (fst (processBlock empty_db block_h1))
                              block_h2)).
    repeat apply processBlock_store_ok. apply store_ok_empty. }
  split.
  - destruct (proj1 (rollbackToHeight_keeps_rows_at_or_below_target
                       store_three 1 Hok) eq_refl)
      as (H1 & _ & _ & _ & _ & H6).
    split; [exact H1 | exact H6].
  - apply (proj2 (rollbackToHeight_keeps_rows_at_or_below_target
                    (svc_db service_h2) 1 Hok2)).
    vm_compute. discriminate.
Defined.

(* ================================================================= *)
(** ** Rolling back twice *)


Lemma select_blocks_above_none db target :
  (forall r, In r (blocks db) -> blk_height r <= target) ->
  select_blocks_above db target = [].
Proof.
  intros H. unfold select_blocks_above.
  replace (filter _ (blocks db)) with (@nil BlockRow); [reflexivity|].
  symmetry. apply filter_none.
  destruct (existsb _ (blocks db)) eqn:E; [|reflexivity].
  apply existsb_exists in E. destruct E as (r & Hr & Hh).
  specialize (H r Hr). lia.
Qed.

(** X7. [rollbackToHeight] to a target that no stored block exceeds issues
    no statement and leaves the store as it is.  Hence, on a well-formed
    store ([store_ok]), rolling back to the same target a second time
    changes nothing more. *)
Theorem rollbackToHeight_idempotent (db : Db) (targetHeight : Z) :
  ((forall r, In r (blocks db) -> blk_height r <= targetHeight) ->
   rollbackToHeight_session db targetHeight = (db, [])) /\
  (store_ok db ->
   rollbackToHeight (fst (rollbackToHeight db targetHeight)) targetHeight
   = rollbackToHeight db targetHeight).
Proof.
  assert (forall d, (forall r, In r (blocks d) -> blk_height r <= targetHeight) ->
                    rollbackToHeight_session d targetHeight = (d, [])) as H.
  { intros d Hd. unfold rollbackToHeight_session.
    now rewrite select_blocks_above_none. }
  split; [apply H|].
  intros Hok.
  destruct (rollbackToHeight_fst db targetHeight) as [-> | (Hc & E)];
    [reflexivity|].
  destruct (rollbackToHeight_rows db targetHeight Hok) as (HB & _).
  cbv zeta in HB. rewrite <- E in HB.
  assert (in_int4 targetHeight = true) as Hr.
  { rewrite rollbackToHeight_executes in Hc.
    destruct (in_int4 targetHeight); [reflexivity | discriminate]. }
  rewrite (rollbackToHeight_executes (fst (rollbackToHeight db targetHeight))),
    Hr, H.
  - cbn [snd execute for_each].
    destruct (rollbackToHeight db targetHeight) as (back & err).
    cbn [fst snd] in *. now subst err.
  - intros r Hin. rewrite HB in Hin. apply filter_In in Hin. lia.
Qed.

Lemma rollbackToHeight_idempotent_witness :
  rollbackToHeight_session store_two 2 = (store_two, []) /\
  rollbackToHeight (fst (rollbackToHeight store_three 1)) 1
  = rollbackToHeight store_three 1.
Proof.
  split.
  - apply (proj1 (rollbackToHeight_idempotent store_two 2)).
    intros r Hr. vm_compute in Hr.
    destruct Hr as [<- | [<- | []]]; vm_compute; discriminate.
  - apply (proj2 (rollbackToHeight_idempotent store_three 1)).
    repeat apply processBlock_store_ok. apply store_ok_empty.
Defined.

(* ================================================================= *)
(** ** Undoing transactions that spent nothing *)

Lemma fold_debits rows db :
  (forall r, In r rows -> has_row db (otr_address r) = true) ->
  let db' := fold_left (fun db s => exec s db)
               (map (fun o => DebitBalance (otr_address o) (otr_value o)) rows)
               db in
  blocks db' = blocks db /\
  transactions db' = transactions db /\
  transaction_inputs db' = transaction_inputs db /\
  transaction_outputs db' = transaction_outputs db /\
  (forall a, has_row db' a = has_row db a) /\
  (forall a, getAddressBalance db' a
             = getAddressBalance db a
               - sumZ (map otr_value
                           (filter (fun r => String.eqb (otr_address r) a)
                                   rows))).
Proof.
  cbv zeta. revert db; induction rows as [|r rows IH]; intros db Hrows;
    cbn [map fold_left filter].
  - repeat split. intros a. unfold sumZ. cbn [map fold_right]. lia.
  - cbn [exec].
    destruct (IH (update_balance db (otr_address r) (- otr_value r)))
      as (B & T & I & O & R & Hbal).
    { intros r' Hr'. rewrite has_row_update_balance. apply Hrows. now right. }
    rewrite B, T, I, O. repeat split.
    + intros a. now rewrite R, has_row_update_balance.
    + intros a. rewrite Hbal, getAddressBalance_update_balance
        by (left; apply Hrows; now left).
      destruct (String.eqb (otr_address r) a); unfold sumZ;
        cbn [map fold_right]; lia.
Qed.

Lemma rollbackTransaction_spends_nothing c txId :
  filter (input_of txId) (transaction_inputs (fst c)) = [] ->
  (forall r, In r (transaction_outputs (fst c)) ->
             output_of txId r = true ->
             has_row (fst c) (otr_address r) = true) ->
  let db' := fst (rollbackTransaction_session c txId) in
  transaction_inputs db' = transaction_inputs (fst c) /\
  transaction_outputs db'
  = filter (fun r => negb (output_of txId r)) (transaction_outputs (fst c)) /\
  (forall a, has_row db' a = has_row (fst c) a) /\
  (forall a, getAddressBalance db' a
             = getAddressBalance (fst c) a
               - sumZ (map otr_value
                           (filter (fun r => String.eqb (otr_address r) a)
                                   (filter (output_of txId)
                                           (transaction_outputs (fst c)))))).
Proof.
  intros Hin Hcov. cbv zeta.
  rewrite rollbackTransaction_issue, fold_issue. cbn [fst].
  unfold transaction_undo. rewrite Hin. cbn [flat_map app].
  rewrite fold_left_app. cbn [fold_left].
  destruct (fold_debits (filter (output_of txId) (transaction_outputs (fst c)))
                        (fst c)) as (B & T & I & O & R & Hbal).
  { intros r Hr. apply filter_In in Hr. destruct Hr as (Hr & Ho).
    now apply Hcov. }
  cbn [exec transaction_inputs transaction_outputs].
  rewrite I, O. repeat split.
  - now apply filter_negb_none.
  - exact R.
  - exact Hbal.
Qed.

Lemma debited_cons ids a t rows :
  debited (t :: ids) a rows
  = sumZ (map otr_value
              (filter (fun r => String.eqb (otr_address r) a)
                      (filter (output_of t) rows)))
    + debited ids a (filter (fun r => negb (output_of t r)) rows).
Proof.
  unfold debited.
  change (fun r => mem (otr_transaction_id r) (t :: ids)
                   && String.eqb (otr_address r) a)
    with (fun r => (output_of t r || mem (otr_transaction_id r) ids)
                   && String.eqb (otr_address r) a).
  induction rows as [|r rows IH]; cbn [filter]; [reflexivity|].
  destruct (output_of t r); cbn [orb andb negb filter].
  - destruct (String.eqb (otr_address r) a); cbn [map]; unfold sumZ in *;
      cbn [fold_right]; lia.
  - destruct (mem (otr_transaction_id r) ids && String.eqb (otr_address r) a);
      cbn [map]; unfold sumZ in *; cbn [fold_right]; lia.
Qed.

Lemma fold_rollbackTransaction_spends_nothing ids c :
  (forall t, In t ids ->
             filter (input_of t) (transaction_inputs (fst c)) = []) ->
  (forall r, In r (transaction_outputs (fst c)) ->
             mem (otr_transaction_id r) ids = true ->
             has_row (fst c) (otr_address r) = true) ->
  let db' := fst (fold_left rollbackTransaction_session ids c) in
  transaction_inputs db' = transaction_inputs (fst c) /\
  transaction_outputs db'
  = filter (fun r => negb (mem (otr_transaction_id r) ids))
           (transaction_outputs (fst c)) /\
  (forall a, getAddressBalance db' a
             = getAddressBalance (fst c) a
               - debited ids a (transaction_outputs (fst c))).
Proof.
  cbv zeta. revert c; induction ids as [|t ids IH]; intros c Hin Hcov;
    cbn [fold_left].
  - unfold mem. cbn [existsb]. rewrite filter_all_true. repeat split.
    intros a. unfold debited, mem. cbn [existsb andb].
    rewrite filter_all_false. unfold sumZ. cbn [map fold_right]. lia.
  - destruct (rollbackTransaction_spends_nothing c t) as (I1 & O1 & R1 & Hb1).
    { apply Hin. now left. }
    { intros r Hr Ho. apply Hcov; [exact Hr|]. unfold mem. cbn [existsb].
      unfold output_of in Ho. now rewrite Ho. }
    destruct (IH (rollbackTransaction_session c t)) as (I & O & Hb).
    { intros t' Ht'. rewrite I1. apply Hin. now right. }
    { intros r Hr Hm. rewrite R1. rewrite O1 in Hr. apply filter_In in Hr.
      destruct Hr as (Hr & _). apply Hcov; [exact Hr|].
      unfold mem in *. cbn [existsb]. rewrite Hm. apply orb_true_r. }
    rewrite I, O, I1, O1, filter_filter. repeat split.
    + apply filter_ext. intros r. unfold mem, output_of. cbn [existsb].
      now rewrite negb_orb.
    + intros a. rewrite Hb, Hb1, O1, debited_cons. lia.
Qed.

(* ================================================================= *)
(** ** Applying and undoing a block that spends nothing *)

Lemma debited_app ids a rows1 rows2 :
  debited ids a (rows1 ++ rows2) = debited ids a rows1 + debited ids a rows2.
Proof.
  unfold debited, sumZ. rewrite filter_app, map_app, fold_right_app.
  generalize (map otr_value
                (filter (fun r => mem (otr_transaction_id r) ids
                                  && String.eqb (otr_address r) a) rows2)).
  intros l2.
  induction (map otr_value
               (filter (fun r => mem (otr_transaction_id r) ids
                                 && String.eqb (otr_address r) a) rows1))
    as [|x l IH]; cbn [fold_right]; lia.
Qed.

Lemma debited_output_rows ids a txId i outs :
  mem txId ids = true ->
  debited ids a (output_rows txId i outs) = paid_to a outs.
Proof.
  intros Hm. revert i; induction outs as [|o outs IH]; intros i;
    [reflexivity|].
  rewrite paid_to_cons, <- (IH (i + 1)). unfold debited.
  cbn [output_rows filter otr_transaction_id otr_address]. rewrite Hm.
  cbn [andb]. destruct (String.eqb (out_address o) a); unfold sumZ;
    cbn [map fold_right otr_value]; lia.
Qed.

Lemma debited_block_rows ids a txs :
  (forall tx, In tx txs -> mem (tx_id tx) ids = true) ->
  debited ids a
    (flat_map (fun tx => output_rows (tx_id tx) 0 (tx_outputs tx)) txs)
  = paid_to a (flat_map tx_outputs txs).
Proof.
  induction txs as [|tx txs IH]; intros H; cbn [flat_map]; [reflexivity|].
  rewrite debited_app, paid_to_app, debited_output_rows by (apply H; now left).
  rewrite IH; [reflexivity|]. intros tx' Htx'. apply H. now right.
Qed.

Lemma In_block_output_rows txs r :
  In r (flat_map (fun tx => output_rows (tx_id tx) 0 (tx_outputs tx)) txs) ->
  exists tx o, In tx txs /\ In o (tx_outputs tx) /\
               otr_transaction_id r = tx_id tx /\
               otr_address r = out_address o.
Proof.
  intros H. apply in_flat_map in H. destruct H as (tx & Htx & Hr).
  apply In_output_rows in Hr. destruct Hr as (E & _ & o & Ho & Ea & _).
  now exists tx, o.
Qed.

(** X8. On a well-formed store ([store_ok]), let a
    block whose transactions have no inputs, and whose height is above every
    stored block, be committed by [processBlock], and let [rollbackToHeight]
    to the height below it commit.  Then the rollback restores the four
    tables of blocks, transactions, inputs and outputs exactly, and every
    address reads the balance it had before the block. *)
Theorem rollback_restores_block_that_spends_nothing (db : Db) (block : Block) :
  store_ok db ->
  (forall r, In r (blocks db) -> blk_height r < block_height block) ->
  Forall spends_nothing (block_transactions block) ->
  snd (processBlock db block) = None ->
  snd (rollbackToHeight (fst (processBlock db block))
                        (block_height block - 1)) = None ->
  let back := fst (rollbackToHeight (fst (processBlock db block))
                                    (block_height block - 1)) in
  blocks back = blocks db /\
  transactions back = transactions db /\
  transaction_inputs back = transaction_inputs db /\
  transaction_outputs back = transaction_outputs db /\
  (forall address,
     getAddressBalance back address = getAddressBalance db address).
Proof.
  intros ((Kb & Kt) & (F1 & F2 & F3) & Hcov) Hlow Hall Hc Hrb.
  rewrite (rollbackToHeight_commit _ _ Hrb). clear Hrb.
  destruct (processBlock_committed db block Hc) as (_ & E1 & E2 & Ef & _).
  clear Hc. generalize dependent (fst (processBlock db block)).
  intros db' Ef.
  apply existsb_eqb_not_In in E1.
  set (db1 := mkDb _ _ _ _ _) in Ef.
  set (txs := block_transactions block) in *.
  set (ids := map tx_id txs).
  set (brow := mkBlockRow (block_id block) (block_height block)).
  destruct (for_each_processTransaction_rows _ _ _ _ Ef) as (B & T).
  destruct (for_each_spends_nothing _ _ _ _ Hall Ef)
    as (I & O & Hbal & Rmono & Rnew).
  assert (exists d, for_each (processTransaction_unbounded (block_id block)) txs db1
                    = Ok d) as Hex by now exists db'.
  apply for_each_processTransaction_ok in Hex. destruct Hex as (Hnd & Hfresh).
  cbn [blocks transactions transaction_inputs transaction_outputs
       address_balances db1] in B, T, I, O, Hfresh.
  assert (forall r, In r (transaction_outputs db) ->
                    mem (otr_transaction_id r) ids = false) as Hold.
  { intros r Hr. destruct (mem (otr_transaction_id r) ids) eqn:Em;
      [|reflexivity].
    exfalso. apply mem_In in Em. unfold ids in Em. apply in_map_iff in Em.
    destruct Em as (tx & E & Htx). apply (Hfresh tx Htx). rewrite E.
    now apply F3. }
  assert (forall r, In r (flat_map
                            (fun tx => output_rows (tx_id tx) 0 (tx_outputs tx))
                            txs) ->
                    mem (otr_transaction_id r) ids = true) as Hnew.
  { intros r Hr. apply In_block_output_rows in Hr.
    destruct Hr as (tx & o & Htx & _ & E & _). apply mem_In. rewrite E.
    unfold ids. now apply in_map. }
  (* the blocks above the target *)
  assert (select_blocks_above db' (block_height block - 1) = [brow]) as Habove.
  { unfold select_blocks_above. rewrite B, filter_app.
    rewrite (filter_nothing _ (blocks db)).
    - cbn [filter blk_height app].
      replace (block_height block - 1 <? block_height block) with true
        by (symmetry; apply Z.ltb_lt; lia).
      reflexivity.
    - intros r Hr. apply Z.ltb_ge. specialize (Hlow r Hr). lia. }
  (* the transactions of the block *)
  assert (select_transaction_ids db' (block_id block) = ids) as Hids.
  { unfold select_transaction_ids. rewrite T, filter_app.
    rewrite (filter_nothing _ (transactions db)).
    - cbn [app]. rewrite filter_all.
      + unfold ids. rewrite map_map. reflexivity.
      + intros r Hr. apply in_map_iff in Hr. destruct Hr as (tx & <- & _).
        apply String.eqb_refl.
    - intros r Hr. apply String.eqb_neq. intros E. apply E1. rewrite <- E.
      now apply F1. }
  unfold rollbackToHeight_session.
  rewrite Habove. cbn [fold_left]. unfold rollbackBlock_session.
  cbn [fst blk_id brow]. rewrite Hids, issue_fst.
  destruct (fold_rollbackTransaction_tables ids (db', [])) as (B' & T' & _).
  destruct (fold_rollbackTransaction_spends_nothing ids (db', []))
    as (I' & O' & Hbal').
  { intros t Ht. cbn [fst]. rewrite I. apply filter_nothing.
    intros r Hr. unfold input_of. apply String.eqb_neq. intros E.
    unfold ids in Ht. apply in_map_iff in Ht. destruct Ht as (tx & Et & Htx).
    apply (Hfresh tx Htx). rewrite Et, <- E. now apply F2. }
  { intros r Hr _. cbn [fst] in *. rewrite O in Hr. apply in_app_or in Hr.
    destruct Hr as [Hr | Hr].
    - apply Rmono. now apply Hcov.
    - apply In_block_output_rows in Hr.
      destruct Hr as (tx & o & Htx & Ho & _ & ->). apply Rnew.
      apply in_flat_map. now exists tx. }
  cbn [fst] in B', T', I', O', Hbal'.
  cbn [exec blocks transactions transaction_inputs transaction_outputs].
  rewrite B', T', I', O', B, T, I, O, !filter_app.
  repeat split.
  - rewrite filter_all.
    + cbn [filter blk_id]. rewrite String.eqb_refl. cbn [negb].
      apply app_nil_r.
    + intros r Hr. apply negb_true_iff, String.eqb_neq. intros E.
      apply E1. rewrite <- E. now apply in_map.
  - rewrite filter_all, filter_nothing; [apply app_nil_r | |].
    + intros r Hr. apply in_map_iff in Hr. destruct Hr as (tx & <- & Htx).
      apply negb_false_iff. cbn [txr_id]. apply existsb_exists.
      exists (tx_id tx). split; [now apply in_map | apply String.eqb_refl].
    + intros r Hr. apply negb_true_iff.
      destruct (existsb _ ids) eqn:Ex; [|reflexivity]. exfalso.
      apply existsb_exists in Ex. destruct Ex as (t & Ht & Et).
      apply String.eqb_eq in Et. unfold ids in Ht. apply in_map_iff in Ht.
      destruct Ht as (tx & Etx & Htx). apply (Hfresh tx Htx).
      rewrite Etx, <- Et. now apply in_map.
  - rewrite filter_all, filter_nothing; [apply app_nil_r | |].
    + intros r Hr. now rewrite (Hnew r Hr).
    + intros r Hr. now rewrite (Hold r Hr).
  - intros a.
    change (getAddressBalance
              (fst (fold_left rollbackTransaction_session ids (db', []))) a
            = getAddressBalance db a).
    rewrite Hbal', Hbal, O, debited_app, debited_block_rows.
    + assert (debited ids a (transaction_outputs db) = 0) as ->.
      { unfold debited. rewrite filter_nothing; [reflexivity|].
        intros r Hr. now rewrite (Hold r Hr). }
      unfold getAddressBalance, db1. cbn [address_balances]. lia.
    + intros tx Htx. apply mem_In. unfold ids. now apply in_map.
Qed.

Lemma rollback_restores_block_that_spends_nothing_witness :
  transaction_outputs
    (fst (rollbackToHeight (fst (processBlock store_one block_mint)) 1))
  = transaction_outputs store_one /\
  getAddressBalance
    (fst (rollbackToHeight (fst (processBlock store_one block_mint)) 1)) "E"
  = getAddressBalance store_one "E".
Proof.
  assert (store_ok store_one) as Hok
    by (apply processBlock_store_ok, store_ok_empty).
  assert (forall r, In r (blocks store_one) ->
                    blk_height r < block_height block_mint) as Hlow.
  { intros r [<- | []]. reflexivity. }
  assert (Forall spends_nothing (block_transactions block_mint)) as Hall
    by (repeat constructor).
  destruct (rollback_restores_block_that_spends_nothing
              store_one block_mint Hok Hlow Hall eq_refl eq_refl)
    as (_ & _ & _ & H4 & H5).
  split; [exact H4 | exact (H5 "E")].
Defined.

(* ================================================================= *)
(** ** The height in memory and the stored blocks *)

Lemma tracked_max_height svc :
  tracked svc -> currentHeight svc = max_height (svc_db svc).
Proof.
  intros (_ & H0 & Hh).
  destruct (max_height_spec (svc_db svc)) as (Hempty & Hin & Hmax).
  destruct (blocks (svc_db svc)) as [|b bs] eqn:Eb.
  - rewrite Hempty by reflexivity.
    destruct (Z.le_gt_cases 1 (currentHeight svc)) as [H1 | H1]; [|lia].
    assert (In (currentHeight svc) (map blk_height [])) as []
      by (apply Hh; lia).
  - assert (In (max_height (svc_db svc)) (map blk_height (b :: bs))) as Hm
      by (apply Hin; discriminate).
    apply Hh in Hm.
    assert (In (currentHeight svc) (map blk_height (b :: bs))) as Hc
      by (apply Hh; lia).
    apply in_map_iff in Hc. destruct Hc as (r & Er & Hr).
    specialize (Hmax r Hr). lia.
Qed.

Lemma tracked_initial : tracked (initialize empty_db).
Proof.
  split; [apply store_ok_empty|]. split; [reflexivity|].
  intros h. cbn. split; [intros [] | lia].
Qed.

Lemma processBlock_unit_blocks db block db' :
  processBlock_unit db block = Ok db' ->
  blocks db' = blocks db ++ [mkBlockRow (block_id block) (block_height block)].
Proof.
  intros H. apply processBlock_unit_ok in H. destruct H as (_ & _ & _ & Ef).
  apply for_each_processTransaction_ok_unbounded in Ef.
  destruct Ef as (Ef & _).
  apply for_each_processTransaction_rows in Ef. now destruct Ef as (-> & _).
Qed.

Lemma validateBlock_valid_height sha256hex svc block :
  isValid (validateBlock sha256hex svc block) = true ->
  block_height block = currentHeight svc + 1.
Proof.
  unfold validateBlock, getCurrentHeight.
  destruct (isValid (validateHeight _ _)) eqn:E; cbn [negb].
  - intros _. now apply validateHeight_valid.
  - congruence.
Qed.

Lemma tracked_post_blocks sha256hex svc block :
  tracked svc -> tracked (fst (post_blocks sha256hex svc block)).
Proof.
  intros Ht.
  destruct (post_blocks_cases sha256hex svc block)
    as [(_ & ->) | [(_ & _ & ->) | (Hv & db' & Hu & ->)]];
    cbn [fst]; try exact Ht.
  destruct Ht as (Hok & H0 & Hh).
  apply validateBlock_valid_height in Hv.
  split; [|split]; cbn [svc_db currentHeight].
  - pose proof (processBlock_store_ok (svc_db svc) block Hok) as H.
    unfold processBlock in H. now rewrite Hu in H.
  - lia.
  - intros h. rewrite (processBlock_unit_blocks _ _ _ Hu), map_app, in_app_iff.
    cbn [map In blk_height]. rewrite Hh. lia.
Qed.

Lemma validateRollbackHeight_valid_bounds target current :
  isValid (validateRollbackHeight (Some target) current) = true ->
  1 <= target <= current.
Proof.
  unfold validateRollbackHeight.
  destruct (Z.ltb_spec target 1); [discriminate|].
  destruct (Z.ltb_spec current target); [discriminate|]. lia.
Qed.

Lemma tracked_post_rollback svc targetHeight :
  tracked svc -> tracked (fst (post_rollback svc targetHeight)).
Proof.
  intros Ht.
  destruct (post_rollback_cases svc targetHeight)
    as [(_ & ->) | [(target & e & _ & _ & _ & ->)
                   | (target & c & -> & Hv & Hc & ->)]]; cbn [fst];
    try exact Ht.
  apply rollbackToHeight_unit_ok in Hc. subst c.
  destruct Ht as (Hok & H0 & Hh).
  apply validateRollbackHeight_valid_bounds in Hv.
  destruct (rollbackToHeight_rows (svc_db svc) target Hok)
    as (HB & _ & _ & _ & _ & Hok').
  split; [exact Hok'|]. split; cbn [svc_db currentHeight]; [lia|].
  intros h. rewrite HB, in_map_iff. split.
  - intros (r & <- & Hr). apply filter_In in Hr. destruct Hr as (Hr & Hl).
    assert (1 <= blk_height r <= currentHeight svc)
      by (apply Hh; now apply in_map).
    lia.
  - intros Hb. assert (In h (map blk_height (blocks (svc_db svc)))) as Hin
      by (apply Hh; lia).
    apply in_map_iff in Hin. destruct Hin as (r & <- & Hr).
    exists r. split; [reflexivity|]. apply filter_In. split; [exact Hr|lia].
Qed.

Lemma tracked_serve sha256hex reqs : tracked (serve sha256hex reqs).
Proof.
  unfold serve.
  assert (forall svc, tracked svc ->
                      tracked (fold_left (handle sha256hex) reqs svc)) as H.
  { induction reqs as [|req reqs IH]; intros svc Ht; cbn [fold_left];
      [exact Ht|].
    apply IH. destruct req; cbn [handle].
    - now apply tracked_post_blocks.
    - exact Ht.
    - now apply tracked_post_rollback. }
  apply H, tracked_initial.
Qed.

(** X9. Start the server on an empty database and let it answer any
    requests, one after the other.  Then the store is well formed
    ([store_ok]), the stored block heights are exactly 1 up to the height
    held in memory, and that height is the one [loadCurrentHeight] computes
    from the store: a restart on the same store gives the same state. *)
Theorem served_height_matches_store
  (sha256hex : string -> string) (reqs : list Request) :
  let svc := serve sha256hex reqs in
  store_ok (svc_db svc) /\
  (forall h, In h (map blk_height (blocks (svc_db svc))) <->
             1 <= h <= getCurrentHeight svc) /\
  getCurrentHeight svc = max_height (svc_db svc) /\
  initialize (svc_db svc) = svc.
Proof.
  cbv zeta. pose proof (tracked_serve sha256hex reqs) as Ht.
  pose proof (tracked_max_height _ Ht) as Hm.
  destruct Ht as (Hok & _ & Hh).
  split; [exact Hok|]. split; [exact Hh|]. split; [exact Hm|].
  unfold initialize. rewrite <- Hm.
  now destruct (serve sha256hex reqs).
Qed.

(* ================================================================= *)
(** ** The next height *)

Lemma validateBlock_wrong_height sha256hex svc block :
  block_height block <> currentHeight svc + 1 ->
  validateBlock sha256hex svc block
  = invalid "Invalid height"
      ("Expected height " ++ string_of_Z (currentHeight svc + 1)
       ++ ", got " ++ string_of_Z (block_height block))%string.
Proof.
  intros H. unfold validateBlock, getCurrentHeight, validateHeight.
  replace (block_height block =? currentHeight svc + 1) with false
    by (symmetry; now apply Z.eqb_neq).
  reflexivity.
Qed.

(** X10. [POST /blocks] accepts a block only at the height that follows the
    height in memory.  So a block that has just been accepted is refused
    when it is posted again, with [Invalid height] and the state unchanged;
    and after an accepted [POST /rollback] to a target, the next block that
    is accepted has the height target + 1. *)
Theorem post_blocks_accepts_only_next_height
  (sha256hex : string -> string) (svc : Service) (block : Block) :
  (status (snd (post_blocks sha256hex svc block)) = 200 ->
   block_height block = getCurrentHeight svc + 1 /\
   post_blocks sha256hex (fst (post_blocks sha256hex svc block)) block
   = (fst (post_blocks sha256hex svc block),
      mkReply 400 (Some "Invalid height")
        (Some ("Expected height " ++ string_of_Z (block_height block + 1)
               ++ ", got " ++ string_of_Z (block_height block))%string))) /\
  (forall target next,
     status (snd (post_rollback svc (Some target))) = 200 ->
     status (snd (post_blocks sha256hex
                    (fst (post_rollback svc (Some target))) next)) = 200 ->
     block_height next = target + 1).
Proof.
  assert (forall s b, status (snd (post_blocks sha256hex s b)) = 200 ->
                      block_height b = currentHeight s + 1) as Hnext.
  { intros s b H.
    destruct (post_blocks_cases sha256hex s b)
      as [(_ & E) | [(_ & _ & E) | (Hv & _)]];
      try (rewrite E in H; discriminate).
    now apply validateBlock_valid_height in Hv. }
  split.
  - intros H. split; [now apply Hnext|].
    destruct (post_blocks_cases sha256hex svc block)
      as [(_ & E) | [(_ & _ & E) | (Hv & db' & Hu & E)]];
      try (rewrite E in H; discriminate).
    rewrite E. cbn [fst].
    rewrite post_blocks_invalid;
      rewrite validateBlock_wrong_height by (cbn [currentHeight]; lia);
      reflexivity.
  - intros target next Hr Hp. apply Hnext in Hp. rewrite Hp.
    destruct (post_rollback_cases svc (Some target))
      as [(_ & E) | [(t & e & _ & _ & _ & E) | (t & c & Et & _ & _ & E)]];
      try (rewrite E in Hr; discriminate).
    injection Et as <-. rewrite E. reflexivity.
Qed.

Lemma post_blocks_accepts_only_next_height_witness :
  status (snd (post_blocks plain_digest (initialize empty_db)
                 (mkBlock "1t1" 1 [mkTransaction "t1" [] [mkOutput "A" 100]])))
  = 200 /\
  status (snd (post_blocks plain_digest
                 (fst (post_blocks plain_digest (initialize empty_db)
                         (mkBlock "1t1" 1
                            [mkTransaction "t1" [] [mkOutput "A" 100]])))
                 (mkBlock "1t1" 1 [mkTransaction "t1" [] [mkOutput "A" 100]])))
  = 400.
Proof.
  split; [reflexivity|].
  destruct (post_blocks_accepts_only_next_height plain_digest
              (initialize empty_db)
              (mkBlock "1t1" 1 [mkTransaction "t1" [] [mkOutput "A" 100]]))
    as (H & _).
  destruct (H eq_refl) as (_ & ->). reflexivity.
Defined.

(* ================================================================= *)
(** ** Spent flags under [processBlock] *)

Lemma output_at_with_flag t k flag r :
  output_at t k (with_flag flag r) = output_at t k r.
Proof. reflexivity. Qed.

Lemma set_spent_with_flag flag t k r :
  set_spent flag t k (with_flag flag r) = with_flag flag r.
Proof.
  unfold set_spent. rewrite output_at_with_flag.
  destruct (output_at t k r); reflexivity.
Qed.

Lemma set_spent_spend t k inputs r :
  set_spent true t k (spend inputs r) = spend (inputs ++ [mkInput t k]) r.
Proof.
  unfold spend. rewrite existsb_app. cbn [existsb in_txId in_index].
  destruct (existsb _ inputs); cbn [orb].
  - apply set_spent_with_flag.
  - rewrite orb_false_r. unfold set_spent.
    destruct (output_at t k r); reflexivity.
Qed.

Lemma spend_spend ins1 ins2 r :
  spend ins2 (spend ins1 r) = spend (ins1 ++ ins2) r.
Proof.
  unfold spend. rewrite existsb_app.
  destruct (existsb _ ins1) eqn:E1; cbn [orb].
  - assert (forall p, existsb (fun i => output_at (in_txId i) (in_index i)
                                          (with_flag true r)) p
                      = existsb (fun i => output_at (in_txId i) (in_index i) r)
                                p) as H by reflexivity.
    rewrite H. destruct (existsb _ ins2); reflexivity.
  - reflexivity.
Qed.

Lemma processInputs_outputs txId inputs db :
  transaction_outputs (fold_left (processInput txId) inputs db)
  = map (spend inputs) (transaction_outputs db).
Proof.
  assert (forall pre base d,
             transaction_outputs d = map (spend pre) base ->
             transaction_outputs (fold_left (processInput txId) inputs d)
             = map (spend (pre ++ inputs)) base) as H.
  { induction inputs as [|i inputs IH]; intros pre base d Hd;
      cbn [fold_left].
    - now rewrite app_nil_r.
    - replace (pre ++ i :: inputs) with ((pre ++ [i]) ++ inputs)
        by (now rewrite <- app_assoc).
      apply IH.
      destruct (processInput_tables txId d i) as (_ & -> & _).
      rewrite Hd, map_map. apply map_ext. intros r.
      rewrite set_spent_spend. now destruct i. }
  apply (H [] (transaction_outputs db) db).
  rewrite <- (map_id (transaction_outputs db)) at 1.
  apply map_ext. intros r. reflexivity.
Qed.

Lemma processTransaction_outputs blockId db tx db' :
  processTransaction_unbounded blockId db tx = Ok db' ->
  transaction_outputs db'
  = map (spend (tx_inputs tx)) (transaction_outputs db)
    ++ output_rows (tx_id tx) 0 (tx_outputs tx).
Proof.
  unfold processTransaction_unbounded, insert_transaction.
  destruct (existsb _ (transactions db)); cbn [bind]; [discriminate|].
  intros H; injection H as <-.
  destruct (processOutputs_tables (tx_id tx) (tx_outputs tx)
              (fold_left (processInput (tx_id tx)) (tx_inputs tx)
                 (mkDb (blocks db)
                    (transactions db ++ [mkTransactionRow (tx_id tx) blockId])
                    (transaction_inputs db) (transaction_outputs db)
                    (address_balances db))) 0) as (_ & _ & _ & -> & _).
  now rewrite processInputs_outputs.
Qed.

Lemma for_each_processTransaction_outputs blockId txs db db' :
  for_each (processTransaction_unbounded blockId) txs db = Ok db' ->
  exists more,
    transaction_outputs db'
    = map (spend (flat_map tx_inputs txs)) (transaction_outputs db) ++ more /\
    map forget_spent more
    = map forget_spent
        (flat_map (fun tx => output_rows (tx_id tx) 0 (tx_outputs tx)) txs).
Proof.
  revert db; induction txs as [|tx txs IH]; intros db; cbn [for_each flat_map].
  - intros H; injection H as <-. exists []. rewrite app_nil_r. split.
    + rewrite <- (map_id (transaction_outputs db)) at 1.
      apply map_ext. intros r. reflexivity.
    + reflexivity.
  - destruct (processTransaction_unbounded blockId db tx) as [d|e] eqn:Et; cbn [bind];
      [|discriminate].
    intros H. destruct (IH d H) as (more & E & F).
    rewrite (processTransaction_outputs _ _ _ _ Et), map_app in E.
    exists (map (spend (flat_map tx_inputs txs))
                (output_rows (tx_id tx) 0 (tx_outputs tx)) ++ more).
    split.
    + rewrite E, map_map, <- app_assoc. f_equal.
      apply map_ext. intros r. apply spend_spend.
    + rewrite !map_app, F. f_equal. rewrite map_map. apply map_ext.
      intros r. unfold spend. destruct (existsb _ _); reflexivity.
Qed.

(** X11. When [processBlock] commits, the output rows stored before keep
    their place, address, value and index; exactly those that an input of
    the block references have their spent flag set, whatever it was, and no
    flag is cleared.  The rows of the block's own outputs follow them. *)
Theorem processBlock_marks_referenced_outputs (db : Db) (block : Block) :
  snd (processBlock db block) = None ->
  exists more,
    transaction_outputs (fst (processBlock db block))
    = map (spend (flat_map tx_inputs (block_transactions block)))
          (transaction_outputs db)
      ++ more /\
    map forget_spent more
    = map forget_spent
        (flat_map (fun tx => output_rows (tx_id tx) 0 (tx_outputs tx))
                  (block_transactions block)).
Proof.
  intros Hc.
  destruct (processBlock_committed db block Hc) as (_ & _ & _ & Ef & _).
  apply (for_each_processTransaction_outputs _ _ _ _ Ef).
Qed.

Lemma processBlock_marks_referenced_outputs_witness :
  exists more,
    transaction_outputs (fst (processBlock store_two block_three))
    = map (spend (flat_map tx_inputs (block_transactions block_three)))
          (transaction_outputs store_two)
      ++ more /\
    map forget_spent more
    = map forget_spent
        (flat_map (fun tx => output_rows (tx_id tx) 0 (tx_outputs tx))
                  (block_transactions block_three)).
Proof.
  apply (processBlock_marks_referenced_outputs store_two block_three).
  reflexivity.
Defined.

(* ================================================================= *)
(** ** Dangling inputs: what the storage unit does *)

Lemma inputStep_dangling txId db input :
  in_int4 (in_index input) = true ->
  select_output db (in_txId input) (in_index input) = [] ->
  inputStep txId db input
  = Ok (insert_input db txId (in_txId input) (in_index input)).
Proof.
  intros Hr H. unfold inputStep. rewrite (int4_in_range _ Hr). cbn [bind].
  unfold select_output in *.
  cbn [transaction_outputs update_is_spent insert_input].
  rewrite select_output_set_spent, H. cbn [map]. f_equal.
  unfold update_is_spent, insert_input.
  cbn [blocks transactions transaction_inputs transaction_outputs
       address_balances].
  now rewrite map_set_spent_no_match.
Qed.

Lemma filter_nil_In {A} (p : A -> bool) l x :
  filter p l = [] -> In x l -> p x = false.
Proof.
  intros H Hin. destruct (p x) eqn:E; [|reflexivity].
  assert (In x (filter p l)) as Hf by (apply filter_In; now split).
  rewrite H in Hf. destruct Hf.
Qed.

Lemma select_output_flags_apart db1 db2 txId index :
  flags_apart (transaction_outputs db1) (transaction_outputs db2) ->
  select_output db2 txId index = [] -> select_output db1 txId index = [].
Proof.
  intros H E.
  pose proof (select_output_forget_spent db1 db2 txId index H) as Hs.
  rewrite E in Hs. now apply map_eq_nil in Hs.
Qed.

Lemma agree_eq_insert_input db txId inputTxId index :
  agree eq (insert_input db txId inputTxId index) db.
Proof. repeat split. Qed.

(** A transaction with a dangling input runs as the transaction without
    that input does. *)
Lemma processTransaction_without_dangling blockId db tx ins1 input ins2 :
  tx_inputs tx = ins1 ++ input :: ins2 ->
  in_int4 (in_index input) = true ->
  select_output db (in_txId input) (in_index input) = [] ->
  alike (agree eq) (processTransaction blockId db tx)
        (processTransaction blockId db (without_input tx ins1 ins2)).
Proof.
  intros Hins Hr Hsel. unfold processTransaction.
  cbn [without_input tx_id tx_inputs tx_outputs].
  destruct (insert_transaction db (tx_id tx) blockId) as [d0|e] eqn:E0;
    cbn [bind alike]; [|reflexivity].
  rewrite Hins, !for_each_app.
  destruct (for_each (inputStep (tx_id tx)) ins1 d0) as [d1|e] eqn:E1;
    cbn [bind alike for_each]; [|reflexivity].
  rewrite inputStep_dangling; [|exact Hr|].
  - cbn [bind].
    apply (alike_bind eq).
    + apply (for_each_alike eq); [|apply agree_eq_insert_input].
      intros a b x H.
      now apply (inputStep_alike eq _ _ _ _ _ kept_by_apply_eq).
    + intros a b H.
      now apply (outputSteps_alike eq _ _ _ _ _ kept_by_apply_eq).
  - apply inputSteps_ok in E1. destruct E1 as (-> & _).
    apply select_output_flags_apart with (db2 := db); [|exact Hsel].
    destruct (processInputs_tables (tx_id tx) ins1 d0) as (_ & O & _).
    unfold flags_apart. rewrite O.
    unfold insert_transaction in E0.
    destruct (existsb _ _); [discriminate|]. now injection E0 as <-.
Qed.

Lemma forget_spent_spend inputs r : forget_spent (spend inputs r) = forget_spent r.
Proof. unfold spend. destruct (existsb _ _); reflexivity. Qed.

(** An output that is neither stored nor written by the transactions [pre]
    is not there after them. *)
Lemma select_output_after blockId pre db db' txId index :
  for_each (processTransaction blockId) pre db = Ok db' ->
  select_output db txId index = [] ->
  ~ In txId (map tx_id pre) ->
  select_output db' txId index = [].
Proof.
  intros Ef Hsel Hnot.
  apply for_each_processTransaction_ok_unbounded in Ef.
  destruct Ef as (Ef & _).
  apply for_each_processTransaction_outputs in Ef.
  destruct Ef as (more & E & F).
  unfold select_output in *. rewrite E, filter_app.
  rewrite (filter_nothing _ (map _ _)), (filter_nothing _ more);
    [reflexivity | |].
  - intros r Hr.
    destruct (map_eq_In forget_spent _ _ r F Hr) as (r' & Hr' & Er).
    apply In_block_output_rows in Hr'.
    destruct Hr' as (tx' & o & Htx' & _ & Eid & _).
    apply forget_spent_fields in Er. destruct Er as (Er & _).
    unfold output_at. replace (String.eqb (otr_transaction_id r) txId)
      with false; [reflexivity|].
    symmetry. apply String.eqb_neq. intros Heq. apply Hnot.
    rewrite <- Heq, <- Er, Eid. now apply in_map.
  - intros r Hr. apply in_map_iff in Hr. destruct Hr as (r0 & <- & Hr0).
    rewrite (output_at_forget_spent txId index _ r0
               (forget_spent_spend _ r0)).
    now apply (filter_nil_In _ _ r0 Hsel).
Qed.

Lemma processBlock_unit_without_dangling db block pre tx post ins1 input ins2 :
  block_transactions block = pre ++ tx :: post ->
  tx_inputs tx = ins1 ++ input :: ins2 ->
  in_int4 (in_index input) = true ->
  select_output db (in_txId input) (in_index input) = [] ->
  ~ In (in_txId input) (map tx_id pre) ->
  alike (agree eq) (processBlock_unit db block)
    (processBlock_unit db
       (with_transactions block (pre ++ without_input tx ins1 ins2 :: post))).
Proof.
  intros Htxs Hins Hr Hsel Hnot. unfold processBlock_unit.
  cbn [with_transactions block_id block_height block_transactions].
  destruct (int4 (block_height block)) as [z|e]; cbn [bind alike];
    [|reflexivity].
  destruct (insert_block db (block_id block) (block_height block))
    as [d0|e] eqn:E0; cbn [bind alike]; [|reflexivity].
  rewrite Htxs, !for_each_app.
  destruct (for_each (processTransaction (block_id block)) pre d0)
    as [dp|e] eqn:Ep; cbn [bind alike for_each]; [|reflexivity].
  apply (alike_bind eq).
  - apply (processTransaction_without_dangling _ _ tx ins1 input ins2 Hins Hr).
    apply (select_output_after _ _ _ _ _ _ Ep); [|exact Hnot].
    unfold insert_block in E0.
    destruct (existsb _ _); [discriminate|].
    destruct (existsb _ _); [discriminate|]. now injection E0 as <-.
  - intros a b H. apply (for_each_alike eq); [|exact H].
    intros a' b' x H'.
    now apply (processTransaction_alike eq _ _ _ _ kept_by_apply_eq).
Qed.

(** C5 (as the code has it). An input whose referenced output is not stored
    aborts nothing: [processTransaction] runs as it does on the transaction
    without that input (it commits or throws alike, with the same rows in
    [blocks], [transactions] and [transaction_outputs] and the same
    balances, so no flag and no balance is touched for that input) and
    records the input row; and [processBlock] commits or throws as it does
    on the block without that input.  A block with such an input is turned
    away earlier, by the validation of [POST /blocks]: the balance check is
    invalid, the reply is 400 and the store and the height are untouched. *)
Theorem dangling_input_skipped_by_store_rejected_by_route :
  (forall blockId db tx ins1 input ins2,
     tx_inputs tx = ins1 ++ input :: ins2 ->
     in_int4 (in_index input) = true ->
     select_output db (in_txId input) (in_index input) = [] ->
     match processTransaction blockId db tx,
           processTransaction blockId db (without_input tx ins1 ins2) with
     | Ok db1, Ok db2 =>
         blocks db1 = blocks db2 /\
         transactions db1 = transactions db2 /\
         transaction_outputs db1 = transaction_outputs db2 /\
         address_balances db1 = address_balances db2 /\
         transaction_inputs db1 = transaction_inputs db ++ input_rows tx
     | Err e1, Err e2 => e1 = e2
     | _, _ => False
     end) /\
  (forall db block pre tx post ins1 input ins2,
     block_transactions block = pre ++ tx :: post ->
     tx_inputs tx = ins1 ++ input :: ins2 ->
     in_int4 (in_index input) = true ->
     select_output db (in_txId input) (in_index input) = [] ->
     ~ In (in_txId input) (map tx_id pre) ->
     let without :=
       with_transactions block
         (pre ++ without_input tx ins1 ins2 :: post) in
     snd (processBlock db block) = snd (processBlock db without) /\
     (snd (processBlock db block) = None ->
      blocks (fst (processBlock db block))
      = blocks (fst (processBlock db without)) /\
      transactions (fst (processBlock db block))
      = transactions (fst (processBlock db without)) /\
      transaction_outputs (fst (processBlock db block))
      = transaction_outputs (fst (processBlock db without)) /\
      address_balances (fst (processBlock db block))
      = address_balances (fst (processBlock db without)) /\
      transaction_inputs (fst (processBlock db block))
      = transaction_inputs db
        ++ flat_map input_rows (block_transactions block))) /\
  (forall sha256hex svc block tx input,
     In tx (block_transactions block) -> In input (tx_inputs tx) ->
     select_output (svc_db svc) (in_txId input) (in_index input) = [] ->
     isValid (validateInputOutputBalance (svc_db svc)
                                         (block_transactions block)) = false /\
     fst (post_blocks sha256hex svc block) = svc /\
     status (snd (post_blocks sha256hex svc block)) = 400).
Proof.
  split; [|split].
  - intros blockId db tx ins1 input ins2 Hins Hr Hsel.
    pose proof (processTransaction_without_dangling blockId db tx ins1 input
                  ins2 Hins Hr Hsel) as H.
    destruct (processTransaction blockId db tx) as [db1|e1] eqn:E1;
      destruct (processTransaction blockId db (without_input tx ins1 ins2))
        as [db2|e2]; cbn [alike] in H; try contradiction; [|exact H].
    destruct H as (B & T & O & A). repeat split; try assumption.
    apply processTransaction_ok in E1. destruct E1 as (E1 & _).
    now destruct (processTransaction_success _ _ _ _ E1)
      as (_ & _ & _ & I & _).
  - intros db block pre tx post ins1 input ins2 Htxs Hins Hr Hsel Hnot
           without.
    pose proof (processBlock_unit_without_dangling db block pre tx post ins1
                  input ins2 Htxs Hins Hr Hsel Hnot) as H.
    fold without in H.
    pose proof (alike_outcome (agree eq) _ _ _ _ H) as Hsnd.
    split; [exact Hsnd|].
    intros Hc.
    assert (snd (processBlock db without) = None) as Hc' by congruence.
    destruct (processBlock_committed db block Hc) as (_ & _ & _ & Ef & _).
    pose proof (for_each_processTransaction_inputs _ _ _ _ Ef) as I.
    cbn [transaction_inputs] in I.
    apply processBlock_commit in Hc, Hc'. rewrite Hc, Hc' in H.
    cbn [alike] in H. destruct H as (B & T & O & A).
    repeat split; assumption.
  - intros sha256hex svc block tx input Htx Hin Hsel.
    pose proof (validateInputOutputBalance_dangling _ _ _ _ Htx Hin Hsel)
      as Hb.
    split; [exact Hb|].
    rewrite post_blocks_invalid
      by (apply validateBlock_invalid_balance; exact Hb).
    split; reflexivity.
Qed.

Lemma dangling_input_skipped_by_store_rejected_by_route_witness :
  match processTransaction "bd" empty_db
          (mkTransaction "td" [mkInput "nope" 0] [mkOutput "A" 7]),
        processTransaction "bd" empty_db
          (mkTransaction "td" [] [mkOutput "A" 7]) with
  | Ok db1, Ok db2 =>
      address_balances db1 = address_balances db2 /\
      transaction_inputs db1 = [mkInputRow "td" "nope" 0]
  | _, _ => False
  end /\
  snd (processBlock empty_db block_dangling)
  = snd (processBlock empty_db
           (mkBlock "bd" 1 [mkTransaction "td" [] [mkOutput "A" 7]])) /\
  fst (post_blocks plain_digest (initialize empty_db) block_dangling)
  = initialize empty_db /\
  status (snd (post_blocks plain_digest (initialize empty_db) block_dangling))
  = 400.
Proof.
  destruct dangling_input_skipped_by_store_rejected_by_route
    as (H1 & H2 & H3).
  split; [|split].
  - specialize (H1 "bd" empty_db
                   (mkTransaction "td" [mkInput "nope" 0] [mkOutput "A" 7])
                   [] (mkInput "nope" 0) [] eq_refl eq_refl eq_refl).
    vm_compute in H1 |- *. destruct H1 as (_ & _ & _ & A & I).
    split; [exact A | exact I].
  - apply (H2 empty_db block_dangling []
              (mkTransaction "td" [mkInput "nope" 0] [mkOutput "A" 7]) []
              [] (mkInput "nope" 0) [] eq_refl eq_refl eq_refl eq_refl).
    intros [].
  - apply (H3 plain_digest (initialize empty_db) block_dangling
              (mkTransaction "td" [mkInput "nope" 0] [mkOutput "A" 7])
              (mkInput "nope" 0)).
    + left; reflexivity.
    + left; reflexivity.
    + reflexivity.
Defined.

(** C5 (the claim on the code). On the empty store the input of
    [block_dangling] references no output, and [processBlock] commits the
    block all the same: it throws nothing, and the store holds the input row
    and the credit of the output. *)
Lemma dangling_input_does_not_abort_processBlock :
  select_output empty_db "nope" 0 = [] /\
  snd (processBlock empty_db block_dangling) = None /\
  transaction_inputs (fst (processBlock empty_db block_dangling))
  = [mkInputRow "td" "nope" 0] /\
  address_balances (fst (processBlock empty_db block_dangling))
  = [mkBalanceRow "A" 7] /\
  ~ (exists e, processBlock empty_db block_dangling = (empty_db, Some e)).
Proof.
  repeat split; try (vm_compute; reflexivity).
  intros (e & H). vm_compute in H. discriminate.
Qed.

(* ================================================================= *)
(** ** Spent flags under [rollbackToHeight] *)

Lemma unspend_unspend ins1 ins2 r :
  unspend ins2 (unspend ins1 r) = unspend (ins1 ++ ins2) r.
Proof.
  unfold unspend. rewrite existsb_app.
  destruct (existsb _ ins1) eqn:E1; cbn [orb].
  - assert (forall p,
               existsb (fun i => output_at (inr_input_tx_id i)
                                           (inr_input_index i)
                                           (with_flag false r)) p
               = existsb (fun i => output_at (inr_input_tx_id i)
                                             (inr_input_index i) r) p)
      as H by reflexivity.
    rewrite H. destruct (existsb _ ins2); reflexivity.
  - reflexivity.
Qed.

Lemma set_spent_unspend i r :
  set_spent false (inr_input_tx_id i) (inr_input_index i) r = unspend [i] r.
Proof.
  unfold set_spent, unspend. cbn [existsb]. rewrite orb_false_r.
  destruct (output_at _ _ r); reflexivity.
Qed.

Lemma existsb_same_members {A} (p : A -> bool) l l' :
  (forall x, In x l <-> In x l') -> existsb p l = existsb p l'.
Proof.
  intros H. apply bool_eq_of_iff. rewrite !existsb_exists.
  split; intros (x & Hx & Hp); exists x; split; try assumption; now apply H.
Qed.

Lemma unspend_same_members l l' r :
  (forall x, In x l <-> In x l') -> unspend l r = unspend l' r.
Proof.
  intros H. unfold unspend. now rewrite (existsb_same_members _ l l' H).
Qed.

Lemma unspend_transaction_id ins r :
  otr_transaction_id (unspend ins r) = otr_transaction_id r.
Proof. unfold unspend. destruct (existsb _ ins); reflexivity. Qed.

Lemma filter_map_commute {A} (p : A -> bool) (f : A -> A) l :
  (forall x, p (f x) = p x) -> filter p (map f l) = map f (filter p l).
Proof.
  intros H. induction l as [|x l IH]; cbn [map filter]; [reflexivity|].
  rewrite H. destruct (p x); cbn [map]; now rewrite IH.
Qed.

Lemma undoOutputs_rows outs c :
  transaction_inputs (fst (fold_left undoOutput_session outs c))
  = transaction_inputs (fst c) /\
  transaction_outputs (fst (fold_left undoOutput_session outs c))
  = transaction_outputs (fst c).
Proof.
  revert c; induction outs as [|o outs IH]; intros c; cbn [fold_left];
    [split; reflexivity|].
  destruct (IH (undoOutput_session c o)) as (-> & ->). split; reflexivity.
Qed.

Lemma undoInput_rows c i :
  transaction_inputs (fst (undoInput_session c i)) = transaction_inputs (fst c) /\
  transaction_outputs (fst (undoInput_session c i))
  = map (unspend [i]) (transaction_outputs (fst c)).
Proof.
  unfold undoInput_session.
  destruct (select_output (fst c) (inr_input_tx_id i) (inr_input_index i))
    as [|r rest] eqn:E.
  - split; [reflexivity|].
    rewrite <- (map_set_spent_no_match false _ _ _ E) at 1.
    apply map_ext. intros r. apply set_spent_unspend.
  - rewrite !issue_fst.
    cbn [exec update_balance update_is_spent transaction_inputs
         transaction_outputs].
    split; [reflexivity|]. apply map_ext. intros r'. apply set_spent_unspend.
Qed.

Lemma undoInputs_rows ins c :
  transaction_inputs (fst (fold_left undoInput_session ins c))
  = transaction_inputs (fst c) /\
  transaction_outputs (fst (fold_left undoInput_session ins c))
  = map (unspend ins) (transaction_outputs (fst c)).
Proof.
  revert c; induction ins as [|i ins IH]; intros c; cbn [fold_left].
  - split; [reflexivity|].
    rewrite <- (map_id (transaction_outputs (fst c))) at 1.
    apply map_ext. intros r. reflexivity.
  - destruct (IH (undoInput_session c i)) as (-> & ->).
    destruct (undoInput_rows c i) as (-> & ->).
    split; [reflexivity|]. rewrite map_map. apply map_ext. intros r.
    apply (unspend_unspend [i] ins r).
Qed.

Lemma rollbackTransaction_outputs c txId :
  transaction_outputs (fst (rollbackTransaction_session c txId))
  = filter (fun r => negb (output_of txId r))
      (map (unspend (filter (input_of txId) (transaction_inputs (fst c))))
           (transaction_outputs (fst c))).
Proof.
  unfold rollbackTransaction_session. rewrite !issue_fst.
  cbn [exec transaction_outputs].
  set (c1 := fold_left undoOutput_session _ c).
  destruct (undoOutputs_rows
              (filter (output_of txId) (transaction_outputs (fst c))) c)
    as (I1 & O1).
  fold c1 in I1, O1.
  destruct (undoInputs_rows
              (filter (input_of txId) (transaction_inputs (fst c1))) c1)
    as (_ & ->).
  now rewrite I1, O1.
Qed.

Lemma fold_rollbackTransaction_outputs ids c :
  transaction_outputs (fst (fold_left rollbackTransaction_session ids c))
  = filter (fun r => negb (mem (otr_transaction_id r) ids))
      (map (unspend (filter (fun i => mem (inr_transaction_id i) ids)
                            (transaction_inputs (fst c))))
           (transaction_outputs (fst c))).
Proof.
  revert c; induction ids as [|t ids IH]; intros c; cbn [fold_left].
  - unfold mem. cbn [existsb]. rewrite filter_all_true, filter_all_false.
    rewrite <- (map_id (transaction_outputs (fst c))) at 1.
    apply map_ext. intros r. reflexivity.
  - rewrite IH, rollbackTransaction_outputs.
    destruct (rollbackTransaction_rows c t) as (-> & _).
    rewrite <- (filter_map_commute (fun r => negb (output_of t r)))
      by (intros r; unfold output_of; now rewrite unspend_transaction_id).
    rewrite filter_filter, map_map.
    transitivity
      (filter (fun r => negb (mem (otr_transaction_id r) (t :: ids)))
         (map (fun r =>
                 unspend (filter (fun i => mem (inr_transaction_id i) ids)
                            (filter (fun r0 => negb (input_of t r0))
                               (transaction_inputs (fst c))))
                   (unspend (filter (input_of t)
                               (transaction_inputs (fst c))) r))
              (transaction_outputs (fst c)))).
    + apply filter_ext. intros r. unfold mem, output_of. cbn [existsb].
      now rewrite negb_orb.
    + f_equal. apply map_ext. intros r. rewrite unspend_unspend.
      apply unspend_same_members. intros x.
      rewrite in_app_iff, !filter_In. unfold mem, input_of. cbn [existsb].
      rewrite negb_true_iff.
      destruct (String.eqb (inr_transaction_id x) t); cbn [orb];
        intuition congruence.
Qed.

Lemma mem_transactions_of_blocks_cons db db1 b undone x :
  transactions db1
  = filter (fun r => negb (String.eqb (txr_block_id r) b)) (transactions db) ->
  mem x (transactions_of_blocks db (b :: undone))
  = mem x (select_transaction_ids db b)
    || mem x (transactions_of_blocks db1 undone).
Proof.
  intros T1. apply bool_eq_of_iff.
  rewrite orb_true_iff, !mem_In, !In_transactions_of_blocks,
    In_select_transaction_ids, T1.
  split.
  - intros (r & Hr & E & [Hb | Hb]).
    + left. now exists r.
    + destruct (String.eqb_spec (txr_block_id r) b) as [Eb | Nb].
      * left. now exists r.
      * right. exists r. repeat split; try assumption.
        apply filter_In. split; [exact Hr|].
        apply negb_true_iff. now apply String.eqb_neq.
  - intros [(r & Hr & E & Hb) | (r & Hr & E & Hb)].
    + exists r. repeat split; try assumption. now left.
    + apply filter_In in Hr. destruct Hr as (Hr & _).
      exists r. repeat split; try assumption. now right.
Qed.

Lemma rollbackBlock_outputs c block :
  transaction_outputs (fst (rollbackBlock_session c block))
  = filter (fun r => negb (mem (otr_transaction_id r)
                               (select_transaction_ids (fst c) (blk_id block))))
      (map (unspend
              (filter (fun i => mem (inr_transaction_id i)
                                    (select_transaction_ids (fst c)
                                                            (blk_id block)))
                      (transaction_inputs (fst c))))
           (transaction_outputs (fst c))).
Proof.
  unfold rollbackBlock_session. rewrite issue_fst. cbn [exec transaction_outputs].
  apply fold_rollbackTransaction_outputs.
Qed.

Lemma fold_rollbackBlock_outputs bs c :
  NoDup (map txr_id (transactions (fst c))) ->
  transaction_outputs (fst (fold_left rollbackBlock_session bs c))
  = filter (fun r => negb (mem (otr_transaction_id r)
                               (transactions_of_blocks (fst c)
                                                       (map blk_id bs))))
      (map (unspend
              (filter (fun i => mem (inr_transaction_id i)
                                    (transactions_of_blocks (fst c)
                                                            (map blk_id bs)))
                      (transaction_inputs (fst c))))
           (transaction_outputs (fst c))).
Proof.
  revert c; induction bs as [|b bs IH]; intros c Hnd; cbn [fold_left map].
  - unfold transactions_of_blocks, mem. cbn [existsb].
    rewrite (filter_all_false (transactions (fst c))). cbn [map existsb].
    rewrite filter_all_true, filter_all_false.
    rewrite <- (map_id (transaction_outputs (fst c))) at 1.
    apply map_ext. intros r. reflexivity.
  - destruct (rollbackBlock_tables c b Hnd) as (_ & T1 & _).
    destruct (rollbackBlock_rows c b) as (I1 & _).
    assert (NoDup (map txr_id (transactions (fst (rollbackBlock_session c b)))))
      as Hnd1 by (rewrite T1; now apply NoDup_map_filter).
    rewrite (IH _ Hnd1), rollbackBlock_outputs, I1.
    pose proof (fun x => mem_transactions_of_blocks_cons
                           (fst c) (fst (rollbackBlock_session c b)) (blk_id b)
                           (map blk_id bs) x T1) as Hmem.
    rewrite <- (filter_map_commute
                  (fun r => negb (mem (otr_transaction_id r)
                                      (select_transaction_ids (fst c)
                                                              (blk_id b)))))
      by (intros r; now rewrite unspend_transaction_id).
    rewrite filter_filter, map_map.
    transitivity
      (filter (fun r => negb (mem (otr_transaction_id r)
                                  (transactions_of_blocks
                                     (fst c) (blk_id b :: map blk_id bs))))
         (map (fun r =>
                 unspend
                   (filter (fun i => mem (inr_transaction_id i)
                                         (transactions_of_blocks
                                            (fst (rollbackBlock_session c b))
                                            (map blk_id bs)))
                      (filter (fun r0 => negb (mem (inr_transaction_id r0)
                                                   (select_transaction_ids
                                                      (fst c) (blk_id b))))
                         (transaction_inputs (fst c))))
                   (unspend
                      (filter (fun i => mem (inr_transaction_id i)
                                            (select_transaction_ids
                                               (fst c) (blk_id b)))
                         (transaction_inputs (fst c))) r))
              (transaction_outputs (fst c)))).
    + apply filter_ext. intros r. now rewrite Hmem, negb_orb.
    + f_equal. apply map_ext. intros r. rewrite unspend_unspend.
      apply unspend_same_members. intros x.
      rewrite in_app_iff, !filter_In, Hmem, negb_true_iff.
      destruct (mem (inr_transaction_id x)
                    (select_transaction_ids (fst c) (blk_id b)));
        cbn [orb]; intuition congruence.
Qed.

Lemma kept_transactions_mem db targetHeight x :
  NoDup (map txr_id (transactions db)) ->
  In x (map txr_id (transactions db)) ->
  negb (mem x (transactions_of_blocks
                 db (map blk_id (select_blocks_above db targetHeight))))
  = mem x (map txr_id (transactions (fst (rollbackToHeight_session db targetHeight)))).
Proof.
  intros Kt Hx.
  set (undone := map blk_id (select_blocks_above db targetHeight)).
  destruct (fold_rollbackBlock_rows (select_blocks_above db targetHeight)
              (db, []) Kt) as (_ & T & _).
  cbn [fst] in T. fold undone in T.
  unfold rollbackToHeight_session. rewrite T.
  apply bool_eq_of_iff.
  rewrite negb_true_iff, mem_In, in_map_iff. split.
  - intros Hm. apply in_map_iff in Hx. destruct Hx as (r & E & Hr).
    exists r. split; [exact E|]. apply filter_In. split; [exact Hr|].
    apply negb_true_iff. destruct (mem (txr_block_id r) undone) eqn:Em;
      [|reflexivity].
    assert (mem x (transactions_of_blocks db undone) = true) as Ht.
    { apply mem_In, In_transactions_of_blocks. exists r.
      repeat split; try assumption. now apply mem_In. }
    congruence.
  - intros (r & E & Hr). apply filter_In in Hr. destruct Hr as (Hr & Hm).
    apply negb_true_iff in Hm.
    destruct (mem x (transactions_of_blocks db undone)) eqn:Ex;
      [|reflexivity].
    apply mem_In, In_transactions_of_blocks in Ex.
    destruct Ex as (r' & Hr' & E' & Hu).
    assert (r' = r) by (eapply NoDup_map_eq; eauto; congruence). subst r'.
    apply mem_In in Hu. congruence.
Qed.

Lemma rollbackToHeight_session_outputs
  (db : Db) (targetHeight : Z) :
  store_ok db ->
  let back := fst (rollbackToHeight_session db targetHeight) in
  let kept := map txr_id (transactions back) in
  transaction_outputs back
  = filter (fun r => mem (otr_transaction_id r) kept)
      (map (unspend (filter (fun i => negb (mem (inr_transaction_id i) kept))
                            (transaction_inputs db)))
           (transaction_outputs db)).
Proof.
  intros ((Kb & Kt) & (F1 & F2 & F3) & Hcov). cbv zeta.
  pose proof (fold_rollbackBlock_outputs
                (select_blocks_above db targetHeight) (db, []) Kt) as O.
  cbn [fst] in O.
  change (fst (fold_left rollbackBlock_session
                 (select_blocks_above db targetHeight) (db, [])))
    with (fst (rollbackToHeight_session db targetHeight)) in O.
  rewrite O.
  assert (filter (fun i => mem (inr_transaction_id i)
                               (transactions_of_blocks db
                                  (map blk_id
                                     (select_blocks_above db targetHeight))))
                 (transaction_inputs db)
          = filter (fun i => negb (mem (inr_transaction_id i)
                                       (map txr_id
                                          (transactions
                                             (fst (rollbackToHeight_session
                                                     db targetHeight))))))
                   (transaction_inputs db)) as ->.
  { apply filter_ext_in. intros i Hi.
    rewrite <- (kept_transactions_mem db targetHeight _ Kt (F2 i Hi)).
    now rewrite negb_involutive. }
  apply filter_ext_in. intros r Hr. apply in_map_iff in Hr.
  destruct Hr as (r0 & <- & Hr0). rewrite unspend_transaction_id.
  apply (kept_transactions_mem db targetHeight _ Kt (F3 r0 Hr0)).
Qed.

(** X12. On a well-formed store ([store_ok]), when [rollbackToHeight]
    commits it leaves exactly the output rows of the kept transactions, in
    their stored order; among them, those that an input row of an undone
    transaction references have their spent flag cleared, whatever else
    references them, and the others keep their flag. *)
Theorem rollbackToHeight_clears_flags_of_undone_inputs
  (db : Db) (targetHeight : Z) :
  store_ok db ->
  snd (rollbackToHeight db targetHeight) = None ->
  let back := fst (rollbackToHeight db targetHeight) in
  let kept := map txr_id (transactions back) in
  transaction_outputs back
  = filter (fun r => mem (otr_transaction_id r) kept)
      (map (unspend (filter (fun i => negb (mem (inr_transaction_id i) kept))
                            (transaction_inputs db)))
           (transaction_outputs db)).
Proof.
  intros Hok Hc. cbv zeta. rewrite (rollbackToHeight_commit _ _ Hc).
  apply (rollbackToHeight_session_outputs db targetHeight Hok).
Qed.

Lemma rollbackToHeight_clears_flags_of_undone_inputs_witness :
  transaction_outputs (fst (rollbackToHeight store_three 2))
  = filter (fun r => mem (otr_transaction_id r)
                         (map txr_id
                            (transactions
                               (fst (rollbackToHeight store_three 2)))))
      (map (unspend
              (filter (fun i =>
                         negb (mem (inr_transaction_id i)
                                 (map txr_id
                                    (transactions
                                       (fst (rollbackToHeight
                                               store_three 2))))))
                      (transaction_inputs store_three)))
           (transaction_outputs store_three)).
Proof.
  apply (rollbackToHeight_clears_flags_of_undone_inputs store_three 2).
  - repeat apply processBlock_store_ok. apply store_ok_empty.
  - reflexivity.
Defined.

(* ================================================================= *)
(** ** No dangling input in a served store *)

Lemma balanced_input_resolves db txs tx input :
  Forall (balanced db) txs -> In tx txs -> In input (tx_inputs tx) ->
  exists o, In o (transaction_outputs db) /\
            output_at (in_txId input) (in_index input) o = true.
Proof.
  intros Hall Htx Hin. rewrite Forall_forall in Hall.
  destruct (Hall tx Htx) as [E | (vs & Hvs & _)].
  - rewrite E in Hin. destruct Hin.
  - destruct (Forall2_resolves_In _ _ _ _ Hvs Hin) as (v & _ & r & rest & Hr & _).
    exists r.
    assert (In r (select_output db (in_txId input) (in_index input))) as H
      by (rewrite Hr; now left).
    unfold select_output in H. now apply filter_In in H.
Qed.

Lemma balanced_input_in_range db txs tx input :
  Forall (balanced db) txs -> In tx txs -> In input (tx_inputs tx) ->
  in_int4 (in_index input) = true.
Proof.
  intros Hall Htx Hin. rewrite Forall_forall in Hall.
  destruct (Hall tx Htx) as [E | (vs & Hvs & _)].
  - rewrite E in Hin. destruct Hin.
  - now destruct (Forall2_resolves_In _ _ _ _ Hvs Hin) as (v & Hr & _).
Qed.

Lemma validateBlock_valid_balanced sha256hex svc block :
  isValid (validateBlock sha256hex svc block) = true ->
  Forall (balanced (svc_db svc)) (block_transactions block).
Proof.
  unfold validateBlock.
  destruct (isValid (validateHeight _ _)) eqn:Eh; cbn [negb]; [|congruence].
  destruct (isValid (validateBlockIdFormat _ _)) eqn:Ei; cbn [negb];
    [|congruence].
  destruct (isValid (validateInputOutputBalance _ _)) eqn:E; cbn [negb];
    [|congruence].
  intros _. now apply validateInputOutputBalance_valid.
Qed.

Lemma stored_output_height svc o :
  tracked svc -> In o (transaction_outputs (svc_db svc)) ->
  exists h, tx_height (svc_db svc) (otr_transaction_id o) h /\
            h <= currentHeight svc.
Proof.
  intros ((_ & (F1 & _ & F3) & _) & _ & Hh) Ho.
  pose proof (F3 o Ho) as Ht. apply in_map_iff in Ht.
  destruct Ht as (t & Et & Ht).
  pose proof (F1 t Ht) as Hb. apply in_map_iff in Hb.
  destruct Hb as (b & Eb & Hb).
  exists (blk_height b). split.
  - exists t, b. repeat split; congruence.
  - assert (1 <= blk_height b <= currentHeight svc)
      by (apply Hh; now apply in_map).
    lia.
Qed.

Lemma inputs_grounded_post_blocks sha256hex svc block :
  tracked svc -> inputs_grounded (svc_db svc) ->
  inputs_grounded (svc_db (fst (post_blocks sha256hex svc block))).
Proof.
  intros Ht Hg.
  destruct (post_blocks_cases sha256hex svc block)
    as [(_ & ->) | [(_ & _ & ->) | (Hv & db' & Hu & ->)]];
    cbn [fst svc_db]; try exact Hg.
  pose proof (validateBlock_valid_height _ _ _ Hv) as Hheight.
  pose proof (validateBlock_valid_balanced _ _ _ Hv) as Hbal.
  pose proof (processBlock_unit_blocks _ _ _ Hu) as HB.
  assert (transactions db'
          = transactions (svc_db svc)
            ++ map (fun tx => mkTransactionRow (tx_id tx) (block_id block))
                   (block_transactions block) /\
          transaction_inputs db'
          = transaction_inputs (svc_db svc)
            ++ flat_map input_rows (block_transactions block))
    as (HT & HI).
  { pose proof Hu as Ef. apply processBlock_unit_ok in Ef.
    destruct Ef as (_ & _ & _ & Ef).
    apply for_each_processTransaction_ok_unbounded in Ef.
    destruct Ef as (Ef & _). split.
    - now destruct (for_each_processTransaction_rows _ _ _ _ Ef) as (_ & ->).
    - now rewrite (for_each_processTransaction_inputs _ _ _ _ Ef). }
  assert (outputs_extend (svc_db svc) db') as Hext.
  { pose proof (processBlock_extends (svc_db svc) block) as H.
    unfold processBlock in H. now rewrite Hu in H. }
  assert (forall o, In o (transaction_outputs (svc_db svc)) ->
                    exists o', In o' (transaction_outputs db') /\
                               forget_spent o' = forget_spent o) as Hkeep.
  { intros o Ho. destruct Hext as (old & more & E & F).
    destruct (map_eq_In forget_spent _ old o (eq_sym F) Ho) as (o' & Ho' & Eo).
    exists o'. split; [|exact Eo]. rewrite E. apply in_or_app. now left. }
  assert (forall x h, tx_height (svc_db svc) x h -> tx_height db' x h) as Hmono.
  { intros x h (t & b & Ht' & Hb & E1 & E2 & E3). exists t, b.
    rewrite HT, HB. repeat split; try assumption; apply in_or_app; now left. }
  intros i Hi. rewrite HI in Hi. apply in_app_or in Hi.
  destruct Hi as [Hi | Hi].
  - destruct (Hg i Hi) as (o & h & h' & Ho & Hat & Hh' & Hh & Hlt).
    destruct (Hkeep o Ho) as (o' & Ho' & Eo).
    exists o', h, h'. repeat split; try assumption.
    + rewrite <- Hat. now apply output_at_forget_spent.
    + apply forget_spent_fields in Eo. destruct Eo as (-> & _).
      now apply Hmono.
    + now apply Hmono.
  - apply in_flat_map in Hi. destruct Hi as (tx & Htx & Hi).
    unfold input_rows in Hi. apply in_map_iff in Hi.
    destruct Hi as (input & <- & Hin).
    destruct (balanced_input_resolves _ _ _ _ Hbal Htx Hin) as (o & Ho & Hat).
    destruct (stored_output_height svc o Ht Ho) as (h' & Hh' & Hle).
    destruct (Hkeep o Ho) as (o' & Ho' & Eo).
    exists o', (block_height block), h'.
    cbn [inr_input_tx_id inr_input_index inr_transaction_id].
    repeat split; try assumption.
    + rewrite <- Hat. now apply output_at_forget_spent.
    + apply forget_spent_fields in Eo. destruct Eo as (-> & _).
      now apply Hmono.
    + exists (mkTransactionRow (tx_id tx) (block_id block)),
        (mkBlockRow (block_id block) (block_height block)).
      rewrite HT, HB. repeat split.
      * apply in_or_app. right. apply in_map_iff. now exists tx.
      * apply in_or_app. right. now left.
    + lia.
Qed.

Lemma inputs_grounded_rollback db targetHeight :
  store_ok db -> inputs_grounded db ->
  inputs_grounded (fst (rollbackToHeight_session db targetHeight)).
Proof.
  intros Hok Hg.
  destruct (rollbackToHeight_rows db targetHeight Hok)
    as (HB & HT & HI & HO & _ & _).
  cbv zeta in HB, HT, HI, HO.
  destruct Hok as ((Kb & Kt) & _).
  set (back := fst (rollbackToHeight_session db targetHeight)) in *.
  (* a kept transaction sits in a kept block, at its height *)
  assert (forall x h, tx_height db x h ->
                      In x (map txr_id (transactions back)) ->
                      h <= targetHeight) as Hlow.
  { intros x h (t & b & Ht & Hb & E1 & E2 & E3) Hx.
    apply in_map_iff in Hx. destruct Hx as (t1 & Et1 & Ht1).
    rewrite HT in Ht1. apply filter_In in Ht1. destruct Ht1 as (Ht1 & Hm).
    assert (t1 = t) by (eapply NoDup_map_eq; eauto; congruence). subst t1.
    apply mem_In, in_map_iff in Hm. destruct Hm as (b1 & Eb1 & Hb1).
    rewrite HB in Hb1. apply filter_In in Hb1. destruct Hb1 as (Hb1 & Hle).
    assert (b1 = b) by (eapply NoDup_map_eq; eauto; congruence). subst b1.
    lia. }
  assert (forall x h, tx_height db x h -> h <= targetHeight ->
                      tx_height back x h /\
                      In x (map txr_id (transactions back))) as Hkept.
  { intros x h (t & b & Ht & Hb & E1 & E2 & E3) Hle.
    assert (In b (blocks back)) as Hb'
      by (rewrite HB; apply filter_In; split; [exact Hb | lia]).
    assert (In t (transactions back)) as Ht'.
    { rewrite HT. apply filter_In. split; [exact Ht|].
      apply mem_In. rewrite E2. now apply in_map. }
    split.
    - now exists t, b.
    - rewrite <- E1. now apply in_map. }
  intros i Hi. rewrite HI in Hi. apply filter_In in Hi.
  destruct Hi as (Hi & Hm). apply mem_In in Hm.
  destruct (Hg i Hi) as (o & h & h' & Ho & Hat & Hh' & Hh & Hlt).
  pose proof (Hlow _ _ Hh Hm) as Hle.
  destruct (Hkept _ _ Hh Hle) as (Hh2 & _).
  destruct (Hkept _ _ Hh' ltac:(lia)) as (Hh2' & Hmo).
  assert (In o (filter (fun r => mem (otr_transaction_id r)
                                     (map txr_id (transactions back)))
                       (transaction_outputs db))) as Hof
    by (apply filter_In; split; [exact Ho | now apply mem_In]).
  destruct (map_eq_In forget_spent _ _ o (eq_sym HO) Hof) as (o' & Ho' & Eo).
  exists o', h, h'. repeat split; try assumption.
  - rewrite <- Hat. now apply output_at_forget_spent.
  - apply forget_spent_fields in Eo. destruct Eo as (-> & _). exact Hh2'.
Qed.

Lemma indexes_in_range_post_blocks sha256hex svc block :
  indexes_in_range (svc_db svc) ->
  indexes_in_range (svc_db (fst (post_blocks sha256hex svc block))).
Proof.
  intros Hg.
  destruct (post_blocks_cases sha256hex svc block)
    as [(_ & ->) | [(_ & _ & ->) | (Hv & db' & Hu & ->)]];
    cbn [fst svc_db]; try exact Hg.
  pose proof (validateBlock_valid_balanced _ _ _ Hv) as Hbal.
  apply processBlock_unit_ok in Hu. destruct Hu as (_ & _ & _ & Ef).
  apply for_each_processTransaction_ok_unbounded in Ef.
  destruct Ef as (Ef & _).
  intros i Hi. rewrite (for_each_processTransaction_inputs _ _ _ _ Ef) in Hi.
  cbn [transaction_inputs] in Hi. apply in_app_or in Hi.
  destruct Hi as [Hi | Hi]; [now apply Hg|].
  apply in_flat_map in Hi. destruct Hi as (tx & Htx & Hi).
  unfold input_rows in Hi. apply in_map_iff in Hi.
  destruct Hi as (input & <- & Hin). cbn [inr_input_index].
  now apply (balanced_input_in_range _ _ _ _ Hbal Htx Hin).
Qed.

Lemma indexes_in_range_rollback db targetHeight :
  store_ok db -> indexes_in_range db ->
  indexes_in_range (fst (rollbackToHeight_session db targetHeight)).
Proof.
  intros Hok Hg i Hi.
  destruct (rollbackToHeight_rows db targetHeight Hok) as (_ & _ & HI & _).
  cbv zeta in HI. rewrite HI in Hi. apply filter_In in Hi.
  now apply Hg.
Qed.

Lemma grounded_serve sha256hex reqs :
  inputs_grounded (svc_db (serve sha256hex reqs)) /\
  indexes_in_range (svc_db (serve sha256hex reqs)).
Proof.
  unfold serve.
  assert (forall svc,
             tracked svc -> inputs_grounded (svc_db svc) ->
             indexes_in_range (svc_db svc) ->
             inputs_grounded (svc_db (fold_left (handle sha256hex) reqs svc)) /\
             indexes_in_range
               (svc_db (fold_left (handle sha256hex) reqs svc))) as H.
  { induction reqs as [|req reqs IH]; intros svc Ht Hg Hr; cbn [fold_left];
      [now split|].
    destruct req; cbn [handle].
    - apply IH; [now apply tracked_post_blocks | |].
      + now apply inputs_grounded_post_blocks.
      + now apply indexes_in_range_post_blocks.
    - now apply IH.
    - apply IH; [now apply tracked_post_rollback | |];
        destruct (post_rollback_cases svc targetHeight)
          as [(_ & ->) | [(target & e & _ & _ & _ & ->)
                         | (target & c & -> & _ & Hc & ->)]];
        cbn [fst svc_db]; try assumption;
        apply rollbackToHeight_unit_ok in Hc; subst c.
      + apply inputs_grounded_rollback; [apply Ht | exact Hg].
      + apply indexes_in_range_rollback; [apply Ht | exact Hr]. }
  apply H; [apply tracked_initial | intros i [] | intros i []].
Qed.

(** X13. Start the server on an empty database and let it answer any
    requests, one after the other.  Then no stored input dangles: every
    input row references an output row that is stored, and that output
    belongs to a transaction of a lower block than the transaction of the
    input.  In particular [getInputValue] resolves the reference of every
    stored input. *)
Theorem served_inputs_reference_stored_outputs
  (sha256hex : string -> string) (reqs : list Request) :
  let db := svc_db (serve sha256hex reqs) in
  inputs_grounded db /\
  (forall i, In i (transaction_inputs db) ->
             exists v, getInputValue db (inr_input_tx_id i) (inr_input_index i)
                       = inr v).
Proof.
  cbv zeta. destruct (grounded_serve sha256hex reqs) as (Hg & Hrange).
  split; [exact Hg|].
  intros i Hi. destruct (Hg i Hi) as (o & _ & _ & Ho & Hat & _).
  unfold getInputValue, select_output. rewrite (Hrange i Hi).
  destruct (filter _ _) as [|r rest] eqn:E.
  - assert (In o (filter (output_at (inr_input_tx_id i) (inr_input_index i))
                         (transaction_outputs
                            (svc_db (serve sha256hex reqs))))) as H
      by (apply filter_In; now split).
    rewrite E in H. destruct H.
  - now exists (otr_value r).
Qed.
